(** * The document grid of MongoDBDataTable.vue

    A shallow embedding of the script of [src/components/MongoDBDataTable.vue]
    (schema union, value formatting and coercion, pagination, the retrying
    loaders, inline editing, deletion) together with the part of the
    JavaScript runtime it calls, and the properties of the grid stated in
    the specification. *)

From Stdlib Require Import String Ascii List ZArith QArith Qround Lia Bool.
From Stdlib Require Import DecimalString DecimalN.
From stdpp Require Import base option list strings.
Import ListNotations.

Local Open Scope string_scope.
Local Open Scope Z_scope.

(** ** The JavaScript runtime used by the component

    Strings are byte strings, read as the UTF-8 form of the JavaScript
    string.  Numbers are exact decimals: [Finite s d n] is
    [(-1)^s * 0.d * 10^n] with [d] a digit string without leading or
    trailing zero (empty for zero).  The model does not round to binary64,
    so it agrees with an engine on the numbers whose shortest decimal form
    has at most 15 significant digits and lies within the double range. *)

Module JS.

#[local] Set Warnings "-register-all".

Inductive number : Type :=
| NaN
| Infinity (negative : bool)
| Finite (negative : bool) (digits : string) (point : Z).

Inductive value : Type :=
| VNull
| VBool (b : bool)
| VNum (n : number)
| VStr (s : string)
| VArr (elements : list value)
| VObj (properties : list (string * value)).

(** A property read such as [doc[header]] yields [None] for [undefined]. *)
Definition any := option value.

(** Thrown values: an [Error] object with its name and message, or a plain
    value (a Tauri command rejects with the string of the Rust error). *)
Inductive thrown : Type :=
| Error (name message : string)
| Thrown (payload : value).

Inductive result (A : Type) : Type :=
| Ok (a : A)
| Throw (e : thrown).
Arguments Ok {A} a.
Arguments Throw {A} e.

(** *** Characters and digits *)

Definition code (c : ascii) : N := N_of_ascii c.

Definition is_digit (c : ascii) : bool := ((48 <=? code c) && (code c <=? 57))%N.

Fixpoint span_digits (s : string) : string * string :=
  match s with
  | String c r =>
      if is_digit c then let (d, r') := span_digits r in (String c d, r')
      else (EmptyString, s)
  | EmptyString => (EmptyString, EmptyString)
  end.

Fixpoint strip_leading_zeros (s : string) : string :=
  match s with
  | String "0" r => strip_leading_zeros r
  | _ => s
  end.

Fixpoint string_rev (s : string) : string :=
  match s with
  | EmptyString => EmptyString
  | String c r => string_rev r ++ String c EmptyString
  end.

Definition strip_trailing_zeros (s : string) : string :=
  string_rev (strip_leading_zeros (string_rev s)).

Fixpoint digits_value (s : string) (acc : Z) : Z :=
  match s with
  | String c r => digits_value r (10 * acc + (Z.of_N (code c) - 48))
  | EmptyString => acc
  end.

Fixpoint repeat_char (c : ascii) (n : nat) : string :=
  match n with
  | O => EmptyString
  | S n' => String c (repeat_char c n')
  end.

Fixpoint take_chars (n : nat) (s : string) : string :=
  match n, s with
  | S n', String c r => String c (take_chars n' r)
  | _, _ => EmptyString
  end.

Fixpoint drop_chars (n : nat) (s : string) : string :=
  match n, s with
  | S n', String _ r => drop_chars n' r
  | _, _ => s
  end.

Definition decimal_of_N (n : N) : string :=
  NilZero.string_of_uint (N.to_uint n).

(** [String.prototype.includes]. *)
Fixpoint includes (s sub : string) : bool :=
  String.prefix sub s ||
  match s with
  | String _ r => includes r sub
  | EmptyString => false
  end.

(** *** Numbers *)

(** The mathematical value of a decimal literal with integer digits [int],
    fraction digits [frac] and exponent [exp], in canonical form. *)
Definition read_decimal (neg : bool) (int frac : string) (exp : Z) : number :=
  let all := int ++ frac in
  let significant := strip_leading_zeros all in
  let lead := Z.of_nat (String.length all) - Z.of_nat (String.length significant) in
  let digits := strip_trailing_zeros significant in
  match digits with
  | EmptyString => Finite neg EmptyString 0
  | _ => Finite neg digits (Z.of_nat (String.length int) - lead + exp)
  end.

(** An [ExponentPart] at the head of [s], if there is a complete one. *)
Definition read_exponent (s : string) : Z * string :=
  match s with
  | String c r =>
      if (code c =? 101)%N || (code c =? 69)%N then
        let '(neg, r1) :=
          match r with
          | String "-" r' => (true, r')
          | String "+" r' => (false, r')
          | _ => (false, r)
          end in
        let (d, r2) := span_digits r1 in
        match d with
        | EmptyString => (0, s)
        | _ => (if neg then - digits_value d 0 else digits_value d 0, r2)
        end
      else (0, s)
  | EmptyString => (0, s)
  end.

(** [StrWhiteSpaceChar] at the head of [s] (white space and line
    terminators, the non-ASCII ones in their UTF-8 form), removed. *)
Definition strip_white_space_char (s : string) : option string :=
  match s with
  | String c r =>
      let b := code c in
      if ((9 <=? b) && (b <=? 13) || (b =? 32))%N then Some r
      else
        match r with
        | String c1 r1 =>
            let b1 := code c1 in
            if ((b =? 194) && (b1 =? 160))%N then Some r1
            else
              match r1 with
              | String c2 r2 =>
                  let b2 := code c2 in
                  if ((b =? 225) && (b1 =? 154) && (b2 =? 128)
                      || (b =? 226) && (b1 =? 128)
                         && ((128 <=? b2) && (b2 <=? 138)
                             || (b2 =? 168) || (b2 =? 169) || (b2 =? 175))
                      || (b =? 226) && (b1 =? 129) && (b2 =? 159)
                      || (b =? 227) && (b1 =? 128) && (b2 =? 128)
                      || (b =? 239) && (b1 =? 187) && (b2 =? 191))%N
                  then Some r2 else None
              | EmptyString => None
              end
        | EmptyString => None
        end
  | EmptyString => None
  end.

Fixpoint trim_start_fuel (fuel : nat) (s : string) : string :=
  match fuel with
  | O => s
  | S fuel' =>
      match strip_white_space_char s with
      | Some r => trim_start_fuel fuel' r
      | None => s
      end
  end.

(** Every removal takes at least one byte, so the length is fuel enough. *)
Definition trim_start (s : string) : string := trim_start_fuel (String.length s) s.

(** The global [parseFloat]: the longest prefix of the trimmed text that is
    a [StrDecimalLiteral], or [NaN] when there is none.  It never throws. *)
Definition parseFloat (input : string) : number :=
  let trimmed := trim_start input in
  let '(neg, unsigned) :=
    match trimmed with
    | String "-" r => (true, r)
    | String "+" r => (false, r)
    | _ => (false, trimmed)
    end in
  if String.prefix "Infinity" unsigned then Infinity neg
  else
    let (int, r1) := span_digits unsigned in
    let '(frac, r2) :=
      match r1 with
      | String "." r => span_digits r
      | _ => (EmptyString, r1)
      end in
    match int, frac with
    | EmptyString, EmptyString => NaN
    | _, _ =>
        let (exp, _) := read_exponent r2 in
        read_decimal neg int frac exp
    end.

(** [Number::toString] in radix 10. *)
Definition Number_toString (x : number) : string :=
  match x with
  | NaN => "NaN"
  | Infinity neg => if neg then "-Infinity" else "Infinity"
  | Finite _ EmptyString _ => "0"
  | Finite neg digits n =>
      let k := Z.of_nat (String.length digits) in
      let sign := if neg then "-" else "" in
      let body :=
        if (k <=? n) && (n <=? 21) then
          digits ++ repeat_char "0" (Z.to_nat (n - k))
        else if (0 <? n) && (n <=? 21) then
          take_chars (Z.to_nat n) digits ++ "." ++ drop_chars (Z.to_nat n) digits
        else if (-6 <? n) && (n <=? 0) then
          "0." ++ repeat_char "0" (Z.to_nat (- n)) ++ digits
        else
          let e := n - 1 in
          let exponent :=
            "e" ++ (if e <? 0 then "-" else "+") ++ decimal_of_N (Z.to_N (Z.abs e)) in
          if k =? 1 then digits ++ exponent
          else take_chars 1 digits ++ "." ++ drop_chars 1 digits ++ exponent
      in sign ++ body
  end.


(** [===] on numbers: [NaN] differs from itself, the two zeros are equal. *)
Definition number_equal (x y : number) : bool :=
  match x, y with
  | NaN, _ | _, NaN => false
  | Infinity a, Infinity b => Bool.eqb a b
  | Finite _ EmptyString _, Finite _ EmptyString _ => true
  | Finite a d n, Finite b e m => Bool.eqb a b && String.eqb d e && (n =? m)
  | _, _ => false
  end.

(** *** Values *)

Inductive type_tag : Type :=
| t_undefined | t_object | t_boolean | t_number | t_string.

(** The [typeof] operator; [null] is an ["object"]. *)
Definition typeof (v : any) : type_tag :=
  match v with
  | None => t_undefined
  | Some VNull => t_object
  | Some (VBool _) => t_boolean
  | Some (VNum _) => t_number
  | Some (VStr _) => t_string
  | Some (VArr _) => t_object
  | Some (VObj _) => t_object
  end.

Definition is_object (t : type_tag) : bool :=
  match t with t_object => true | _ => false end.

Definition is_number (t : type_tag) : bool :=
  match t with t_number => true | _ => false end.

(** [ToString] of a value; an array joins its elements with commas, [null]
    elements as empty text. *)
Fixpoint ToString_value (v : value) : string :=
  match v with
  | VNull => "null"
  | VBool b => if b then "true" else "false"
  | VNum n => Number_toString n
  | VStr s => s
  | VArr l =>
      (fix join (l : list value) : string :=
         match l with
         | [] => ""
         | e :: r =>
             let text := match e with VNull => "" | _ => ToString_value e end in
             match r with
             | [] => text
             | _ => text ++ "," ++ join r
             end
         end) l
  | VObj _ => "[object Object]"
  end.

(** The [String(...)] conversion. *)
Definition ToString (v : any) : string :=
  match v with
  | None => "undefined"
  | Some v => ToString_value v
  end.

(** [Error.prototype.toString] for an error object, [ToString] otherwise:
    what a template literal makes of a caught value. *)
Definition ToString_thrown (e : thrown) : string :=
  match e with
  | Error EmptyString message => message
  | Error name EmptyString => name
  | Error name message => name ++ ": " ++ message
  | Thrown v => ToString_value v
  end.

(** [error instanceof Error ? error.message : String(error)]. *)
Definition message_of (e : thrown) : string :=
  match e with
  | Error _ message => message
  | Thrown v => ToString_value v
  end.

(** *** Objects as ordered property lists

    An object is the list of its own properties in enumeration order:
    array-index keys in ascending order first, then the other keys in
    creation order. *)

Fixpoint get_property (key : string) (props : list (string * value)) : any :=
  match props with
  | [] => None
  | (k, v) :: r => if String.eqb k key then Some v else get_property key r
  end.

Definition has_property (key : string) (props : list (string * value)) : bool :=
  match get_property key props with Some _ => true | None => false end.

(** An array index is the canonical decimal text of an integer below
    [2^32 - 1]. *)
Definition array_index (key : string) : option Z :=
  match key with
  | EmptyString => None
  | String c r =>
      let (d, rest) := span_digits key in
      match rest with
      | EmptyString =>
          if (code c =? 48)%N && negb (String.eqb r EmptyString) then None
          else
            let n := digits_value d 0 in
            if n <? 4294967295 then Some n else None
      | _ => None
      end
  end.

Fixpoint replace_property (key : string) (v : value) (props : list (string * value))
  : list (string * value) :=
  match props with
  | [] => []
  | (k, w) :: r =>
      if String.eqb k key then (k, v) :: r else (k, w) :: replace_property key v r
  end.

Fixpoint insert_index (n : Z) (key : string) (v : value) (props : list (string * value))
  : list (string * value) :=
  match props with
  | [] => [(key, v)]
  | (k, w) :: r =>
      match array_index k with
      | Some m => if m <? n then (k, w) :: insert_index n key v r else (key, v) :: props
      | None => (key, v) :: props
      end
  end.

(** The assignment [object[key] = v] on a plain object. *)
Definition set_property (key : string) (v : value) (props : list (string * value))
  : list (string * value) :=
  if has_property key props then replace_property key v props
  else
    match array_index key with
    | Some n => insert_index n key v props
    | None => props ++ [(key, v)]
    end.

(** [Object.keys]. *)
Definition Object_keys (props : list (string * value)) : list string := map fst props.

(** *** JSON text *)

Definition char (n : N) : string := String (ascii_of_N n) EmptyString.

Definition double_quote : string := char 34.
Definition backslash : string := char 92.
Definition line_feed : string := char 10.

Definition hex_digit (n : N) : string :=
  if (n <? 10)%N then char (48 + n) else char (87 + n).

(** One character of [QuoteJSONString]. *)
Definition quote_char (c : ascii) : string :=
  let b := code c in
  if (b =? 34)%N then backslash ++ double_quote
  else if (b =? 92)%N then backslash ++ backslash
  else if (b =? 8)%N then backslash ++ "b"
  else if (b =? 12)%N then backslash ++ "f"
  else if (b =? 10)%N then backslash ++ "n"
  else if (b =? 13)%N then backslash ++ "r"
  else if (b =? 9)%N then backslash ++ "t"
  else if (b <? 32)%N then
    backslash ++ "u00" ++ hex_digit (b / 16) ++ hex_digit (b mod 16)
  else String c EmptyString.

Fixpoint quote_chars (s : string) : string :=
  match s with
  | EmptyString => EmptyString
  | String c r => quote_char c ++ quote_chars r
  end.

Definition QuoteJSONString (s : string) : string :=
  double_quote ++ quote_chars s ++ double_quote.

Fixpoint join (separator : string) (parts : list string) : string :=
  match parts with
  | [] => ""
  | [p] => p
  | p :: r => p ++ separator ++ join separator r
  end.

(** [SerializeJSONProperty] with its [gap] and current [indent]: the
    compact form for the empty gap, one member per line otherwise. *)
Fixpoint SerializeJSONProperty (gap indent : string) (v : value) : string :=
  let stepback := indent in
  let indent := indent ++ gap in
  let wrap (open close : string) (partial : list string) : string :=
    match partial with
    | [] => open ++ close
    | _ =>
        match gap with
        | EmptyString => open ++ join "," partial ++ close
        | _ =>
            let separator := "," ++ line_feed ++ indent in
            open ++ line_feed ++ indent ++ join separator partial
                 ++ line_feed ++ stepback ++ close
        end
    end in
  match v with
  | VNull => "null"
  | VBool b => if b then "true" else "false"
  | VNum (Finite _ _ _ as n) => Number_toString n
  | VNum _ => "null"
  | VStr s => QuoteJSONString s
  | VArr l => wrap "[" "]" (map (SerializeJSONProperty gap indent) l)
  | VObj props =>
      let member (kv : string * value) : string :=
        QuoteJSONString (fst kv) ++ ":"
          ++ match gap with EmptyString => "" | _ => " " end
          ++ SerializeJSONProperty gap indent (snd kv) in
      wrap "{" "}" (map member props)
  end.

(** [JSON.stringify(value)] and [JSON.stringify(value, null, 2)]. *)
Definition JSON_stringify (v : value) : string := SerializeJSONProperty "" "" v.
Definition JSON_stringify_indent2 (v : value) : string := SerializeJSONProperty "  " "" v.

(** *** [JSON.parse] *)

Inductive parse (A : Type) : Type :=
| Parsed (a : A) (rest : string)
| Malformed
| OutOfFuel.
Arguments Parsed {A} a rest.
Arguments Malformed {A}.
Arguments OutOfFuel {A}.

Definition parse_map {A B : Type} (f : A -> B) (p : parse A) : parse B :=
  match p with
  | Parsed a rest => Parsed (f a) rest
  | Malformed => Malformed
  | OutOfFuel => OutOfFuel
  end.

Fixpoint skip_ws (s : string) : string :=
  match s with
  | String c r =>
      let b := code c in
      if ((b =? 32) || (b =? 9) || (b =? 10) || (b =? 13))%N then skip_ws r else s
  | EmptyString => EmptyString
  end.

Definition hex_value (c : ascii) : option N :=
  let b := code c in
  if ((48 <=? b) && (b <=? 57))%N then Some (b - 48)%N
  else if ((97 <=? b) && (b <=? 102))%N then Some (b - 87)%N
  else if ((65 <=? b) && (b <=? 70))%N then Some (b - 55)%N
  else None.

Definition code_unit (a b c d : ascii) : option N :=
  match hex_value a, hex_value b, hex_value c, hex_value d with
  | Some x, Some y, Some z, Some w => Some (((x * 16 + y) * 16 + z) * 16 + w)%N
  | _, _, _, _ => None
  end.

(** The bytes of a code point (a lone surrogate gets the three-byte form). *)
Definition utf8 (cp : N) : string :=
  (if cp <? 128 then char cp
   else if cp <? 2048 then char (192 + cp / 64) ++ char (128 + cp mod 64)
   else if cp <? 65536 then
     char (224 + cp / 4096) ++ char (128 + (cp / 64) mod 64) ++ char (128 + cp mod 64)
   else
     char (240 + cp / 262144) ++ char (128 + (cp / 4096) mod 64)
       ++ char (128 + (cp / 64) mod 64) ++ char (128 + cp mod 64))%N.

Definition simple_escape (c : ascii) : option string :=
  let b := code c in
  if ((b =? 34) || (b =? 92) || (b =? 47))%N then Some (String c EmptyString)
  else if (b =? 98)%N then Some (char 8)
  else if (b =? 102)%N then Some (char 12)
  else if (b =? 110)%N then Some (char 10)
  else if (b =? 114)%N then Some (char 13)
  else if (b =? 116)%N then Some (char 9)
  else None.

Definition is_high_surrogate (u : N) : bool := ((55296 <=? u) && (u <=? 56319))%N.
Definition is_low_surrogate (u : N) : bool := ((56320 <=? u) && (u <=? 57343))%N.

(** The characters of a JSON string after its opening quote. *)
Fixpoint read_string (s : string) : parse string :=
  match s with
  | EmptyString => Malformed
  | String c r =>
      let b := code c in
      if (b =? 34)%N then Parsed EmptyString r
      else if (b <? 32)%N then Malformed
      else if (b =? 92)%N then
        match r with
        | String e r1 =>
            if (code e =? 117)%N then
              match r1 with
              | String h1 (String h2 (String h3 (String h4 r2))) =>
                  match code_unit h1 h2 h3 h4 with
                  | Some u =>
                      let single := parse_map (append (utf8 u)) (read_string r2) in
                      match r2 with
                      | String e1 (String e2 (String l1 (String l2 (String l3 (String l4 r3))))) =>
                          match code_unit l1 l2 l3 l4 with
                          | Some w =>
                              if (code e1 =? 92)%N && (code e2 =? 117)%N
                                 && is_high_surrogate u && is_low_surrogate w
                              then
                                parse_map
                                  (append (utf8 (65536 + (u - 55296) * 1024 + (w - 56320))%N))
                                  (read_string r3)
                              else single
                          | None => single
                          end
                      | _ => single
                      end
                  | None => Malformed
                  end
              | _ => Malformed
              end
            else
              match simple_escape e with
              | Some t => parse_map (append t) (read_string r1)
              | None => Malformed
              end
        | EmptyString => Malformed
        end
      else parse_map (String c) (read_string r)
  end.

(** A JSON number: [-? int frac? exp?], no leading zero, digits required
    after the point and after the exponent mark. *)
Definition read_number (s : string) : parse number :=
  let '(neg, s1) :=
    match s with
    | String "-" r => (true, r)
    | _ => (false, s)
    end in
  let '(int, s2) :=
    match s1 with
    | String "0" r => ("0", r)
    | _ => span_digits s1
    end in
  match int with
  | EmptyString => Malformed
  | _ =>
      let fraction :=
        match s2 with
        | String "." r =>
            let (f, r') := span_digits r in
            match f with
            | EmptyString => None
            | _ => Some (f, r')
            end
        | _ => Some (EmptyString, s2)
        end in
      match fraction with
      | None => Malformed
      | Some (frac, s3) =>
          match s3 with
          | String c _ =>
              if (code c =? 101)%N || (code c =? 69)%N then
                let (exp, s4) := read_exponent s3 in
                if (String.length s4 <? String.length s3)%nat
                then Parsed (read_decimal neg int frac exp) s4
                else Malformed
              else Parsed (read_decimal neg int frac 0) s3
          | EmptyString => Parsed (read_decimal neg int frac 0) s3
          end
      end
  end.

(** The text after the literal [p] at the head of [s]. *)
Fixpoint strip_prefix (p s : string) : option string :=
  match p, s with
  | EmptyString, _ => Some s
  | String a p', String b s' => if Ascii.eqb a b then strip_prefix p' s' else None
  | String _ _, EmptyString => None
  end.

Fixpoint parse_value (fuel : nat) (s : string) : parse value :=
  match fuel with
  | O => OutOfFuel
  | S fuel =>
      match skip_ws s with
      | EmptyString => Malformed
      | String c r as s' =>
          let b := code c in
          if (b =? 123)%N then
            match skip_ws r with
            | String c' r' =>
                if (code c' =? 125)%N then Parsed (VObj []) r'
                else parse_members fuel r []
            | EmptyString => Malformed
            end
          else if (b =? 91)%N then
            match skip_ws r with
            | String c' r' =>
                if (code c' =? 93)%N then Parsed (VArr []) r'
                else parse_elements fuel r []
            | EmptyString => Malformed
            end
          else if (b =? 34)%N then parse_map VStr (read_string r)
          else
            match strip_prefix "true" s', strip_prefix "false" s', strip_prefix "null" s' with
            | Some r', _, _ => Parsed (VBool true) r'
            | _, Some r', _ => Parsed (VBool false) r'
            | _, _, Some r' => Parsed VNull r'
            | None, None, None => parse_map VNum (read_number s')
            end
      end
  end
with parse_elements (fuel : nat) (s : string) (acc : list value) : parse value :=
  match fuel with
  | O => OutOfFuel
  | S fuel =>
      match parse_value fuel s with
      | Parsed v r =>
          match skip_ws r with
          | String c r' =>
              if (code c =? 44)%N then parse_elements fuel r' (v :: acc)
              else if (code c =? 93)%N then Parsed (VArr (rev (v :: acc))) r'
              else Malformed
          | EmptyString => Malformed
          end
      | Malformed => Malformed
      | OutOfFuel => OutOfFuel
      end
  end
with parse_members (fuel : nat) (s : string) (acc : list (string * value)) : parse value :=
  match fuel with
  | O => OutOfFuel
  | S fuel =>
      match skip_ws s with
      | String c r =>
          if (code c =? 34)%N then
            match read_string r with
            | Parsed key r1 =>
                match skip_ws r1 with
                | String c1 r2 =>
                    if (code c1 =? 58)%N then
                      match parse_value fuel r2 with
                      | Parsed v r3 =>
                          match skip_ws r3 with
                          | String c3 r4 =>
                              if (code c3 =? 44)%N
                              then parse_members fuel r4 (set_property key v acc)
                              else if (code c3 =? 125)%N
                              then Parsed (VObj (set_property key v acc)) r4
                              else Malformed
                          | EmptyString => Malformed
                          end
                      | Malformed => Malformed
                      | OutOfFuel => OutOfFuel
                      end
                    else Malformed
                | EmptyString => Malformed
                end
            | Malformed => Malformed
            | OutOfFuel => OutOfFuel
            end
          else Malformed
      | EmptyString => Malformed
      end
  end.

(** The [SyntaxError] of [JSON.parse]; the wording of its message is the
    engine's own, the model fixes one. *)
Definition syntax_error : thrown := Error "SyntaxError" "JSON Parse error".

(** [JSON.parse(text)]: one JSON value between optional white space, or a
    [SyntaxError].  Two units of fuel per byte are enough (see
    [parse_value_fuel]). *)
Definition JSON_parse (text : string) : result value :=
  match parse_value (2 * String.length text + 1) text with
  | Parsed v rest =>
      match skip_ws rest with
      | EmptyString => Ok v
      | _ => Throw syntax_error
      end
  | _ => Throw syntax_error
  end.

End JS.

Import JS.

Local Open Scope list_scope.

(** ** Effects of the component

    The handlers of the component are asynchronous: they read and write the
    reactive state, call the host through [invoke], may throw, and may
    schedule a loader again.  A handler is a function from the state to its
    completion, the state it leaves and the effects it performed, in order.
    Each handler is run to completion: no other handler is interleaved at
    its [await]. *)

(** A record of a collection: a plain object. *)
Definition doc : Type := list (string * value).

(** What [pageSize] holds: the number it is declared with, or, once the
    rows-per-page selector was used, the text of the item chosen, which
    [v-model] stores as the [value] attribute of the item gives it.  The
    items are decimal numerals: [size_text n] is the numeral of [n]. *)
Inductive size : Type :=
| size_number (n : Z)
| size_text (n : N).

Record state : Type := {
  collectionName : string;
  documents : list doc;
  isLoading : bool;
  errorMessage : string;
  pageSize : size;
  currentPage : Z;
  filterQuery : string;
  editingCell : option (nat * string);
  editValue : string;
  isSaving : bool;
  collectionsList : list string
}.

Definition set_collectionName (v : string) (st : state) : state :=
  {| collectionName := v; documents := documents st; isLoading := isLoading st;
     errorMessage := errorMessage st; pageSize := pageSize st;
     currentPage := currentPage st; filterQuery := filterQuery st;
     editingCell := editingCell st; editValue := editValue st;
     isSaving := isSaving st; collectionsList := collectionsList st |}.

Definition set_documents (v : list doc) (st : state) : state :=
  {| collectionName := collectionName st; documents := v; isLoading := isLoading st;
     errorMessage := errorMessage st; pageSize := pageSize st;
     currentPage := currentPage st; filterQuery := filterQuery st;
     editingCell := editingCell st; editValue := editValue st;
     isSaving := isSaving st; collectionsList := collectionsList st |}.

Definition set_isLoading (v : bool) (st : state) : state :=
  {| collectionName := collectionName st; documents := documents st; isLoading := v;
     errorMessage := errorMessage st; pageSize := pageSize st;
     currentPage := currentPage st; filterQuery := filterQuery st;
     editingCell := editingCell st; editValue := editValue st;
     isSaving := isSaving st; collectionsList := collectionsList st |}.

Definition set_errorMessage (v : string) (st : state) : state :=
  {| collectionName := collectionName st; documents := documents st;
     isLoading := isLoading st; errorMessage := v; pageSize := pageSize st;
     currentPage := currentPage st; filterQuery := filterQuery st;
     editingCell := editingCell st; editValue := editValue st;
     isSaving := isSaving st; collectionsList := collectionsList st |}.

Definition set_pageSize (v : size) (st : state) : state :=
  {| collectionName := collectionName st; documents := documents st;
     isLoading := isLoading st; errorMessage := errorMessage st; pageSize := v;
     currentPage := currentPage st; filterQuery := filterQuery st;
     editingCell := editingCell st; editValue := editValue st;
     isSaving := isSaving st; collectionsList := collectionsList st |}.

Definition set_currentPage (v : Z) (st : state) : state :=
  {| collectionName := collectionName st; documents := documents st;
     isLoading := isLoading st; errorMessage := errorMessage st;
     pageSize := pageSize st; currentPage := v; filterQuery := filterQuery st;
     editingCell := editingCell st; editValue := editValue st;
     isSaving := isSaving st; collectionsList := collectionsList st |}.

Definition set_editingCell (v : option (nat * string)) (st : state) : state :=
  {| collectionName := collectionName st; documents := documents st;
     isLoading := isLoading st; errorMessage := errorMessage st;
     pageSize := pageSize st; currentPage := currentPage st;
     filterQuery := filterQuery st; editingCell := v; editValue := editValue st;
     isSaving := isSaving st; collectionsList := collectionsList st |}.

Definition set_editValue (v : string) (st : state) : state :=
  {| collectionName := collectionName st; documents := documents st;
     isLoading := isLoading st; errorMessage := errorMessage st;
     pageSize := pageSize st; currentPage := currentPage st;
     filterQuery := filterQuery st; editingCell := editingCell st; editValue := v;
     isSaving := isSaving st; collectionsList := collectionsList st |}.

Definition set_isSaving (v : bool) (st : state) : state :=
  {| collectionName := collectionName st; documents := documents st;
     isLoading := isLoading st; errorMessage := errorMessage st;
     pageSize := pageSize st; currentPage := currentPage st;
     filterQuery := filterQuery st; editingCell := editingCell st;
     editValue := editValue st; isSaving := v;
     collectionsList := collectionsList st |}.

Definition set_collectionsList (v : list string) (st : state) : state :=
  {| collectionName := collectionName st; documents := documents st;
     isLoading := isLoading st; errorMessage := errorMessage st;
     pageSize := pageSize st; currentPage := currentPage st;
     filterQuery := filterQuery st; editingCell := editingCell st;
     editValue := editValue st; isSaving := isSaving st; collectionsList := v |}.

(** The state the component is created with. *)
Definition initial : state :=
  {| collectionName := "users"; documents := []; isLoading := false;
     errorMessage := ""; pageSize := size_number 10; currentPage := 1; filterQuery := "{}";
     editingCell := None; editValue := ""; isSaving := false;
     collectionsList := [] |}.

(** The commands of the host process. *)
Inductive command : Type :=
| find_documents (collection : string) (filter : value)
| list_collections
| update_document (collection : string) (id : any) (update : list (string * value))
| delete_document (collection : string) (id : string).

(** The two loaders, as the callbacks of a timer or of a watcher. *)
Inductive loader : Type := FetchDocuments | FetchCollections.

(** What a handler does to the world: a call of the host, a timer, a
    confirmation dialog, and the run of the watcher of [collectionName]
    (declared by [watch(collectionName, fetchDocuments)]) that a change of
    the collection name queues. *)
Inductive effect : Type :=
| invoke (c : command)
| setTimeout (handler : loader) (delay : Z)
| confirm (message : string)
| watcher (handler : loader).

Inductive promise (A : Type) : Type :=
| Resolve (a : A)
| Reject (e : thrown).
Arguments Resolve {A} a.
Arguments Reject {A} e.

(** What the world answers: the host's reply to each command and the
    user's answer to a confirmation dialog. *)
Record host : Type := {
  on_find_documents : string -> value -> promise (list doc);
  on_list_collections : promise (list string);
  on_update_document : string -> any -> list (string * value) -> promise bool;
  on_delete_document : string -> string -> promise bool;
  on_confirm : string -> bool
}.

Definition M (A : Type) : Type := state -> result A * state * list effect.

Definition ret {A : Type} (a : A) : M A := fun st => (Ok a, st, []).

Definition bind {A B : Type} (m : M A) (k : A -> M B) : M B :=
  fun st =>
    match m st with
    | (Ok a, st1, t1) => let '(r, st2, t2) := k a st1 in (r, st2, (t1 ++ t2)%list)
    | (Throw e, st1, t1) => (Throw e, st1, t1)
    end.

Notation "'let*' x := m 'in' k" := (bind m (fun x => k))
  (at level 10, x name, m at level 100, k at level 200).
Notation "'do' m 'then' k" := (bind m (fun _ => k))
  (at level 10, m at level 100, k at level 200).

Definition get : M state := fun st => (Ok st, st, []).
Definition modify (f : state -> state) : M unit := fun st => (Ok tt, f st, []).
Definition emit (e : effect) : M unit := fun st => (Ok tt, st, [e]).
Definition throw {A : Type} (e : thrown) : M A := fun st => (Throw e, st, []).

Definition lift {A : Type} (r : result A) : M A :=
  match r with
  | Ok a => ret a
  | Throw e => throw e
  end.

(** [try { body } catch (error) { handler }]. *)
Definition try_catch {A : Type} (body : M A) (handler : thrown -> M A) : M A :=
  fun st =>
    match body st with
    | (Ok a, st1, t1) => (Ok a, st1, t1)
    | (Throw e, st1, t1) => let '(r, st2, t2) := handler e st1 in (r, st2, (t1 ++ t2)%list)
    end.

(** [try { body } finally { final }]. *)
Definition try_finally {A : Type} (body : M A) (final : M unit) : M A :=
  fun st =>
    let '(r, st1, t1) := body st in
    match final st1 with
    | (Ok _, st2, t2) => (r, st2, (t1 ++ t2)%list)
    | (Throw e, st2, t2) => (Throw e, st2, (t1 ++ t2)%list)
    end.

(** [await invoke(c)] with the host's answer [p]. *)
Definition await {A : Type} (c : command) (p : promise A) : M A :=
  do emit (invoke c) then
  match p with
  | Resolve a => ret a
  | Reject e => throw e
  end.

(** The state and the effects a handler leaves. *)
Definition after {A : Type} (m : M A) (st : state) : state := snd (fst (m st)).
Definition effects {A : Type} (m : M A) (st : state) : list effect := snd (m st).
Definition completion {A : Type} (m : M A) (st : state) : result A := fst (fst (m st)).

(** ** The component *)

(** *** Pagination *)

(** [ToNumber] of the page size, as [/] and [*] take it. *)
Definition ToNumber_size (s : size) : Z :=
  match s with
  | size_number n => n
  | size_text n => Z.of_N n
  end.

(** [Math.ceil(documents.value.length / pageSize.value)], the quotient
    taken in the rationals.  The selector offers the sizes 5, 10, 20, 50
    and 100; a zero size, where JavaScript yields [NaN] or [Infinity], is
    outside the model. *)
Definition totalPages (st : state) : Z :=
  Qceiling (inject_Z (Z.of_nat (length (documents st)))
            / inject_Z (ToNumber_size (pageSize st))).

(** The bound that [Array.prototype.slice] makes of an integer argument: a
    negative one counts from the end, and both are cut to the array. *)
Definition slice_bound (len i : Z) : Z :=
  if i <? 0 then Z.max (len + i) 0 else Z.min i len.

Definition slice {A : Type} (l : list A) (start finish : Z) : list A :=
  let len := Z.of_nat (length l) in
  let k := slice_bound len start in
  let final := slice_bound len finish in
  take (Z.to_nat (final - k)) (drop (Z.to_nat k) l).

(** [(currentPage.value - 1) * pageSize.value]: a product, so a number
    whatever [pageSize] holds. *)
Definition page_start (st : state) : Z :=
  (currentPage st - 1) * ToNumber_size (pageSize st).

(** [String] of an integer: its decimal numeral (for an integer below
    [10^21] in size; the engine writes a larger one with an exponent). *)
Definition String_of_Z (z : Z) : string :=
  if z <? 0 then "-" ++ decimal_of_N (Z.to_N (- z)) else decimal_of_N (Z.to_N z).

(** The integer that [slice] makes of a text of decimal digits after an
    optional minus sign. *)
Definition integer_of_text (s : string) : Z :=
  match s with
  | String "-" r => - digits_value r 0
  | _ => digits_value s 0
  end.

(** [start + pageSize.value]: the sum when [pageSize] holds a number; when
    it holds a text, [+] concatenates the numeral of [start] and the text,
    and [slice] takes the number that the result spells. *)
Definition page_end (st : state) : Z :=
  let start := page_start st in
  match pageSize st with
  | size_number n => start + n
  | size_text n => integer_of_text (String_of_Z start ++ decimal_of_N n)
  end.

Definition paginatedDocuments (st : state) : list doc :=
  let start := page_start st in
  let finish := page_end st in
  slice (documents st) start finish.

(** [onPageChange], the handler of the pager's [update:page] event. *)
Definition onPageChange (page : Z) (st : state) : state :=
  set_currentPage page st.

(** The four buttons of the pager, rendered when [totalPages > 1]. *)
Definition PaginationFirst (st : state) : state := set_currentPage 1 st.
Definition PaginationPrev (st : state) : state :=
  set_currentPage (Z.max 1 (currentPage st - 1)) st.
Definition PaginationNext (st : state) : state :=
  set_currentPage (Z.min (totalPages st) (currentPage st + 1)) st.
Definition PaginationLast (st : state) : state := set_currentPage (totalPages st) st.

(** The rows-per-page selector, bound to [pageSize] by [v-model]: the
    text of the item chosen is stored.  The items are 5, 10, 20, 50 and
    100. *)
Definition select_pageSize (item : N) (st : state) : state :=
  set_pageSize (size_text item) st.

(** *** Column headers *)

(** A [Set] of strings, as the list of its members in insertion order. *)
Definition Set_has (s : list string) (x : string) : bool := existsb (String.eqb x) s.

Definition Set_add (s : list string) (x : string) : list string :=
  if Set_has s x then s else (s ++ [x])%list.

Definition tableHeaders (st : state) : list string :=
  let headers := Set_add [] "_id" in
  fold_left (fun headers doc => fold_left Set_add (Object_keys doc) headers)
            (documents st) headers.

(** *** Formatting *)

Definition formatValue (value : any) : string :=
  match value with
  | None | Some VNull => ""
  | Some v => if is_object (typeof value) then JSON_stringify v else ToString value
  end.

(** *** Inline editing *)

Definition handleCellClick (rowIndex : nat) (header : string) (value : any)
  (st : state) : state :=
  if String.eqb header "_id" then st
  else
    let st := set_editingCell (Some (rowIndex, header)) st in
    set_editValue
      match value with
      | Some v => if is_object (typeof value) then JSON_stringify_indent2 v
                  else ToString value
      | None => ToString value
      end st.

(** The [TypeError] of a property read on [undefined] or [null]; the
    wording of its message is the engine's own. *)
Definition type_error : thrown := Error "TypeError" "undefined is not an object".

(** The read [o.key] of a key that is neither ["length"] nor an array
    index: a [TypeError] on [undefined] and [null], [undefined] on the
    values without such a property. *)

Definition member (key : string) (o : any) : result any :=
  match o with
  | None | Some VNull => Throw type_error
  | Some (VObj props) => Ok (get_property key props)
  | Some _ => Ok None
  end.

(** [d._id.$oid], of a record or of [undefined]. *)
Definition oid (d : option doc) : result any :=
  match member "_id" (option_map VObj d) with
  | Ok id => member "$oid" id
  | Throw e => Throw e
  end.

(** [a === b]; two objects are equal when they are the same object, which
    [same] tells. *)
Definition strict_equal (same : bool) (a b : any) : bool :=
  match a, b with
  | None, None => true
  | Some VNull, Some VNull => true
  | Some (VBool x), Some (VBool y) => Bool.eqb x y
  | Some (VNum x), Some (VNum y) => number_equal x y
  | Some (VStr x), Some (VStr y) => String.eqb x y
  | Some (VArr _), Some (VArr _) => same
  | Some (VObj _), Some (VObj _) => same
  | _, _ => false
  end.

(** [documents.value.find(d => d._id.$oid === doc._id.$oid)], as the index
    of the record found.  [doc] is the element [j] of the array when it is
    defined, [ds] are the records from index [i] on.  The records of the
    array are distinct objects, so two identifiers that are objects are the
    same object exactly when [i = j]. *)
Fixpoint find_original (ds : list doc) (i : nat) (doc : option doc) (j : nat)
  : result (option nat) :=
  match ds with
  | [] => Ok None
  | d :: rest =>
      match oid (Some d) with
      | Ok a =>
          match oid doc with
          | Ok b =>
              if strict_equal (Nat.eqb i j) a b then Ok (Some i)
              else find_original rest (S i) doc j
          | Throw e => Throw e
          end
      | Throw e => Throw e
      end
  end.

(** The coercion of the edited text by the type of the stored value. *)
Definition coerce (text : string) (reference : any) : result value :=
  if is_number (typeof reference) then Ok (VNum (parseFloat text))
  else if is_object (typeof reference) then JSON_parse text
  else Ok (VStr text).

(** [paginatedDocuments.value[rowIndex]], and the index in [documents] of
    the record it is. *)
Definition row (st : state) (rowIndex : nat) : option doc :=
  paginatedDocuments st !! rowIndex.

Definition row_index (st : state) (rowIndex : nat) : nat :=
  (Z.to_nat (slice_bound (Z.of_nat (length (documents st))) (page_start st))
   + rowIndex)%nat.

Definition originalDoc (st : state) (rowIndex : nat) : result (option nat) :=
  find_original (documents st) 0 (row st rowIndex) (row_index st rowIndex).

(** [originalDoc[header]], for the record at index [i]. *)
Definition reference (st : state) (i : nat) (header : string) : any :=
  get_property header (default [] (documents st !! i)).

Definition saveEdit (h : host) : M unit :=
  let* st := get in
  match editingCell st with
  | None => ret tt
  | Some (rowIndex, header) =>
      if isSaving st then ret tt
      else
        do modify (set_isSaving true) then
        let doc := row st rowIndex in
        let* found := lift (originalDoc st rowIndex) in
        match found with
        | None => ret tt
        | Some i =>
            let original := default [] (documents st !! i) in
            try_finally
              (try_catch
                 (let* newValue :=
                    lift (coerce (editValue st) (reference st i header)) in
                  let update := [(header, newValue)] in
                  let* id := lift (oid doc) in
                  let* success :=
                    await (update_document (collectionName st) id update)
                          (on_update_document h (collectionName st) id update) in
                  do (if success : bool
                      then modify (set_documents
                                     (<[i := set_property header newValue original]>
                                        (documents st)))
                      else ret tt) then
                  modify (set_editingCell None))
                 (fun error =>
                    modify (set_errorMessage
                              ("Error updating field: " ++ ToString_thrown error))))
              (modify (set_isSaving false))
        end
  end.

(** *** Loading *)

Definition sentinel : string := "Database connection not initialized".

Definition fetchDocuments (h : host) : M unit :=
  do modify (set_isLoading true) then
  do modify (set_errorMessage "") then
  let* st := get in
  try_finally
    (try_catch
       (match JSON_parse (filterQuery st) with
        | Throw error =>
            modify (set_errorMessage ("Invalid filter JSON: " ++ ToString_thrown error))
        | Ok filter =>
            let* found :=
              await (find_documents (collectionName st) filter)
                    (on_find_documents h (collectionName st) filter) in
            do modify (set_documents found) then
            modify (set_currentPage 1)
        end)
       (fun error =>
          let message := message_of error in
          if includes message sentinel then emit (setTimeout FetchDocuments 1000)
          else
            do modify (set_errorMessage ("Error fetching documents: " ++ message)) then
            modify (set_documents [])))
    (modify (set_isLoading false)).

Definition fetchCollections (h : host) : M unit :=
  let* st := get in
  try_catch
    (let* names := await list_collections (on_list_collections h) in
     do modify (set_collectionsList names) then
     if (0 <? length names)%nat && negb (existsb (String.eqb (collectionName st)) names)
     then
       do modify (set_collectionName (default "" (names !! 0%nat))) then
       emit (watcher FetchDocuments)
     else ret tt)
    (fun error =>
       let message := message_of error in
       if includes message sentinel then emit (setTimeout FetchCollections 1000)
       else modify (set_errorMessage ("Error fetching collections: " ++ message))).

(** *** Deleting *)

Definition deleteDocument (h : host) (id : string) : M unit :=
  let question := "Are you sure you want to delete this document?" in
  do emit (confirm question) then
  if negb (on_confirm h question) then ret tt
  else
    let* st := get in
    try_catch
      (let* success :=
         await (delete_document (collectionName st) id)
               (on_delete_document h (collectionName st) id) in
       if success : bool then fetchDocuments h else ret tt)
      (fun error =>
         modify (set_errorMessage ("Error deleting document: " ++ ToString_thrown error))).

(** ** Notions of the specification *)

(** [p] is the ceiling of [n / s]. *)
Definition is_ceiling (n s p : Z) : Prop := (p - 1) * s < n <= p * s.


(** The field names of the records, in the order the records give them,
    after the identifier. *)
Definition all_keys (st : state) : list string :=
  "_id" :: concat (map Object_keys (documents st)).

(** The position at which a name is first seen. *)
Fixpoint first_position (x : string) (l : list string) : option nat :=
  match l with
  | [] => None
  | y :: r => if String.eqb y x then Some O else option_map S (first_position x r)
  end.

(** The names of a list, each kept where it is first seen. *)
Fixpoint first_seen (l : list string) : list string :=
  match l with
  | [] => []
  | x :: r => x :: filter (fun y => y <> x) (first_seen r)
  end.

(** [x] stands before [y] in the list [l]. *)
Definition before (x y : string) (l : list string) : Prop :=
  exists l1 l2, l = l1 ++ x :: l2 /\ y ∈ l2.

(** The text an edit session starts with. *)
Definition seed (rowIndex : nat) (header : string) (value : any) (st : state) : string :=
  editValue (handleCellClick rowIndex header value st).

(** ** Sample data *)

Definition thirty : number := Finite false "3" 2.

Definition identifier (token : string) : value := VObj [("$oid", VStr token)].

Definition bob : doc :=
  [("_id", identifier "a1"); ("name", VStr "Bob"); ("age", VNum thirty);
   ("tags", VArr [VStr "x"])].

Definition one_record : state := set_documents [bob] initial.

(** A host with fixed answers. *)
Definition answering (found : promise (list doc)) (names : promise (list string))
  (updated deleted : promise bool) (yes : bool) : host :=
  {| on_find_documents := fun _ _ => found;
     on_list_collections := names;
     on_update_document := fun _ _ _ => updated;
     on_delete_document := fun _ _ => deleted;
     on_confirm := fun _ => yes |}.

Definition not_ready : thrown := Thrown (VStr "Database connection not initialized").
Definition refused : thrown := Thrown (VStr "connection refused").

Definition agreeable : host :=
  answering (Resolve [bob]) (Resolve ["users"]) (Resolve true) (Resolve true) true.

Definition editing (header text : string) (st : state) : state :=
  set_editValue text (set_editingCell (Some (O, header)) st).

(** Eleven records: two pages of ten. *)
Definition two_pages : state := set_documents (replicate 11 bob) initial.

(** The two records of the scenario of the specification. *)
Definition users : state :=
  set_documents
    [[("_id", identifier "A"); ("name", VStr "Bob")];
     [("_id", identifier "B"); ("age", VNum (Finite false "5" 1))]]
    initial.

(** ** Further notions *)

(** The rows of page [p], and all the pages the pager offers. *)
Definition page (p : Z) (st : state) : list doc := paginatedDocuments (onPageChange p st).

Definition pages (st : state) : list (list doc) :=
  map (fun p => page p st) (seqZ 1 (totalPages st)).

(** Two records whose fields come in different orders. *)
Definition mixed : state :=
  set_documents
    [[("_id", identifier "A"); ("name", VStr "Bob")];
     [("_id", identifier "B"); ("zip", VStr "0150"); ("age", VNum thirty)]]
    initial.

(** A host that refuses every command and whose user declines. *)
Definition refusing : host :=
  answering (Reject refused) (Reject refused) (Reject refused) (Reject refused) false.

(** *** The events of the grid

    What can happen to the component: the handlers of its template, its
    exposed loaders (also run by a timer, by the watcher of the collection
    name and by the application), and the inputs bound by [v-model]. *)

Definition set_filterQuery (v : string) (st : state) : state :=
  {| collectionName := collectionName st; documents := documents st;
     isLoading := isLoading st; errorMessage := errorMessage st;
     pageSize := pageSize st; currentPage := currentPage st; filterQuery := v;
     editingCell := editingCell st; editValue := editValue st;
     isSaving := isSaving st; collectionsList := collectionsList st |}.

Inductive event : Type :=
| CellClick (rowIndex : nat) (header : string) (value : any)
| EditInput (text : string)
| Commit
| Delete (id : string)
| Refresh
| LoadCollections
| FilterInput (text : string)
| SelectCollection (name : string)
| SelectPageSize (item : N)
| PageChange (page : Z)
| First
| Prev
| Next
| Last.

Definition handle (h : host) (e : event) : M unit :=
  match e with
  | CellClick rowIndex header value => modify (handleCellClick rowIndex header value)
  | EditInput text => modify (set_editValue text)
  | Commit => saveEdit h
  | Delete id => deleteDocument h id
  | Refresh => fetchDocuments h
  | LoadCollections => fetchCollections h
  | FilterInput text => modify (set_filterQuery text)
  | SelectCollection name => modify (set_collectionName name)
  | SelectPageSize item => modify (select_pageSize item)
  | PageChange page => modify (onPageChange page)
  | First => modify PaginationFirst
  | Prev => modify PaginationPrev
  | Next => modify PaginationNext
  | Last => modify PaginationLast
  end.

(** A run of events, each with the answers the world gives during it.  An
    exception that a handler lets escape ends that handler only. *)
Fixpoint run (events : list (host * event)) (st : state) : state * list effect :=
  match events with
  | [] => (st, [])
  | (h, e) :: rest =>
      let '(_, st1, t1) := handle h e st in
      let '(st2, t2) := run rest st1 in
      (st2, t1 ++ t2)
  end.

Definition is_update (e : effect) : bool :=
  match e with
  | invoke (update_document _ _ _) => true
  | _ => false
  end.

Definition is_invoke (e : effect) : bool :=
  match e with
  | invoke _ => true
  | _ => false
  end.

(** The commands sent to the host among some effects. *)
Definition commands (t : list effect) : list effect := List.filter is_invoke t.

(** *** Well-formed values *)

Fixpoint all_digits (s : string) : bool :=
  match s with
  | EmptyString => true
  | String c r => is_digit c && all_digits r
  end.

(** A number in the form the readers produce: a non-empty digit string
    has no zero at either end, and zero is the positive zero at point 0. *)
Definition canonical (n : number) : bool :=
  match n with
  | NaN | Infinity _ => true
  | Finite neg EmptyString point => negb neg && (point =? 0)
  | Finite _ digits _ =>
      all_digits digits
      && String.eqb (strip_leading_zeros digits) digits
      && String.eqb (strip_trailing_zeros digits) digits
  end.

(** The text goes on as a number would: with a digit, a point or an
    exponent mark. *)
Definition continues (rest : string) : bool :=
  match rest with
  | String c _ =>
      is_digit c || (code c =? 46)%N || (code c =? 101)%N || (code c =? 69)%N
  | EmptyString => false
  end.

Definition head_digit (s : string) : bool :=
  match s with
  | String c _ => is_digit c
  | EmptyString => false
  end.

(** A decimal literal from its integer digits, its fraction digits and
    its exponent part. *)
Definition literal (int frac expo : string) : string :=
  (int ++ match frac with
          | EmptyString => EmptyString
          | _ => "." ++ frac
          end ++ expo)%string.

(** [expo] is an exponent part of value [e], or no exponent part. *)
Definition exponent_of (expo : string) (e : Z) : Prop :=
  (expo = EmptyString /\ e = 0)
  \/ exists m, (expo = ("e+" ++ decimal_of_N m)%string /\ e = Z.of_N m)
               \/ (expo = ("e-" ++ decimal_of_N m)%string /\ e = - Z.of_N m).

(** What [parseFloat] does after the sign: [Infinity], or the digits, the
    fraction and the exponent of a decimal literal. *)
Definition parse_unsigned (neg : bool) (unsigned : string) : number :=
  if String.prefix "Infinity" unsigned then Infinity neg
  else
    let (int, r1) := span_digits unsigned in
    let '(frac, r2) :=
      match r1 with
      | String "." r => span_digits r
      | _ => (EmptyString, r1)
      end in
    match int, frac with
    | EmptyString, EmptyString => NaN
    | _, _ =>
        let (exp, _) := read_exponent r2 in
        read_decimal neg int frac exp
    end.

(** What [read_number] does after the sign. *)
Definition read_unsigned (neg : bool) (s1 : string) : parse number :=
  let '(int, s2) :=
    match s1 with
    | String "0" r => ("0"%string, r)
    | _ => span_digits s1
    end in
  match int with
  | EmptyString => Malformed
  | _ =>
      let fraction :=
        match s2 with
        | String "." r =>
            let (f, r') := span_digits r in
            match f with
            | EmptyString => None
            | _ => Some (f, r')
            end
        | _ => Some (EmptyString, s2)
        end in
      match fraction with
      | None => Malformed
      | Some (frac, s3) =>
          match s3 with
          | String c _ =>
              if (code c =? 101)%N || (code c =? 69)%N then
                let (exp, s4) := read_exponent s3 in
                if (String.length s4 <? String.length s3)%nat
                then Parsed (read_decimal neg int frac exp) s4
                else Malformed
              else Parsed (read_decimal neg int frac 0) s3
          | EmptyString => Parsed (read_decimal neg int frac 0) s3
          end
      end
  end.

(** [key] can be added after the keys [seen] and stay last in the
    enumeration order: it is new, and when it is an array index the keys
    seen are smaller array indices. *)
Definition appends (key : string) (seen : list string) : bool :=
  negb (existsb (String.eqb key) seen)
  && match array_index key with
     | Some n =>
         forallb (fun k => match array_index k with
                           | Some m => m <? n
                           | None => false
                           end) seen
     | None => true
     end.

(** The keys are in the enumeration order of an object. *)
Fixpoint enumerable_from (seen keys : list string) : bool :=
  match keys with
  | [] => true
  | k :: rest => appends k seen && enumerable_from (seen ++ [k]) rest
  end.

(** The values that JSON text can denote: finite canonical numbers,
    objects with their keys in enumeration order. *)
Fixpoint well_formed (v : value) : bool :=
  match v with
  | VNull | VBool _ | VStr _ => true
  | VNum (Finite _ _ _ as n) => canonical n
  | VNum _ => false
  | VArr l => forallb well_formed l
  | VObj props =>
      enumerable_from [] (map fst props)
      && forallb (fun kv => well_formed (snd kv)) props
  end.

(** The brackets of [SerializeJSONProperty] around the texts of the
    elements or members. *)
Definition wrap (gap stepback : string) (opening closing : string)
  (partial : list string) : string :=
  let indent := (stepback ++ gap)%string in
  match partial with
  | [] => (opening ++ closing)%string
  | _ =>
      match gap with
      | EmptyString => (opening ++ join "," partial ++ closing)%string
      | _ =>
          let separator := ("," ++ line_feed ++ indent)%string in
          (opening ++ line_feed ++ indent ++ join separator partial
                   ++ line_feed ++ stepback ++ closing)%string
      end
  end.

Definition member_text (gap indent : string) (kv : string * value) : string :=
  (QuoteJSONString (fst kv) ++ ":"
     ++ match gap with EmptyString => "" | _ => " " end
     ++ SerializeJSONProperty gap indent (snd kv))%string.

(** The fuel that reading a value back takes. *)
Fixpoint need (v : value) : nat :=
  match v with
  | VArr l => S (list_sum (map (fun e => S (need e)) l))
  | VObj props => S (list_sum (map (fun kv => S (need (snd kv))) props))
  | _ => 1
  end.

Fixpoint spaces (s : string) : bool :=
  match s with
  | EmptyString => true
  | String c r => (code c =? 32)%N && spaces r
  end.

(** White space of JSON text. *)
Definition blank_char (c : ascii) : bool :=
  ((code c =? 32) || (code c =? 9) || (code c =? 10) || (code c =? 13))%N.

Fixpoint blank (s : string) : bool :=
  match s with
  | EmptyString => true
  | String c r => blank_char c && blank r
  end.

(** The text starts as the text of a value does: not with white space and
    not with a closing bracket. *)
Definition starts_value (s : string) : bool :=
  match s with
  | String c _ => negb (blank_char c) && negb (code c =? 93)%N && negb (code c =? 125)%N
  | EmptyString => false
  end.

(** The text starts with white space, a comma or a closing bracket, or is
    empty: what follows a value in JSON text. *)
Definition follows_value (s : string) : bool :=
  match s with
  | String c _ =>
      blank_char c || (code c =? 44)%N || (code c =? 93)%N || (code c =? 125)%N
  | EmptyString => true
  end.

(** The text of [v] under the gap [gap], at any indentation and before any
    text that can follow a value, reads back as [v]. *)
Definition reads_back (gap : string) (v : value) : Prop :=
  forall (indent rest : string) (fuel : nat),
    spaces indent = true -> follows_value rest = true -> (need v <= fuel)%nat ->
    parse_value fuel (SerializeJSONProperty gap indent v ++ rest)%string = Parsed v rest.

(** The values a cell can hold in the form the readers give back: a
    canonical number ([NaN] and the infinities included), or a well-formed
    value of another type. *)
Definition stored_form (v : value) : bool :=
  match v with
  | VNum n => canonical n
  | _ => well_formed v
  end.

(** ** The operations panel

    [MongoDBOperations.vue]: a collection name, a document identifier and
    two JSON texts, with one handler for each of the insert, update and
    delete commands.  After a command that succeeded the panel emits the
    [documentAction] event. *)

Module Operations.
#[local] Set Warnings "-notation-overridden".

Record state : Type := {
  collectionName : string;
  documentId : string;
  documentData : string;
  updateData : string;
  resultMessage : string;
  isLoading : bool;
  isError : bool
}.

Definition set_documentId (v : string) (st : state) : state :=
  {| collectionName := collectionName st; documentId := v;
     documentData := documentData st; updateData := updateData st;
     resultMessage := resultMessage st; isLoading := isLoading st;
     isError := isError st |}.

Definition set_resultMessage (v : string) (st : state) : state :=
  {| collectionName := collectionName st; documentId := documentId st;
     documentData := documentData st; updateData := updateData st;
     resultMessage := v; isLoading := isLoading st; isError := isError st |}.

Definition set_isLoading (v : bool) (st : state) : state :=
  {| collectionName := collectionName st; documentId := documentId st;
     documentData := documentData st; updateData := updateData st;
     resultMessage := resultMessage st; isLoading := v; isError := isError st |}.

Definition set_isError (v : bool) (st : state) : state :=
  {| collectionName := collectionName st; documentId := documentId st;
     documentData := documentData st; updateData := updateData st;
     resultMessage := resultMessage st; isLoading := isLoading st; isError := v |}.

Definition quoted (s : string) : string := (double_quote ++ s ++ double_quote)%string.

Definition initial : state :=
  {| collectionName := "users";
     documentId := "";
     documentData :=
       ("{" ++ line_feed
        ++ "  " ++ quoted "name" ++ ": " ++ quoted "John Doe" ++ "," ++ line_feed
        ++ "  " ++ quoted "email" ++ ": " ++ quoted "john@example.com" ++ "," ++ line_feed
        ++ "  " ++ quoted "age" ++ ": 30" ++ line_feed
        ++ "}")%string;
     updateData :=
       ("{" ++ line_feed
        ++ "  " ++ quoted "name" ++ ": " ++ quoted "Updated Name" ++ line_feed
        ++ "}")%string;
     resultMessage := "";
     isLoading := false;
     isError := false |}.

Inductive command : Type :=
| insert_document (collection : string) (document : value)
| update_document (collection id : string) (update : value)
| delete_document (collection id : string).

(** What a handler does to the world: a call of the host, and the
    [documentAction] event with its [type] and [collectionName]. *)
Inductive effect : Type :=
| invoke (c : command)
| emits (type collection : string).

Record host : Type := {
  on_insert_document : string -> value -> promise string;
  on_update_document : string -> string -> value -> promise bool;
  on_delete_document : string -> string -> promise bool
}.

Definition M (A : Type) : Type := state -> result A * state * list effect.

Definition ret {A : Type} (a : A) : M A := fun st => (Ok a, st, []).

Definition bind {A B : Type} (m : M A) (k : A -> M B) : M B :=
  fun st =>
    match m st with
    | (Ok a, st1, t1) => let '(r, st2, t2) := k a st1 in (r, st2, (t1 ++ t2)%list)
    | (Throw e, st1, t1) => (Throw e, st1, t1)
    end.

Notation "'let*' x := m 'in' k" := (bind m (fun x => k))
  (at level 10, x name, m at level 100, k at level 200).
Notation "'do' m 'then' k" := (bind m (fun _ => k))
  (at level 10, m at level 100, k at level 200).

Definition get : M state := fun st => (Ok st, st, []).
Definition modify (f : state -> state) : M unit := fun st => (Ok tt, f st, []).
Definition emit (e : effect) : M unit := fun st => (Ok tt, st, [e]).
Definition throw {A : Type} (e : thrown) : M A := fun st => (Throw e, st, []).

Definition lift {A : Type} (r : result A) : M A :=
  match r with
  | Ok a => ret a
  | Throw e => throw e
  end.

Definition try_catch {A : Type} (body : M A) (handler : thrown -> M A) : M A :=
  fun st =>
    match body st with
    | (Ok a, st1, t1) => (Ok a, st1, t1)
    | (Throw e, st1, t1) => let '(r, st2, t2) := handler e st1 in (r, st2, (t1 ++ t2)%list)
    end.

Definition try_finally {A : Type} (body : M A) (final : M unit) : M A :=
  fun st =>
    let '(r, st1, t1) := body st in
    match final st1 with
    | (Ok _, st2, t2) => (r, st2, (t1 ++ t2)%list)
    | (Throw e, st2, t2) => (Throw e, st2, (t1 ++ t2)%list)
    end.

Definition await {A : Type} (c : command) (p : promise A) : M A :=
  do emit (invoke c) then
  match p with
  | Resolve a => ret a
  | Reject e => throw e
  end.

Definition after {A : Type} (m : M A) (st : state) : state := snd (fst (m st)).
Definition effects {A : Type} (m : M A) (st : state) : list effect := snd (m st).
Definition completion {A : Type} (m : M A) (st : state) : result A := fst (fst (m st)).

(** [parseJsonSafely]: the parsed value, or the default with the error
    flag and its message set. *)
Definition parseJsonSafely (jsonStr : string) (defaultValue : value) : M value :=
  try_catch
    (lift (JSON_parse jsonStr))
    (fun error =>
       do modify (set_isError true) then
       do modify (set_resultMessage ("Invalid JSON: " ++ ToString_thrown error)) then
       ret defaultValue).

Definition insertDocument (h : host) : M unit :=
  do modify (set_isLoading true) then
  do modify (set_isError false) then
  do modify (set_resultMessage "") then
  try_finally
    (try_catch
       (let* st := get in
        let* docData := parseJsonSafely (documentData st) (VObj []) in
        let* st := get in
        if isError st then ret tt
        else
          let* id :=
            await (insert_document (collectionName st) docData)
                  (on_insert_document h (collectionName st) docData) in
          do modify (set_resultMessage ("Document inserted with ID: " ++ id)) then
          do modify (set_documentId id) then
          let* st := get in
          emit (emits "insert" (collectionName st)))
       (fun error =>
          do modify (set_isError true) then
          modify (set_resultMessage
                    ("Error inserting document: " ++ ToString_thrown error))))
    (modify (set_isLoading false)).

Definition updateDocument (h : host) : M unit :=
  let* st := get in
  if String.eqb (documentId st) "" then
    do modify (set_isError true) then
    modify (set_resultMessage "Document ID is required for update")
  else
    do modify (set_isLoading true) then
    do modify (set_isError false) then
    do modify (set_resultMessage "") then
    try_finally
      (try_catch
         (let* st := get in
          let* updateDoc := parseJsonSafely (updateData st) (VObj []) in
          let* st := get in
          if isError st then ret tt
          else
            let* success :=
              await (update_document (collectionName st) (documentId st) updateDoc)
                    (on_update_document h (collectionName st) (documentId st)
                                        updateDoc) in
            if success : bool then
              do modify (set_resultMessage "Document updated successfully") then
              let* st := get in
              emit (emits "update" (collectionName st))
            else
              modify (set_resultMessage "No document was updated (ID might not exist)"))
         (fun error =>
            do modify (set_isError true) then
            modify (set_resultMessage
                      ("Error updating document: " ++ ToString_thrown error))))
      (modify (set_isLoading false)).

Definition deleteDocument (h : host) : M unit :=
  let* st := get in
  if String.eqb (documentId st) "" then
    do modify (set_isError true) then
    modify (set_resultMessage "Document ID is required for deletion")
  else
    do modify (set_isLoading true) then
    do modify (set_isError false) then
    do modify (set_resultMessage "") then
    try_finally
      (try_catch
         (let* st := get in
          let* success :=
            await (delete_document (collectionName st) (documentId st))
                  (on_delete_document h (collectionName st) (documentId st)) in
          if success : bool then
            do modify (set_resultMessage "Document deleted successfully") then
            do modify (set_documentId "") then
            let* st := get in
            emit (emits "delete" (collectionName st))
          else
            modify (set_resultMessage "No document was deleted (ID might not exist)"))
         (fun error =>
            do modify (set_isError true) then
            modify (set_resultMessage
                      ("Error deleting document: " ++ ToString_thrown error))))
      (modify (set_isLoading false)).

(** The three buttons of the panel. *)
Inductive button : Type := Insert | Update | Delete.

Definition click (h : host) (b : button) : M unit :=
  match b with
  | Insert => insertDocument h
  | Update => updateDocument h
  | Delete => deleteDocument h
  end.

Definition is_invoke (e : effect) : bool :=
  match e with invoke _ => true | emits _ _ => false end.

Definition is_emits (e : effect) : bool :=
  match e with emits _ _ => true | invoke _ => false end.

(** The JSON text that a button sends, if it sends one. *)
Definition payload (b : button) (st : state) : option string :=
  match b with
  | Insert => Some (documentData st)
  | Update => Some (updateData st)
  | Delete => None
  end.

(** The button passes the test of the document identifier: [Update] and
    [Delete] need one. *)
Definition ready (b : button) (st : state) : bool :=
  match b with
  | Insert => true
  | Update | Delete => negb (String.eqb (documentId st) "")
  end.

(** The [type] of the event of each button. *)
Definition type_of (b : button) : string :=
  match b with
  | Insert => "insert"
  | Update => "update"
  | Delete => "delete"
  end.

(** A host that accepts every command, and gives [id] to an inserted
    document. *)
Definition accepting (id : string) : host :=
  {| on_insert_document := fun _ _ => Resolve id;
     on_update_document := fun _ _ _ => Resolve true;
     on_delete_document := fun _ _ => Resolve true |}.

(** A host that finds no document to update or to delete. *)
Definition missing : host :=
  {| on_insert_document := fun _ _ => Reject (Thrown (VStr "no connection"));
     on_update_document := fun _ _ _ => Resolve false;
     on_delete_document := fun _ _ => Resolve false |}.

End Operations.

(** ** The fuel of [JSON.parse] *)

Section fuel.
Local Open Scope nat_scope.
Abbreviation len := String.length.

Lemma skip_ws_length s : len (skip_ws s) <= len s.
Proof.
  induction s as [|c r IH]; simpl; [lia|].
  destruct (_ || _)%bool; simpl; lia.
Qed.

Lemma span_digits_length s d r : span_digits s = (d, r) -> len s = len d + len r.
Proof.
  revert d r. induction s as [|c s IH]; intros d r Hspan; simpl in Hspan.
  - by injection Hspan as <- <-.
  - destruct (is_digit c).
    + destruct (span_digits s) as [d' r'] eqn:E. injection Hspan as <- <-.
      simpl. rewrite (IH d' r' eq_refl). lia.
    + injection Hspan as <- <-. simpl. lia.
Qed.

Lemma strip_prefix_length p : forall s r,
  strip_prefix p s = Some r -> len s = len p + len r.
Proof.
  induction p as [|a p IH]; intros s r Hstrip; simpl in Hstrip.
  - by injection Hstrip as <-.
  - destruct s as [|b s]; [done|]. destruct (Ascii.eqb a b); [|done].
    simpl. by rewrite (IH s r).
Qed.

Lemma parse_map_parsed {A B} (f : A -> B) (p : parse A) b r :
  parse_map f p = Parsed b r -> exists a, p = Parsed a r /\ b = f a.
Proof. destruct p; simpl; intros H; try done. injection H as <- <-. by eexists. Qed.

Lemma parse_map_fuel {A B} (f : A -> B) (p : parse A) :
  parse_map f p = OutOfFuel -> p = OutOfFuel.
Proof. by destruct p. Qed.

Lemma read_string_length_below n : forall s t r,
  len s <= n -> read_string s = Parsed t r -> len r < len s.
Proof.
  induction n as [|n IH]; intros s t r Hn Hread;
    (destruct s as [|c s]; simpl in Hread; [done|]); simpl in Hn; [lia|].
  repeat match type of Hread with
  | (if ?b then _ else _) = _ => destruct b
  | match ?x with _ => _ end = _ =>
      match type of x with
      | string => destruct x
      | option _ => destruct x
      end
  | parse_map _ (read_string ?s') = _ =>
      apply parse_map_parsed in Hread as (? & Hread & _);
      apply IH in Hread; simpl in *; lia
  | _ => progress simpl in Hread
  end; try done; try (injection Hread as <- <-; simpl; lia).
Qed.

Lemma read_string_length s t r : read_string s = Parsed t r -> len r < len s.
Proof. by apply read_string_length_below with (len s). Qed.

Lemma read_exponent_length s e r : read_exponent s = (e, r) -> len r <= len s.
Proof.
  unfold read_exponent. destruct s as [|c s]; [intros H; injection H as <- <-; lia|].
  destruct (_ || _)%bool; [|intros H; injection H as <- <-; lia].
  destruct (match s with
            | String "-" r' => (true, r')
            | String "+" r' => (false, r')
            | _ => (false, s)
            end) as [neg r1] eqn:Hsign.
  assert (Hr1 : len r1 <= len s).
  { destruct s as [|[[] [] [] [] [] [] [] []] s']; injection Hsign as <- <-; simpl; lia. }
  destruct (span_digits r1) as [d r2] eqn:Hspan.
  apply span_digits_length in Hspan.
  destruct d; intros H; injection H as <- <-; simpl in *; lia.
Qed.

Lemma read_number_length s n r : read_number s = Parsed n r -> len r < len s.
Proof.
  unfold read_number.
  destruct (match s with String "-" r => (true, r) | _ => (false, s) end)
    as [neg s1] eqn:Hsign.
  assert (Hs1 : len s1 <= len s).
  { destruct s as [|[[] [] [] [] [] [] [] []] s']; injection Hsign as <- <-; simpl; lia. }
  destruct (match s1 with String "0" r => ("0"%string, r) | _ => span_digits s1 end)
    as [int s2] eqn:Hint.
  assert (Hs2 : len s1 = len int + len s2).
  { destruct s1 as [|[[] [] [] [] [] [] [] []] s'];
      try (by apply span_digits_length); injection Hint as <- <-; simpl; lia. }
  destruct int as [|i0 int]; [done|]. simpl in Hs2.
  destruct (match s2 with
            | String "." r =>
                let (f, r') := span_digits r in
                match f with
                | EmptyString => None
                | _ => Some (f, r')
                end
            | _ => Some (EmptyString, s2)
            end) as [[frac s3]|] eqn:Hfrac; [|done].
  assert (Hs3 : len s3 <= len s2).
  { destruct s2 as [|[[] [] [] [] [] [] [] []] s']; try (injection Hfrac as <- <-; simpl; lia).
    destruct (span_digits s') as [f r'] eqn:Hspan. apply span_digits_length in Hspan.
    destruct f; [done|]. injection Hfrac as <- <-. simpl in *. lia. }
  destruct s3 as [|c s3']; [intros H; injection H as <- <-; simpl in *; lia|].
  destruct (_ || _)%bool; [|intros H; injection H as <- <-; simpl in *; lia].
  destruct (read_exponent (String c s3')) as [e s4] eqn:Hexp.
  apply read_exponent_length in Hexp.
  destruct (len s4 <? len (String c s3')) eqn:Hlt; [|done].
  intros H; injection H as <- <-. simpl in *. lia.
Qed.

Ltac break_parse H :=
  repeat match type of H with
  | (if ?b then _ else _) = _ => destruct b eqn:?
  | match ?x with _ => _ end = _ => destruct x eqn:?
  | parse_map _ _ = Parsed _ _ => apply parse_map_parsed in H as (? & H & _)
  end.

Ltac measure :=
  repeat match goal with
  | E : skip_ws ?x = _ |- _ => pose proof (skip_ws_length x); rewrite E in *; clear E
  | E : read_string _ = Parsed _ _ |- _ => apply read_string_length in E
  | E : read_number _ = Parsed _ _ |- _ => apply read_number_length in E
  | E : strip_prefix _ _ = Some _ |- _ => apply strip_prefix_length in E
  end.

Lemma parse_length fuel :
  (forall s v r, parse_value fuel s = Parsed v r -> len r < len s)
  /\ (forall s acc v r, parse_elements fuel s acc = Parsed v r -> len r < len s)
  /\ (forall s acc v r, parse_members fuel s acc = Parsed v r -> len r < len s).
Proof.
  induction fuel as [|fuel (IHv & IHe & IHm)]; [by split_and!|].
  split_and!.
  - intros s v r Hp. cbn [parse_value] in Hp. break_parse Hp; try done;
      try (injection Hp as <- <-);
      try (apply IHe in Hp); try (apply IHm in Hp);
      measure; cbn [String.length] in *; lia.
  - intros s acc v r Hp. cbn [parse_elements] in Hp. break_parse Hp; try done;
      try (injection Hp as <- <-); try (apply IHe in Hp);
      repeat match goal with
      | E : parse_value fuel _ = Parsed _ _ |- _ => apply IHv in E
      end; measure; cbn [String.length] in *; lia.
  - intros s acc v r Hp. cbn [parse_members] in Hp. break_parse Hp; try done;
      try (injection Hp as <- <-); try (apply IHm in Hp);
      repeat match goal with
      | E : parse_value fuel _ = Parsed _ _ |- _ => apply IHv in E
      end; measure; cbn [String.length] in *; lia.
Qed.

Lemma read_string_fuel_below n : forall s, len s <= n -> read_string s <> OutOfFuel.
Proof.
  induction n as [|n IH]; intros s Hn Hread;
    (destruct s as [|c s]; simpl in Hread; [done|]); simpl in Hn; [lia|].
  repeat match type of Hread with
  | (if ?b then _ else _) = _ => destruct b
  | match ?x with _ => _ end = _ =>
      match type of x with
      | string => destruct x
      | option _ => destruct x
      end
  | parse_map _ (read_string ?s') = _ =>
      apply parse_map_fuel in Hread; apply IH in Hread; [done | simpl in *; lia]
  | _ => progress simpl in Hread
  end; done.
Qed.

Lemma read_string_fuel s : read_string s <> OutOfFuel.
Proof. by apply read_string_fuel_below with (len s). Qed.

Lemma read_number_fuel s : read_number s <> OutOfFuel.
Proof.
  unfold read_number. intros Hread.
  repeat match type of Hread with
  | (if ?b then _ else _) = _ => destruct b
  | match ?x with _ => _ end = _ => destruct x
  | (let (_, _) := ?x in _) = _ => destruct x
  end; done.
Qed.

Ltac break_fuel H :=
  repeat match type of H with
  | (if ?b then _ else _) = _ => destruct b eqn:?
  | match ?x with _ => _ end = _ => destruct x eqn:?
  | parse_map _ _ = OutOfFuel => apply parse_map_fuel in H
  end.

(** Two units of fuel for each byte of the text are enough. *)
Lemma parse_fuel fuel :
  (forall s, 2 * len s + 1 <= fuel -> parse_value fuel s <> OutOfFuel)
  /\ (forall s acc, 2 * len s + 2 <= fuel -> parse_elements fuel s acc <> OutOfFuel)
  /\ (forall s acc, 2 * len s + 2 <= fuel -> parse_members fuel s acc <> OutOfFuel).
Proof.
  induction fuel as [|fuel (IHv & IHe & IHm)]; [split_and!; intros; lia|].
  destruct (parse_length fuel) as (Lv & _ & _).
  split_and!.
  - intros s Hfuel Hp. cbn [parse_value] in Hp. break_fuel Hp; try done;
      first [ by apply read_string_fuel in Hp
            | by apply read_number_fuel in Hp
            | apply IHm in Hp; [done|]
            | apply IHe in Hp; [done|] ];
      measure; cbn [String.length] in *; lia.
  - intros s acc Hfuel Hp. cbn [parse_elements] in Hp. break_fuel Hp; try done;
      first [ apply IHe in Hp; [done|]
            | match goal with
              | E : parse_value fuel _ = OutOfFuel |- _ => apply IHv in E; [done|]
              end ];
      repeat match goal with
      | E : parse_value fuel _ = Parsed _ _ |- _ => apply Lv in E
      end; measure; cbn [String.length] in *; lia.
  - intros s acc Hfuel Hp. cbn [parse_members] in Hp. break_fuel Hp; try done;
      first [ match goal with
              | E : read_string _ = OutOfFuel |- _ => by apply read_string_fuel in E
              end
            | apply IHm in Hp; [done|]
            | match goal with
              | E : parse_value fuel _ = OutOfFuel |- _ => apply IHv in E; [done|]
              end ];
      repeat match goal with
      | E : parse_value fuel _ = Parsed _ _ |- _ => apply Lv in E
      end; measure; cbn [String.length] in *; lia.
Qed.
End fuel.

(** [JSON_parse] never runs out of fuel. *)
Lemma parse_value_fuel (text : string) :
  parse_value (2 * String.length text + 1) text <> OutOfFuel.
Proof. by apply parse_fuel. Qed.

Section more_fuel.
Local Open Scope nat_scope.

(** More fuel does not change a result. *)
Lemma parse_more_fuel fuel extra :
  (forall s, parse_value fuel s <> OutOfFuel ->
             parse_value (fuel + extra) s = parse_value fuel s)
  /\ (forall s acc, parse_elements fuel s acc <> OutOfFuel ->
                    parse_elements (fuel + extra) s acc = parse_elements fuel s acc)
  /\ (forall s acc, parse_members fuel s acc <> OutOfFuel ->
                    parse_members (fuel + extra) s acc = parse_members fuel s acc).
Proof.
  induction fuel as [|fuel (IHv & IHe & IHm)]; [by split_and!|].
  split_and!.
  - intros s Hp. cbn [parse_value Nat.add] in *.
    repeat match goal with
    | |- context [match ?x with _ => _ end] =>
        lazymatch x with
        | context [fuel + extra] => fail
        | _ => destruct x eqn:?
        end
    end; try done; auto.
  - intros s acc Hp. cbn [parse_elements Nat.add] in *.
    destruct (parse_value fuel s) as [v r| |] eqn:E; [|by rewrite IHv, E by (by rewrite E)|done].
    rewrite IHv, E by (by rewrite E).
    repeat match goal with
    | |- context [match ?x with _ => _ end] =>
        lazymatch x with
        | context [fuel + extra] => fail
        | _ => destruct x eqn:?
        end
    end; try done; auto.
  - intros s acc Hp. cbn [parse_members Nat.add] in *.
    repeat match goal with
    | |- context [match parse_value (fuel + extra) ?x with _ => _ end] =>
        destruct (parse_value fuel x) as [v r| |] eqn:E;
        [rewrite IHv, E by (by rewrite E)
        | by rewrite IHv, E by (by rewrite E)
        | done]
    | |- context [match ?x with _ => _ end] =>
        lazymatch x with
        | context [fuel + extra] => fail
        | _ => destruct x eqn:?
        end
    end; try done; auto.
Qed.
End more_fuel.

(** The value [JSON_parse] reads is the one every larger amount of fuel
    gives. *)
Lemma parse_value_any_fuel (text : string) (extra : nat) :
  parse_value (2 * String.length text + 1 + extra) text
  = parse_value (2 * String.length text + 1) text.
Proof. apply parse_more_fuel, parse_value_fuel. Qed.

(** ** White space before a number *)

Lemma strip_white_space_char_length (s r : string) :
  strip_white_space_char s = Some r -> (String.length r < String.length s)%nat.
Proof.
  unfold strip_white_space_char. intros H.
  repeat match type of H with
  | (if ?b then _ else _) = _ => destruct b
  | match ?x with _ => _ end = _ => destruct x
  end; try done; injection H as <-; simpl; lia.
Qed.

(** [trim_start] leaves no white space at the head of the text. *)
Lemma trim_start_fuel_done (fuel : nat) : forall s,
  (String.length s <= fuel)%nat ->
  strip_white_space_char (trim_start_fuel fuel s) = None.
Proof.
  induction fuel as [|fuel IH]; intros s Hfuel; cbn [trim_start_fuel].
  - destruct s; [done | simpl in Hfuel; lia].
  - destruct (strip_white_space_char s) as [r|] eqn:E; [|done].
    apply IH. apply strip_white_space_char_length in E. lia.
Qed.

Lemma trim_start_done (s : string) : strip_white_space_char (trim_start s) = None.
Proof. by apply trim_start_fuel_done. Qed.

(** ** The column headers *)

Section schema.
Implicit Types (l acc : list string) (x y : string).

Lemma filter_all (P : string -> Prop) `{!forall x, Decision (P x)} l :
  (forall x, x ∈ l -> P x) -> filter P l = l.
Proof.
  induction l as [|a l IH]; intros HP; [done|].
  rewrite filter_cons_True by (apply HP; left).
  f_equal. apply IH. intros x Hx. apply HP. by right.
Qed.

Lemma filter_none (P : string -> Prop) `{!forall x, Decision (P x)} l :
  (forall x, x ∈ l -> ~ P x) -> filter P l = [].
Proof.
  induction l as [|a l IH]; intros HP; [done|].
  rewrite filter_cons_False by (apply HP; left).
  apply IH. intros x Hx. apply HP. by right.
Qed.

Lemma Set_has_elem_of acc x : Set_has acc x = true <-> x ∈ acc.
Proof.
  unfold Set_has. rewrite existsb_exists, list_elem_of_In. split.
  - intros (y & Hy & Heq). apply String.eqb_eq in Heq. by subst.
  - intros Hx. exists x. split; [done | apply String.eqb_refl].
Qed.

Lemma Set_add_elem acc x : x ∈ acc -> Set_add acc x = acc.
Proof. intros Hx. unfold Set_add. apply Set_has_elem_of in Hx. by rewrite Hx. Qed.

Lemma Set_add_fresh acc x : x ∉ acc -> Set_add acc x = acc ++ [x].
Proof.
  intros Hx. unfold Set_add. destruct (Set_has acc x) eqn:E; [|done].
  by apply Set_has_elem_of in E.
Qed.

(** Adding names one by one keeps each where it is first seen. *)
Lemma fold_Set_add l : forall acc,
  fold_left Set_add l acc = acc ++ filter (fun y => y ∉ acc) (first_seen l).
Proof.
  induction l as [|x l IH]; intros acc; simpl.
  - by rewrite app_nil_r.
  - rewrite IH. destruct (decide (x ∈ acc)) as [Hx|Hx].
    + rewrite Set_add_elem by done. f_equal.
      rewrite filter_cons_False by tauto.
      symmetry. apply list_filter_filter_l. intros y Hy ->. tauto.
    + rewrite Set_add_fresh by done. rewrite <- app_assoc. f_equal.
      rewrite filter_cons_True by done. simpl. f_equal.
      rewrite list_filter_filter. apply list_filter_iff.
      intros y. rewrite elem_of_app, list_elem_of_singleton. tauto.
Qed.

Lemma fold_keys (docs : list doc) : forall acc,
  fold_left (fun headers d => fold_left Set_add (Object_keys d) headers) docs acc
  = fold_left Set_add (concat (map Object_keys docs)) acc.
Proof.
  induction docs as [|d docs IH]; intros acc; simpl; [done|].
  by rewrite IH, fold_left_app.
Qed.

Lemma elem_of_first_seen l x : x ∈ first_seen l <-> x ∈ l.
Proof.
  induction l as [|a l IH]; simpl; [done|].
  rewrite !elem_of_cons, list_elem_of_filter, IH.
  destruct (decide (x = a)); tauto.
Qed.

Lemma NoDup_first_seen l : NoDup (first_seen l).
Proof.
  induction l as [|a l IH]; simpl; [constructor|].
  constructor; [|by apply NoDup_filter].
  rewrite list_elem_of_filter. tauto.
Qed.

Lemma first_seen_app l1 : forall l2,
  first_seen (l1 ++ l2) = first_seen l1 ++ filter (fun y => y ∉ l1) (first_seen l2).
Proof.
  induction l1 as [|a l1 IH]; intros l2; simpl.
  - symmetry. apply filter_all. intros y _. apply not_elem_of_nil.
  - f_equal. rewrite IH, filter_app. f_equal.
    rewrite list_filter_filter. apply list_filter_iff.
    intros y. rewrite elem_of_cons. tauto.
Qed.

Lemma first_seen_twice l1 l2 :
  (forall y, y ∈ l2 -> y ∈ l1) -> first_seen (l1 ++ l2) = first_seen l1.
Proof.
  intros Hsub. rewrite first_seen_app, filter_none.
  - apply app_nil_r.
  - intros y Hy Hn. apply Hn, Hsub. by apply elem_of_first_seen.
Qed.

Lemma tableHeaders_first_seen st : tableHeaders st = first_seen (all_keys st).
Proof.
  unfold tableHeaders, all_keys. rewrite fold_keys.
  change (Set_add [] "_id") with (fold_left Set_add ["_id"] []).
  rewrite <- fold_left_app, fold_Set_add. simpl.
  f_equal. rewrite filter_all; [done|]. intros y _. apply not_elem_of_nil.
Qed.

Lemma first_position_elem l x : x ∈ l -> exists p, first_position x l = Some p.
Proof.
  induction l as [|a l IH]; intros Hx; [by apply elem_of_nil in Hx|].
  simpl. destruct (String.eqb a x) eqn:E; [by eexists|].
  apply elem_of_cons in Hx as [->|Hx]; [by rewrite String.eqb_refl in E|].
  destruct (IH Hx) as [p ->]. by eexists.
Qed.

Lemma filter_split (P : string -> Prop) `{!forall x, Decision (P x)} l : forall l1 x l2,
  filter P l = l1 ++ x :: l2 ->
  exists m1 m2, l = m1 ++ x :: m2 /\ l2 = filter P m2.
Proof.
  induction l as [|a l IH]; intros l1 x l2 Heq; [by destruct l1|].
  rewrite filter_cons in Heq. destruct (decide (P a)) as [Ha|Ha].
  - destruct l1 as [|b l1]; simpl in Heq; injection Heq as Hhead Heq.
    + exists [], l. by subst.
    + destruct (IH _ _ _ Heq) as (m1 & m2 & -> & ->). by exists (a :: m1), m2.
  - destruct (IH _ _ _ Heq) as (m1 & m2 & -> & ->). by exists (a :: m1), m2.
Qed.

(** A name that stands before another in the headers was seen first. *)
Lemma first_seen_order l : forall l1 x l2 y,
  first_seen l = l1 ++ x :: l2 -> y ∈ l2 ->
  exists p q, first_position x l = Some p /\ first_position y l = Some q /\ (p < q)%nat.
Proof.
  induction l as [|a l IH]; intros l1 x l2 y Heq Hy; [by destruct l1|].
  simpl in Heq. destruct l1 as [|b l1]; simpl in Heq; injection Heq as Hhead Heq;
    subst a.
  - subst l2. apply list_elem_of_filter in Hy as [Hne Hy].
    apply (proj1 (elem_of_first_seen _ _)) in Hy.
    destruct (first_position_elem _ _ Hy) as [q Hq].
    exists O, (S q). simpl. rewrite String.eqb_refl.
    destruct (String.eqb_spec x y) as [->|_]; [done|].
    rewrite Hq. split_and!; [done|done|lia].
  - destruct (filter_split _ _ _ _ _ Heq) as (m1 & m2 & Hl & ->).
    apply list_elem_of_filter in Hy as [Hya Hy].
    assert (Hxa : x <> b).
    { assert (Hx : x ∈ filter (fun y => y <> b) (first_seen l)).
      { rewrite Heq. apply elem_of_app. right. left. }
      by apply list_elem_of_filter in Hx as [? _]. }
    destruct (IH _ _ _ _ Hl Hy) as (p & q & Hp & Hq & Hlt).
    exists (S p), (S q). simpl.
    destruct (String.eqb_spec b x) as [->|_]; [done|].
    destruct (String.eqb_spec b y) as [->|_]; [done|].
    rewrite Hp, Hq. split_and!; [done|done|lia].
Qed.
End schema.

Lemma elem_of_all_keys (st : state) (name : string) :
  name ∈ all_keys st <->
  name = "_id" \/ exists d, d ∈ documents st /\ name ∈ Object_keys d.
Proof.
  unfold all_keys. rewrite elem_of_cons, list_elem_of_In, in_concat.
  split; (intros [?|H]; [by left|right]).
  - destruct H as (keys & [d [<- Hd]]%in_map_iff & Hname).
    exists d. by rewrite !list_elem_of_In.
  - destruct H as (d & Hd & Hname). exists (Object_keys d).
    rewrite <- !list_elem_of_In. split; [|done].
    apply list_elem_of_In, in_map. by apply list_elem_of_In.
Qed.

(** C4: the headers start with [_id], hold every field name of every
    record exactly once and nothing else, keep the names in the order in
    which they are first seen, and are the same for a batch and for the
    batch taken twice. *)
Theorem C4_tableHeaders_union (st : state) :
  tableHeaders st !! 0%nat = Some "_id"
  /\ NoDup (tableHeaders st)
  /\ (forall name, name ∈ tableHeaders st <->
                   name = "_id" \/ exists d, d ∈ documents st /\ name ∈ Object_keys d)
  /\ (forall x y, before x y (tableHeaders st) ->
                  exists p q, first_position x (all_keys st) = Some p
                              /\ first_position y (all_keys st) = Some q
                              /\ (p < q)%nat)
  /\ tableHeaders (set_documents (documents st ++ documents st) st) = tableHeaders st.
Proof.
  rewrite !tableHeaders_first_seen. split_and!.
  - done.
  - apply NoDup_first_seen.
  - intros name. by rewrite elem_of_first_seen, elem_of_all_keys.
  - intros x y (l1 & l2 & Heq & Hy). by apply first_seen_order with l1 l2.
  - unfold all_keys. simpl documents. rewrite map_app, concat_app.
    apply (first_seen_twice ("_id" :: concat (map Object_keys (documents st)))).
    intros y Hy. by right.
Qed.

Lemma C4_tableHeaders_union_witness :
  tableHeaders users = ["_id"; "name"; "age"]
  /\ exists p q, first_position "name" (all_keys users) = Some p
                 /\ first_position "age" (all_keys users) = Some q
                 /\ (p < q)%nat.
Proof.
  split; [reflexivity|].
  apply (proj1 (proj2 (proj2 (proj2 (C4_tableHeaders_union users))))).
  exists ["_id"], ["age"]. split; [reflexivity | left].
Defined.

(** ** Pagination *)

Lemma ceiling_quotient (n s : Z) :
  0 < s -> Qceiling (inject_Z n / inject_Z s) = (n + s - 1) `div` s.
Proof.
  intros Hs. destruct s as [|p|p]; try lia.
  unfold Qceiling, Qfloor, Qdiv, Qinv, Qmult, Qopp, inject_Z. simpl.
  rewrite Z.mul_1_r, Pos.mul_1_l.
  pose proof (Z.div_mod (- n) (Z.pos p) ltac:(lia)) as H1.
  pose proof (Z.mod_pos_bound (- n) (Z.pos p) Hs) as H2.
  pose proof (Z.div_mod (n + Z.pos p - 1) (Z.pos p) ltac:(lia)) as H3.
  pose proof (Z.mod_pos_bound (n + Z.pos p - 1) (Z.pos p) Hs) as H4.
  nia.
Qed.

Lemma totalPages_is_ceiling (st : state) :
  0 < ToNumber_size (pageSize st) ->
  is_ceiling (Z.of_nat (length (documents st))) (ToNumber_size (pageSize st))
             (totalPages st).
Proof.
  intros Hs. unfold is_ceiling, totalPages. rewrite ceiling_quotient by done.
  set (n := Z.of_nat (length (documents st))).
  set (s := ToNumber_size (pageSize st)) in *.
  pose proof (Z.div_mod (n + s - 1) s ltac:(lia)) as H1.
  pose proof (Z.mod_pos_bound (n + s - 1) s Hs) as H2.
  nia.
Qed.


(** C2, as the code has it: for every record collection and page size
    [s > 0] the page count is the ceiling of [|R| / s]; it is 0 for the
    empty collection and [max(1, ceil(|R| / s))] for every other one. *)
Theorem C2_totalPages_ceiling (st : state)
  (Hsize : 0 < ToNumber_size (pageSize st)) :
  is_ceiling (Z.of_nat (length (documents st))) (ToNumber_size (pageSize st))
             (totalPages st)
  /\ (documents st = [] -> totalPages st = 0)
  /\ (documents st <> [] ->
      1 <= totalPages st /\ totalPages st = Z.max 1 (totalPages st)).
Proof.
  pose proof (totalPages_is_ceiling st Hsize) as Hc. unfold is_ceiling in Hc.
  split; [done|]. split.
  - intros Hnil. rewrite Hnil in Hc. simpl in Hc. nia.
  - intros Hne. destruct (documents st) as [|d r]; [done|].
    simpl length in Hc. nia.
Qed.

Lemma C2_totalPages_ceiling_witness :
  0 < ToNumber_size (pageSize two_pages)
  /\ is_ceiling 11 10 (totalPages two_pages)
  /\ totalPages two_pages = 2.
Proof.
  split; [reflexivity|]. split; [|reflexivity].
  apply (C2_totalPages_ceiling two_pages). reflexivity.
Defined.

(** C2 as stated fails on the empty collection: the count is the ceiling
    0 of [0 / 10], not 1. *)
Lemma C2_empty_collection_has_no_page :
  0 < ToNumber_size (pageSize initial)
  /\ documents initial = []
  /\ is_ceiling 0 (ToNumber_size (pageSize initial)) 0
  /\ totalPages initial = 0
  /\ totalPages initial <> Z.max 1 0.
Proof. by vm_compute. Qed.





(** ** Committing an edit *)

Lemma find_original_oid (doc : option doc) (j : nat) : forall ds k i,
  find_original ds k doc j = Ok (Some i) -> exists id, oid doc = Ok id.
Proof.
  induction ds as [|d ds IH]; intros k i Hfind; simpl in Hfind; [done|].
  destruct (oid (Some d)) as [a|e]; [|done].
  destruct (oid doc) as [b|e]; [|done].
  by exists b.
Qed.

(** What a commit does once the edited record is found. *)
Lemma saveEdit_commit (h : host) (st : state) (rowIndex i : nat) (header : string) (id : any) :
  editingCell st = Some (rowIndex, header) ->
  isSaving st = false ->
  originalDoc st rowIndex = Ok (Some i) ->
  oid (row st rowIndex) = Ok id ->
  saveEdit h st =
    match coerce (editValue st) (reference st i header) with
    | Throw e =>
        (Ok tt,
         set_isSaving false
           (set_errorMessage ("Error updating field: " ++ ToString_thrown e)
              (set_isSaving true st)),
         [])
    | Ok newValue =>
        let update := [(header, newValue)] in
        let call := invoke (update_document (collectionName st) id update) in
        match on_update_document h (collectionName st) id update with
        | Reject e =>
            (Ok tt,
             set_isSaving false
               (set_errorMessage ("Error updating field: " ++ ToString_thrown e)
                  (set_isSaving true st)),
             [call])
        | Resolve true =>
            (Ok tt,
             set_isSaving false
               (set_editingCell None
                  (set_documents
                     (<[i := set_property header newValue (default [] (documents st !! i))]>
                        (documents st))
                     (set_isSaving true st))),
             [call])
        | Resolve false =>
            (Ok tt, set_isSaving false (set_editingCell None (set_isSaving true st)), [call])
        end
    end.
Proof.
  intros Hcell Hidle Hfound Hid.
  unfold saveEdit, bind, get, modify, lift, try_finally, try_catch, await, emit.
  rewrite Hcell, Hidle. simpl. rewrite Hfound. simpl.
  destruct (coerce (editValue st) (reference st i header)) as [newValue|e]; simpl;
    [|reflexivity].
  rewrite Hid. simpl.
  destruct (on_update_document h (collectionName st) id [(header, newValue)])
    as [[|]|e]; reflexivity.
Qed.

(** The records change only when the host reports the update done. *)
Lemma saveEdit_mutates_on_success (h : host) (st : state) (rowIndex i : nat)
  (header : string) :
  editingCell st = Some (rowIndex, header) ->
  isSaving st = false ->
  originalDoc st rowIndex = Ok (Some i) ->
  documents (after (saveEdit h) st) <> documents st ->
  exists newValue id,
    coerce (editValue st) (reference st i header) = Ok newValue
    /\ on_update_document h (collectionName st) id [(header, newValue)] = Resolve true.
Proof.
  intros Hcell Hidle Hfound Hchanged.
  destruct (find_original_oid _ _ _ _ _ Hfound) as [id Hid].
  unfold after in Hchanged.
  rewrite (saveEdit_commit h st rowIndex i header id) in Hchanged by done.
  destruct (coerce (editValue st) (reference st i header)) as [newValue|e];
    [|by simpl in Hchanged].
  exists newValue, id. split; [done|].
  simpl in Hchanged.
  destruct (on_update_document h (collectionName st) id [(header, newValue)])
    as [[|]|e]; by simpl in Hchanged.
Qed.

(** C1 at work: for every commit on a field whose stored value is a number
    the update sent carries the number [parseFloat] makes of the text,
    whatever the text; no coercion error is raised, and when the host
    accepts the update no error is displayed and the number is stored. *)
Theorem C1_numeric_commit_sends_parseFloat (h : host) (st : state) (rowIndex i : nat)
  (header : string)
  (Hcell : editingCell st = Some (rowIndex, header))
  (Hidle : isSaving st = false)
  (Hfound : originalDoc st rowIndex = Ok (Some i))
  (Hnumber : typeof (reference st i header) = t_number) :
  exists id,
    oid (row st rowIndex) = Ok id
    /\ coerce (editValue st) (reference st i header) = Ok (VNum (parseFloat (editValue st)))
    /\ effects (saveEdit h) st =
         [invoke (update_document (collectionName st) id
                    [(header, VNum (parseFloat (editValue st)))])]
    /\ (on_update_document h (collectionName st) id
          [(header, VNum (parseFloat (editValue st)))] = Resolve true ->
        errorMessage (after (saveEdit h) st) = errorMessage st
        /\ documents (after (saveEdit h) st) =
             <[i := set_property header (VNum (parseFloat (editValue st)))
                      (default [] (documents st !! i))]> (documents st)).
Proof.
  destruct (find_original_oid _ _ _ _ _ Hfound) as [id Hid].
  exists id. split; [done|].
  assert (Hcoerce : coerce (editValue st) (reference st i header)
                    = Ok (VNum (parseFloat (editValue st)))).
  { unfold coerce. by rewrite Hnumber. }
  split; [done|].
  unfold effects, after.
  rewrite (saveEdit_commit h st rowIndex i header id) by done.
  rewrite Hcoerce. simpl.
  split.
  - by destruct (on_update_document h (collectionName st) id _) as [[|]|e].
  - intros ->. by simpl.
Qed.

(** The text ["abc"] on the numeric field [age]: [NaN] is sent and stored,
    and no error is shown. *)
Lemma C1_numeric_commit_sends_parseFloat_witness :
  let st := editing "age" "abc" one_record in
  parseFloat "31" = Finite false "31" 2
  /\ parseFloat "abc" = NaN
  /\ effects (saveEdit agreeable) st =
       [invoke (update_document "users" (Some (VStr "a1")) [("age", VNum NaN)])]
  /\ errorMessage (after (saveEdit agreeable) st) = "".
Proof.
  intros st.
  destruct (C1_numeric_commit_sends_parseFloat agreeable st 0 0 "age"
              eq_refl eq_refl eq_refl eq_refl) as (id & Hid & _ & Hsent & Hdone).
  injection Hid as <-.
  split; [reflexivity|]. split; [reflexivity|]. split; [exact Hsent|].
  exact (proj1 (Hdone eq_refl)).
Defined.

(** C6 at work: when the coercion of the text throws or the update call
    is rejected, the error is shown and the records are as they were, and
    the records change only when the host reports the update done.  But
    on a field whose stored value is a number the coercion never throws:
    a text that is no number is read as [NaN], and when the host accepts
    the update no error is shown and [NaN] is stored in the record. *)
Theorem C6_failed_commit_leaves_record (h : host) (st : state) (rowIndex i : nat)
  (header : string)
  (Hcell : editingCell st = Some (rowIndex, header))
  (Hidle : isSaving st = false)
  (Hfound : originalDoc st rowIndex = Ok (Some i)) :
  (forall error,
     coerce (editValue st) (reference st i header) = Throw error
     \/ (exists newValue id,
           coerce (editValue st) (reference st i header) = Ok newValue
           /\ oid (row st rowIndex) = Ok id
           /\ on_update_document h (collectionName st) id [(header, newValue)]
              = Reject error) ->
     errorMessage (after (saveEdit h) st)
     = ("Error updating field: " ++ ToString_thrown error)%string
     /\ documents (after (saveEdit h) st) = documents st)
  /\ (forall h', documents (after (saveEdit h') st) <> documents st ->
       exists newValue id,
         coerce (editValue st) (reference st i header) = Ok newValue
         /\ on_update_document h' (collectionName st) id [(header, newValue)]
            = Resolve true)
  /\ (typeof (reference st i header) = t_number ->
      (forall error, coerce (editValue st) (reference st i header) <> Throw error)
      /\ (parseFloat (editValue st) = NaN ->
          forall id,
            oid (row st rowIndex) = Ok id ->
            on_update_document h (collectionName st) id [(header, VNum NaN)]
            = Resolve true ->
            effects (saveEdit h) st
            = [invoke (update_document (collectionName st) id [(header, VNum NaN)])]
            /\ errorMessage (after (saveEdit h) st) = errorMessage st
            /\ documents (after (saveEdit h) st)
               = <[i := set_property header (VNum NaN)
                          (default [] (documents st !! i))]> (documents st))).
Proof.
  split_and!.
  - intros error Hfail.
    destruct (find_original_oid _ _ _ _ _ Hfound) as [id Hid].
    unfold after. rewrite (saveEdit_commit h st rowIndex i header id) by done.
    cbv zeta.
    destruct Hfail as [-> | (newValue & id' & -> & Hid' & Hreject)]; [done|].
    rewrite Hid in Hid'. injection Hid' as <-. by rewrite Hreject.
  - intros h'. by apply saveEdit_mutates_on_success with rowIndex.
  - intros Hnumber.
    assert (Hcoerce : coerce (editValue st) (reference st i header)
                      = Ok (VNum (parseFloat (editValue st)))).
    { unfold coerce. by rewrite Hnumber. }
    split; [intros error; by rewrite Hcoerce|].
    intros Hnan id Hid Hdone. unfold effects, after.
    rewrite (saveEdit_commit h st rowIndex i header id) by done.
    rewrite Hcoerce, Hnan. cbv zeta. by rewrite Hdone.
Qed.

(** The text ["[1"] on the field [tags] and a rejected update of [name]
    are shown and leave the record; the text ["abc"] on the numeric field
    [age] is not: [NaN] is stored and no error is shown. *)
Lemma C6_failed_commit_leaves_record_witness :
  let st := editing "tags" "[1" one_record in
  let h := answering (Resolve []) (Resolve []) (Reject refused) (Resolve true) true in
  let abc := editing "age" "abc" one_record in
  errorMessage (after (saveEdit agreeable) st)
    = "Error updating field: SyntaxError: JSON Parse error"
  /\ documents (after (saveEdit agreeable) st) = [bob]
  /\ errorMessage (after (saveEdit h) (editing "name" "Rob" one_record))
     = "Error updating field: connection refused"
  /\ documents (after (saveEdit h) (editing "name" "Rob" one_record)) = [bob]
  /\ errorMessage (after (saveEdit agreeable) abc) = ""
  /\ documents (after (saveEdit agreeable) abc)
     = [[("_id", identifier "a1"); ("name", VStr "Bob"); ("age", VNum NaN);
         ("tags", VArr [VStr "x"])]]
  /\ documents (after (saveEdit agreeable) abc) <> documents abc.
Proof.
  intros st h abc.
  pose proof (C6_failed_commit_leaves_record agreeable st 0 0 "tags"
                eq_refl eq_refl eq_refl) as (Hshown & _).
  destruct (Hshown syntax_error (or_introl eq_refl)) as (H1 & H2).
  pose proof (C6_failed_commit_leaves_record h (editing "name" "Rob" one_record)
                0 0 "name" eq_refl eq_refl eq_refl) as (Hrejected & _).
  destruct (Hrejected refused
              (or_intror (ex_intro _ (VStr "Rob")
                 (ex_intro _ (Some (VStr "a1")) (conj eq_refl (conj eq_refl eq_refl))))))
    as (H3 & H4).
  pose proof (C6_failed_commit_leaves_record agreeable abc 0 0 "age"
                eq_refl eq_refl eq_refl) as (_ & _ & Hnumber).
  destruct (Hnumber eq_refl) as (_ & Hnan).
  destruct (Hnan eq_refl (Some (VStr "a1")) eq_refl eq_refl) as (_ & H5 & H6).
  split; [exact H1|]. split; [exact H2|]. split; [exact H3|]. split; [exact H4|].
  split; [exact H5|]. split; [exact H6|].
  rewrite H6. discriminate.
Defined.

(** C7 as stated fails: after a commit that fails the cell is still marked
    as being edited. *)
Lemma C7_failed_commit_keeps_session :
  let st := editing "tags" "[1" one_record in
  editingCell st = Some (O, "tags")
  /\ isSaving st = false
  /\ errorMessage (after (saveEdit agreeable) st)
     = "Error updating field: SyntaxError: JSON Parse error"
  /\ editingCell (after (saveEdit agreeable) st) = Some (O, "tags")
  /\ editingCell (after (saveEdit agreeable) st) <> None.
Proof. by vm_compute. Qed.

(** C7, as the code has it: when the update call returns, with either
    answer, the session is destroyed; when the coercion or the call throws,
    the session stays as it was.  In both cases the commit is over
    ([isSaving] is false again). *)
Theorem C7_commit_ends_session (h : host) (st : state) (rowIndex i : nat)
  (header : string)
  (Hcell : editingCell st = Some (rowIndex, header))
  (Hidle : isSaving st = false)
  (Hfound : originalDoc st rowIndex = Ok (Some i)) :
  isSaving (after (saveEdit h) st) = false
  /\ (forall newValue id success,
        coerce (editValue st) (reference st i header) = Ok newValue ->
        oid (row st rowIndex) = Ok id ->
        on_update_document h (collectionName st) id [(header, newValue)] = Resolve success ->
        editingCell (after (saveEdit h) st) = None)
  /\ (forall error,
        coerce (editValue st) (reference st i header) = Throw error
        \/ (exists newValue id,
              coerce (editValue st) (reference st i header) = Ok newValue
              /\ oid (row st rowIndex) = Ok id
              /\ on_update_document h (collectionName st) id [(header, newValue)]
                 = Reject error) ->
        editingCell (after (saveEdit h) st) = editingCell st
        /\ editValue (after (saveEdit h) st) = editValue st).
Proof.
  destruct (find_original_oid _ _ _ _ _ Hfound) as [id Hid].
  unfold after. rewrite (saveEdit_commit h st rowIndex i header id) by done.
  cbv zeta. split_and!.
  - destruct (coerce (editValue st) (reference st i header)) as [newValue|e]; [|done].
    simpl. by destruct (on_update_document h (collectionName st) id _) as [[|]|e].
  - intros newValue id' success -> Hid' Hresolve.
    rewrite Hid in Hid'. injection Hid' as <-. rewrite Hresolve. by destruct success.
  - intros error [-> | (newValue & id' & -> & Hid' & Hreject)]; [done|].
    rewrite Hid in Hid'. injection Hid' as <-. by rewrite Hreject.
Qed.

Lemma C7_commit_ends_session_witness :
  let st := editing "name" "Rob" one_record in
  isSaving (after (saveEdit agreeable) st) = false
  /\ editingCell (after (saveEdit agreeable) st) = None.
Proof.
  intros st.
  pose proof (C7_commit_ends_session agreeable st 0 0 "name" eq_refl eq_refl eq_refl)
    as (H1 & H2 & _).
  split; [exact H1|].
  exact (H2 (VStr "Rob") (Some (VStr "a1")) true eq_refl eq_refl eq_refl).
Defined.

(** C10: when the lookup of the edited record finds nothing, the commit
    calls nothing and leaves the records, the headers and the paging as
    they were. *)
Theorem C10_lookup_failure_is_silent (h : host) (st : state) (rowIndex : nat)
  (header : string)
  (Hcell : editingCell st = Some (rowIndex, header))
  (Hidle : isSaving st = false)
  (Hnone : originalDoc st rowIndex = Ok None) :
  effects (saveEdit h) st = []
  /\ documents (after (saveEdit h) st) = documents st
  /\ tableHeaders (after (saveEdit h) st) = tableHeaders st
  /\ currentPage (after (saveEdit h) st) = currentPage st
  /\ pageSize (after (saveEdit h) st) = pageSize st
  /\ totalPages (after (saveEdit h) st) = totalPages st
  /\ paginatedDocuments (after (saveEdit h) st) = paginatedDocuments st.
Proof.
  assert (Hrun : saveEdit h st = (Ok tt, set_isSaving true st, [])).
  { unfold saveEdit, bind, get, modify, lift. rewrite Hcell, Hidle. simpl.
    by rewrite Hnone. }
  unfold effects, after. rewrite Hrun. by simpl.
Qed.

Lemma C10_lookup_failure_is_silent_witness :
  let st := editing "city" "Oslo" initial in
  originalDoc st 0 = Ok None
  /\ effects (saveEdit agreeable) st = []
  /\ documents (after (saveEdit agreeable) st) = documents st.
Proof.
  intros st.
  pose proof (C10_lookup_failure_is_silent agreeable st 0 "city" eq_refl eq_refl eq_refl)
    as (H1 & H2 & _).
  split; [reflexivity|]. by split.
Defined.

(** The example of the specification: the number 30 edited to the text
    [31] sends the number 31. *)
Example saveEdit_thirty_one :
  effects (saveEdit agreeable) (editing "age" "31" one_record) =
    [invoke (update_document "users" (Some (VStr "a1"))
               [("age", VNum (Finite false "31" 2))])]
  /\ Number_toString (Finite false "31" 2) = "31".
Proof. by vm_compute. Qed.

(** ** Loading and deleting *)

Lemma fetchDocuments_rejected (h : host) (st : state) (filter : value) (error : thrown) :
  JSON_parse (filterQuery st) = Ok filter ->
  on_find_documents h (collectionName st) filter = Reject error ->
  fetchDocuments h st =
    let call := invoke (find_documents (collectionName st) filter) in
    let message := message_of error in
    if includes message sentinel
    then (Ok tt, set_isLoading false (set_errorMessage "" (set_isLoading true st)),
          [call; setTimeout FetchDocuments 1000])
    else (Ok tt,
          set_isLoading false
            (set_documents []
               (set_errorMessage ("Error fetching documents: " ++ message)
                  (set_errorMessage "" (set_isLoading true st)))),
          [call]).
Proof.
  intros Hfilter Hreject.
  unfold fetchDocuments, bind, get, modify, try_finally, try_catch, await, emit. simpl.
  rewrite Hfilter. simpl. rewrite Hreject. simpl.
  by destruct (includes (message_of error) sentinel).
Qed.

Lemma fetchCollections_rejected (h : host) (st : state) (error : thrown) :
  on_list_collections h = Reject error ->
  fetchCollections h st =
    let message := message_of error in
    if includes message sentinel
    then (Ok tt, st, [invoke list_collections; setTimeout FetchCollections 1000])
    else (Ok tt, set_errorMessage ("Error fetching collections: " ++ message) st,
          [invoke list_collections]).
Proof.
  intros Hreject.
  unfold fetchCollections, bind, get, modify, try_catch, await, emit. simpl.
  rewrite Hreject. simpl.
  by destruct (includes (message_of error) sentinel).
Qed.

(** C5: a failed call whose message holds the sentinel schedules the same
    loader again after 1000 ms and shows no error; any other failure is
    shown, and empties the records on the path of [find_documents] while
    the path of [list_collections] leaves the list of collections alone. *)
Theorem C5_loader_failure (h : host) (st : state) (filter : value) (e1 e2 : thrown)
  (Hfilter : JSON_parse (filterQuery st) = Ok filter)
  (Hfind : on_find_documents h (collectionName st) filter = Reject e1)
  (Hlist : on_list_collections h = Reject e2) :
  (if includes (message_of e1) sentinel
   then effects (fetchDocuments h) st =
          [invoke (find_documents (collectionName st) filter);
           setTimeout FetchDocuments 1000]
        /\ errorMessage (after (fetchDocuments h) st) = ""
        /\ documents (after (fetchDocuments h) st) = documents st
   else effects (fetchDocuments h) st =
          [invoke (find_documents (collectionName st) filter)]
        /\ errorMessage (after (fetchDocuments h) st)
           = ("Error fetching documents: " ++ message_of e1)%string
        /\ documents (after (fetchDocuments h) st) = [])
  /\ (if includes (message_of e2) sentinel
      then effects (fetchCollections h) st =
             [invoke list_collections; setTimeout FetchCollections 1000]
           /\ after (fetchCollections h) st = st
      else effects (fetchCollections h) st = [invoke list_collections]
           /\ errorMessage (after (fetchCollections h) st)
              = ("Error fetching collections: " ++ message_of e2)%string
           /\ collectionsList (after (fetchCollections h) st) = collectionsList st).
Proof.
  unfold effects, after.
  rewrite (fetchDocuments_rejected h st filter e1) by done.
  rewrite (fetchCollections_rejected h st e2) by done.
  cbv zeta. split.
  - by destruct (includes (message_of e1) sentinel).
  - by destruct (includes (message_of e2) sentinel).
Qed.

Lemma C5_loader_failure_witness :
  let waiting := answering (Reject not_ready) (Reject not_ready) (Resolve true) (Resolve true) true in
  let failing := answering (Reject refused) (Reject refused) (Resolve true) (Resolve true) true in
  (effects (fetchDocuments waiting) one_record =
     [invoke (find_documents "users" (VObj [])); setTimeout FetchDocuments 1000]
   /\ errorMessage (after (fetchDocuments waiting) one_record) = ""
   /\ documents (after (fetchDocuments waiting) one_record) = [bob])
  /\ (effects (fetchDocuments failing) one_record = [invoke (find_documents "users" (VObj []))]
      /\ errorMessage (after (fetchDocuments failing) one_record)
         = "Error fetching documents: connection refused"
      /\ documents (after (fetchDocuments failing) one_record) = []).
Proof.
  intros waiting failing. split.
  - exact (proj1 (C5_loader_failure waiting one_record (VObj []) not_ready not_ready
                    eq_refl eq_refl eq_refl)).
  - exact (proj1 (C5_loader_failure failing one_record (VObj []) refused refused
                    eq_refl eq_refl eq_refl)).
Defined.

(** C8 at work: when the user confirms and [delete_document] answers
    [false], the handler leaves the whole state as it was: no row is
    removed, nothing is fetched again, and no message is set. *)
Theorem C8_delete_without_success (h : host) (st : state) (id : string)
  (Hyes : on_confirm h "Are you sure you want to delete this document?" = true)
  (Hnone : on_delete_document h (collectionName st) id = Resolve false) :
  after (deleteDocument h id) st = st
  /\ effects (deleteDocument h id) st =
       [confirm "Are you sure you want to delete this document?";
        invoke (delete_document (collectionName st) id)]
  /\ errorMessage (after (deleteDocument h id) st) = errorMessage st
  /\ documents (after (deleteDocument h id) st) = documents st.
Proof.
  assert (Hrun : deleteDocument h id st =
                 (Ok tt, st,
                  [confirm "Are you sure you want to delete this document?";
                   invoke (delete_document (collectionName st) id)])).
  { unfold deleteDocument, bind, get, try_catch, await, emit. simpl.
    rewrite Hyes. simpl. by rewrite Hnone. }
  unfold after, effects. by rewrite Hrun.
Qed.

Lemma C8_delete_without_success_witness :
  let h := answering (Resolve []) (Resolve []) (Resolve true) (Resolve false) true in
  after (deleteDocument h "a1") one_record = one_record
  /\ errorMessage (after (deleteDocument h "a1") one_record) = "".
Proof.
  intros h.
  pose proof (C8_delete_without_success h one_record "a1" eq_refl eq_refl)
    as (H1 & _ & H3 & _).
  split; [exact H1 | exact H3].
Defined.

(** ** Starting an edit *)

(** C9 as stated fails: [null] seeds the text [null], an absent value the
    text [undefined], and a composite value its indented form. *)
Lemma C9_seed_differs_from_formatValue :
  seed 0 "nick" (Some VNull) one_record = "null"
  /\ formatValue (Some VNull) = ""
  /\ seed 0 "nick" None one_record = "undefined"
  /\ formatValue None = ""
  /\ seed 0 "tags" (Some (VArr [VStr "x"])) one_record
     <> formatValue (Some (VArr [VStr "x"])).
Proof. by vm_compute. Qed.

(** C9, as the code has it: the activation of a cell of another field than
    the identifier marks it as edited; a boolean, a number or a string
    seeds the text the Value Formatter gives, [null] seeds the text [null],
    and an object or an array seeds its serialized form indented by two
    spaces. *)
Theorem C9_seed_of_edit_session (st : state) (rowIndex : nat) (header : string)
  (value : any) (Hfield : header <> "_id") :
  editingCell (handleCellClick rowIndex header value st) = Some (rowIndex, header)
  /\ match value with
     | Some (VBool _) | Some (VNum _) | Some (VStr _) =>
         seed rowIndex header value st = formatValue value
         /\ seed rowIndex header value st = ToString value
     | Some VNull => seed rowIndex header value st = "null"
     | Some (VArr _ as v) | Some (VObj _ as v) =>
         seed rowIndex header value st = SerializeJSONProperty "  " "" v
     | None => True
     end.
Proof.
  unfold seed, handleCellClick.
  destruct (String.eqb_spec header "_id") as [->|_]; [done|].
  split; [done|]. by destruct value as [[| | | | |]|].
Qed.

Lemma C9_seed_of_edit_session_witness :
  seed 0 "age" (Some (VNum thirty)) one_record = "30"
  /\ formatValue (Some (VNum thirty)) = "30".
Proof.
  pose proof (C9_seed_of_edit_session one_record 0 "age" (Some (VNum thirty))
                ltac:(discriminate)) as (_ & H1 & H2).
  split; [exact H2 | by rewrite <- H1].
Defined.

(** ** Texts and numerals *)

Lemma append_nil_l (t : string) : (EmptyString ++ t)%string = t.
Proof. reflexivity. Qed.

Lemma append_cons (c : ascii) (s t : string) :
  (String c s ++ t)%string = String c (s ++ t).
Proof. reflexivity. Qed.

Lemma append_nil_r (s : string) : (s ++ EmptyString)%string = s.
Proof. induction s as [|c s IH]; [done|]. by rewrite append_cons, IH. Qed.

Lemma append_assoc (s t u : string) : ((s ++ t) ++ u)%string = (s ++ (t ++ u))%string.
Proof.
  induction s as [|c s IH]; [done|]. by rewrite !append_cons, IH.
Qed.

Lemma length_append (s t : string) :
  String.length (s ++ t) = (String.length s + String.length t)%nat.
Proof.
  induction s as [|c s IH]; [done|]. rewrite append_cons. simpl. by rewrite IH.
Qed.

Section digits.

Lemma digits_value_acc (d : Decimal.uint) : forall acc : positive,
  digits_value (NilEmpty.string_of_uint d) (Z.pos acc) = Z.pos (Pos.of_uint_acc d acc).
Proof.
  induction d; intros acc; simpl; try done; rewrite <- IHd; f_equal; lia.
Qed.

Lemma digits_value_of_uint (d : Decimal.uint) :
  digits_value (NilEmpty.string_of_uint d) 0 = Z.of_N (Pos.of_uint d).
Proof.
  induction d; simpl; try done; try (by rewrite <- digits_value_acc).
Qed.

Lemma all_digits_of_uint (d : Decimal.uint) :
  all_digits (NilEmpty.string_of_uint d) = true.
Proof. induction d; simpl; done. Qed.

Lemma string_of_uint_digits (d : Decimal.uint) :
  all_digits (NilZero.string_of_uint d) = true
  /\ NilZero.string_of_uint d <> EmptyString
  /\ digits_value (NilZero.string_of_uint d) 0 = Z.of_N (N.of_uint d).
Proof.
  unfold N.of_uint.
  destruct d;
    (split; [try done; apply (all_digits_of_uint (_ _)) |
     split; [done | try done; apply (digits_value_of_uint (_ _))]]).
Qed.

Lemma decimal_of_N_digits (m : N) :
  all_digits (decimal_of_N m) = true
  /\ decimal_of_N m <> EmptyString
  /\ digits_value (decimal_of_N m) 0 = Z.of_N m.
Proof.
  unfold decimal_of_N.
  destruct (string_of_uint_digits (N.to_uint m)) as (H1 & H2 & H3).
  by rewrite DecimalN.Unsigned.of_to in H3.
Qed.
End digits.

Section numerals.
Implicit Types (s t : string) (acc : Z).

Lemma digits_value_app s t acc :
  digits_value (s ++ t) acc = digits_value t (digits_value s acc).
Proof.
  revert acc. induction s as [|c s IH]; intros acc; [done|].
  rewrite append_cons. cbn [digits_value]. apply IH.
Qed.

Lemma digits_value_shift s acc :
  digits_value s acc = acc * 10 ^ Z.of_nat (String.length s) + digits_value s 0.
Proof.
  revert acc. induction s as [|c s IH]; intros acc.
  - simpl. lia.
  - cbn [digits_value String.length]. rewrite IH, (IH (10 * 0 + _)).
    rewrite Nat2Z.inj_succ, Z.pow_succ_r by lia. lia.
Qed.

Lemma integer_of_digits s :
  all_digits s = true -> integer_of_text s = digits_value s 0.
Proof.
  destruct s as [|c s]; [done|]. cbn [all_digits]. intros [Hc _]%andb_prop.
  destruct c as [[] [] [] [] [] [] [] []]; done.
Qed.

Lemma all_digits_append s t :
  all_digits s = true -> all_digits t = true -> all_digits (s ++ t) = true.
Proof.
  induction s as [|c s IH]; [done|]. intros [Hc Hs]%andb_prop Ht.
  rewrite append_cons. cbn [all_digits]. rewrite Hc. simpl. auto.
Qed.

(** The number spelled by the numeral of [a] followed by the numeral of
    [n]. *)
Lemma integer_of_numerals (a : Z) (n : N) :
  0 <= a ->
  integer_of_text (String_of_Z a ++ decimal_of_N n)
  = a * 10 ^ Z.of_nat (String.length (decimal_of_N n)) + Z.of_N n.
Proof.
  intros Ha. unfold String_of_Z.
  destruct (Z.ltb_spec a 0) as [?|_]; [lia|].
  destruct (decimal_of_N_digits (Z.to_N a)) as (Ha1 & _ & Ha2).
  destruct (decimal_of_N_digits n) as (Hn1 & _ & Hn2).
  rewrite integer_of_digits by by apply all_digits_append.
  rewrite digits_value_app, Ha2, digits_value_shift, Hn2. lia.
Qed.
End numerals.

(** ** The pages *)

Lemma slice_take_drop {A : Type} (l : list A) (a n : Z) :
  0 <= a -> 0 <= n ->
  slice l a (a + n) = take (Z.to_nat n) (drop (Z.to_nat a) l).
Proof.
  intros Ha Hn. unfold slice, slice_bound.
  destruct (Z.ltb_spec a 0) as [?|_]; [lia|].
  destruct (Z.ltb_spec (a + n) 0) as [?|_]; [lia|].
  set (len := Z.of_nat (length l)).
  destruct (Z.le_gt_cases len a) as [Hout|Hin].
  - rewrite !drop_ge by lia. by rewrite !take_nil.
  - rewrite (Z.min_l a len) by lia.
    destruct (Z.le_gt_cases (a + n) len) as [Hfit|Hcut].
    + rewrite Z.min_l by lia. do 2 f_equal. lia.
    + rewrite Z.min_r by lia.
      rewrite !take_ge; [done | | ]; rewrite length_drop; lia.
Qed.

(** The end of a page: the start and the size when [pageSize] holds a
    number or the page is the first; the numeral of the start followed by
    the text otherwise. *)
Lemma page_end_number (st : state) (n : Z) :
  pageSize st = size_number n -> page_end st = page_start st + n.
Proof. unfold page_end. by intros ->. Qed.

Lemma page_end_text (st : state) (n : N) :
  pageSize st = size_text n -> 0 <= page_start st ->
  page_end st
  = page_start st * 10 ^ Z.of_nat (String.length (decimal_of_N n)) + Z.of_N n.
Proof.
  unfold page_end. intros Hsize Hstart. rewrite Hsize.
  by apply integer_of_numerals.
Qed.

Lemma page_end_first (st : state) :
  currentPage st = 1 -> page_end st = ToNumber_size (pageSize st).
Proof.
  intros Hpage.
  assert (Hstart : page_start st = 0) by (unfold page_start; rewrite Hpage; lia).
  destruct (pageSize st) as [n|n] eqn:Hsize.
  - rewrite (page_end_number st n Hsize), Hstart. simpl. lia.
  - rewrite (page_end_text st n Hsize) by lia. rewrite Hstart. simpl. lia.
Qed.

Lemma page_end_lower (st : state) :
  0 <= page_start st ->
  page_start st + ToNumber_size (pageSize st) <= page_end st.
Proof.
  intros Hstart. destruct (pageSize st) as [n|n] eqn:Hsize.
  - rewrite (page_end_number st n Hsize). simpl. lia.
  - rewrite (page_end_text st n Hsize) by done. simpl.
    pose proof (Z.pow_pos_nonneg 10 (Z.of_nat (String.length (decimal_of_N n)))
                  ltac:(lia) ltac:(lia)).
    nia.
Qed.

Lemma paginatedDocuments_take_drop (st : state) :
  0 <= ToNumber_size (pageSize st) -> 1 <= currentPage st ->
  paginatedDocuments st =
    take (Z.to_nat (page_end st - page_start st))
         (drop (Z.to_nat (page_start st)) (documents st)).
Proof.
  intros Hs Hp.
  assert (Hstart : 0 <= page_start st) by (unfold page_start; nia).
  pose proof (page_end_lower st Hstart) as Hend.
  unfold paginatedDocuments. cbv zeta.
  replace (page_end st) with (page_start st + (page_end st - page_start st)) at 1 by lia.
  apply slice_take_drop; lia.
Qed.

Lemma paginatedDocuments_number (st : state) (n : Z) :
  pageSize st = size_number n -> 0 < n -> 1 <= currentPage st ->
  paginatedDocuments st =
    take (Z.to_nat n) (drop (Z.to_nat ((currentPage st - 1) * n)) (documents st)).
Proof.
  intros Hsize Hn Hp.
  rewrite paginatedDocuments_take_drop by (rewrite ?Hsize; simpl; lia).
  rewrite (page_end_number st n Hsize). unfold page_start. rewrite Hsize. simpl.
  do 2 f_equal. lia.
Qed.

(** X1: while [pageSize] holds a number a page never shows more records
    than the page size, whatever the current page is, and so does the
    first page when [pageSize] holds the text of an item of the selector.
    A later page then runs from its start to the position that the
    numeral of the start followed by the text spells: it shows more
    records than the page size when there are that many. *)
Theorem X1_page_within_size (st : state)
  (Hsize : 0 < ToNumber_size (pageSize st)) :
  (forall n, pageSize st = size_number n ->
     Z.of_nat (length (paginatedDocuments st)) <= n)
  /\ (currentPage st = 1 ->
      Z.of_nat (length (paginatedDocuments st)) <= ToNumber_size (pageSize st))
  /\ (forall n, pageSize st = size_text n -> 2 <= currentPage st ->
      let start := (currentPage st - 1) * Z.of_N n in
      let digits := Z.of_nat (String.length (decimal_of_N n)) in
      paginatedDocuments st
      = take (Z.to_nat (start * (10 ^ digits - 1) + Z.of_N n))
             (drop (Z.to_nat start) (documents st))
      /\ Z.of_N n + 9 * start <= start * (10 ^ digits - 1) + Z.of_N n).
Proof.
  split_and!.
  - intros n Hn. unfold paginatedDocuments, slice. cbv zeta.
    rewrite (page_end_number st n Hn).
    rewrite Hn in Hsize. simpl in Hsize.
    rewrite length_take, length_drop.
    set (len := Z.of_nat (length (documents st))).
    set (a := page_start st).
    assert (Hb : slice_bound len (a + n) - slice_bound len a <= n).
    { unfold slice_bound.
      destruct (Z.ltb_spec (a + n) 0), (Z.ltb_spec a 0); lia. }
    lia.
  - intros Hpage.
    assert (Hstart : page_start st = 0) by (unfold page_start; rewrite Hpage; lia).
    rewrite paginatedDocuments_take_drop by lia.
    rewrite (page_end_first st Hpage), Hstart, length_take. lia.
  - intros n Hn Hpage start digits.
    rewrite Hn in Hsize. simpl in Hsize.
    assert (Hstart : page_start st = start)
      by (unfold page_start, start; by rewrite Hn).
    assert (Hdigits : 10 <= 10 ^ digits).
    { destruct (decimal_of_N_digits n) as (_ & Hne & _).
      destruct (decimal_of_N n) as [|c r]; [done|]. unfold digits.
      cbn [String.length]. rewrite Nat2Z.inj_succ, Z.pow_succ_r by lia.
      pose proof (Z.pow_pos_nonneg 10 (Z.of_nat (String.length r))
                    ltac:(lia) ltac:(lia)).
      lia. }
    assert (Hpos : 0 <= start) by (unfold start; nia).
    split; [|clearbody start digits; nia].
    rewrite paginatedDocuments_take_drop by (rewrite ?Hn; simpl; lia).
    rewrite (page_end_text st n Hn) by lia.
    rewrite Hstart. unfold digits. do 2 f_equal. lia.
Qed.

(** Twelve records at the size ["5"] of the selector: the second page
    shows the seven records from the sixth on. *)
Lemma X1_page_within_size_witness :
  let twelve := select_pageSize 5 (set_documents (replicate 12 bob) initial) in
  length (paginatedDocuments two_pages) = 10%nat
  /\ length (paginatedDocuments (onPageChange 2 two_pages)) = 1%nat
  /\ length (paginatedDocuments twelve) = 5%nat
  /\ page_end (onPageChange 2 twelve) = 55
  /\ length (paginatedDocuments (onPageChange 2 twelve)) = 7%nat
  /\ Z.of_nat (length (paginatedDocuments two_pages)) <= 10
  /\ paginatedDocuments (onPageChange 2 twelve)
     = take 50 (drop 5 (replicate 12 bob)).
Proof.
  intros twelve.
  split; [reflexivity|]. split; [reflexivity|]. split; [reflexivity|].
  split; [reflexivity|]. split; [reflexivity|]. split.
  - exact (proj1 (X1_page_within_size two_pages eq_refl) 10 eq_refl).
  - exact (proj1 (proj2 (proj2 (X1_page_within_size (onPageChange 2 twelve) eq_refl))
                    5%N eq_refl ltac:(discriminate))).
Defined.

Lemma concat_chunks {A : Type} (s : nat) : forall (n : nat) (l : list A),
  (0 < s)%nat -> (length l <= n * s)%nat ->
  concat (map (fun i => take s (drop (i * s) l)) (seq 0 n)) = l.
Proof.
  induction n as [|n IH]; intros l Hs Hlen.
  - destruct l; [done | simpl in Hlen; lia].
  - simpl. rewrite drop_0.
    transitivity (take s l ++ drop s l); [|apply take_drop]. f_equal.
    rewrite <- seq_shift, map_map.
    transitivity (concat (map (fun i => take s (drop (i * s) (drop s l))) (seq 0 n)));
      [|apply IH; rewrite ?length_drop; lia].
    f_equal. apply map_ext. intros i. rewrite drop_drop. do 2 f_equal; lia.
Qed.

(** X2: while [pageSize] holds a number, the pages 1 to [totalPages], one
    after the other, are the records in their order, without gap or
    overlap. *)
Theorem X2_pages_partition (st : state) (n : Z)
  (Hnumber : pageSize st = size_number n) (Hsize : 0 < n) :
  concat (pages st) = documents st.
Proof.
  assert (Hpos : 0 < ToNumber_size (pageSize st)) by by rewrite Hnumber.
  pose proof (totalPages_is_ceiling st Hpos) as [Hlow Hhigh].
  rewrite Hnumber in Hlow, Hhigh. simpl in Hlow, Hhigh.
  assert (Hpages : 0 <= totalPages st) by nia.
  unfold pages, seqZ. rewrite map_map.
  transitivity (concat (map (fun i => take (Z.to_nat n)
                                        (drop (i * Z.to_nat n) (documents st)))
                            (seq 0 (Z.to_nat (totalPages st)))));
    [|apply concat_chunks; nia].
  f_equal. apply map_ext_in. intros i Hi%in_seq. unfold page.
  rewrite (paginatedDocuments_number _ n) by (simpl; done || lia).
  simpl. do 2 f_equal. nia.
Qed.

(** With a number the two pages of eleven records hold ten and one; with
    the text ["5"] the three pages of twelve records hold five, seven and
    two, and overlap. *)
Lemma X2_pages_partition_witness :
  let twelve := select_pageSize 5 (set_documents (replicate 12 bob) initial) in
  concat (pages two_pages) = documents two_pages
  /\ map length (pages two_pages) = [10%nat; 1%nat]
  /\ map length (pages twelve) = [5%nat; 7%nat; 2%nat].
Proof.
  intros twelve.
  split; [|split; reflexivity].
  exact (X2_pages_partition two_pages 10 eq_refl eq_refl).
Defined.

(** X3: from page 1 on, a page is empty exactly when it lies beyond the
    last page, whether [pageSize] holds a number or a text; in particular
    every page is empty when there is no record. *)
Theorem X3_page_empty_beyond_last (st : state)
  (Hsize : 0 < ToNumber_size (pageSize st)) (Hpage : 1 <= currentPage st) :
  paginatedDocuments st = [] <-> totalPages st < currentPage st.
Proof.
  pose proof (totalPages_is_ceiling st Hsize) as [Hlow Hhigh].
  assert (Hstart : 0 <= page_start st) by (unfold page_start; nia).
  pose proof (page_end_lower st Hstart) as Hend.
  rewrite paginatedDocuments_take_drop by lia.
  set (n := Z.of_nat (length (documents st))) in *.
  split.
  - intros Hnil. apply (f_equal length) in Hnil.
    rewrite length_take, length_drop in Hnil. simpl in Hnil.
    destruct (Z.le_gt_cases (currentPage st) (totalPages st)) as [Hin|]; [|done].
    unfold page_start in *. nia.
  - intros Hbeyond. rewrite drop_ge; [by rewrite take_nil|].
    unfold page_start. nia.
Qed.

Lemma X3_page_empty_beyond_last_witness :
  0 < ToNumber_size (pageSize two_pages)
  /\ totalPages two_pages = 2
  /\ paginatedDocuments (onPageChange 3 two_pages) = []
  /\ paginatedDocuments (onPageChange 2 two_pages) <> [].
Proof.
  split; [reflexivity|]. split; [reflexivity|]. split.
  - apply (proj2 (X3_page_empty_beyond_last (onPageChange 3 two_pages)
                    eq_refl ltac:(discriminate))).
    reflexivity.
  - intros H.
    apply (proj1 (X3_page_empty_beyond_last (onPageChange 2 two_pages)
                    eq_refl ltac:(discriminate))) in H.
    vm_compute in H. discriminate H.
Defined.

(** ** Properties of a record *)

Section properties.
Implicit Types (props : list (string * value)) (key : string) (v : value).

Lemma get_replace_same key v props :
  has_property key props = true ->
  get_property key (replace_property key v props) = Some v.
Proof.
  unfold has_property. induction props as [|[k w] props IH]; simpl; [done|].
  destruct (String.eqb k key) eqn:E; simpl; rewrite E; auto.
Qed.

Lemma get_replace_other key k' v props :
  k' <> key -> get_property k' (replace_property key v props) = get_property k' props.
Proof.
  intros Hne. induction props as [|[k w] props IH]; simpl; [done|].
  destruct (String.eqb_spec k key) as [->|_]; simpl.
  - by destruct (String.eqb_spec key k') as [->|_].
  - by rewrite IH.
Qed.

Lemma keys_replace key v props :
  Object_keys (replace_property key v props) = Object_keys props.
Proof.
  unfold Object_keys. induction props as [|[k w] props IH]; simpl; [done|].
  destruct (String.eqb k key); simpl; by rewrite ?IH.
Qed.

Lemma get_insert_index_same n key v props :
  get_property key props = None ->
  get_property key (insert_index n key v props) = Some v.
Proof.
  induction props as [|[k w] props IH]; simpl.
  - by rewrite String.eqb_refl.
  - destruct (String.eqb k key) eqn:E; [done|]. intros Hnone.
    destruct (array_index k) as [m|]; [destruct (m <? n)|];
      simpl; rewrite ?E, ?String.eqb_refl; auto.
Qed.

Lemma get_insert_index_other n key k' v props :
  k' <> key ->
  get_property k' (insert_index n key v props) = get_property k' props.
Proof.
  intros Hne. induction props as [|[k w] props IH]; simpl.
  - by destruct (String.eqb_spec key k') as [->|_].
  - destruct (array_index k) as [m|]; [destruct (m <? n)|]; simpl;
      rewrite ?IH; try done; by destruct (String.eqb_spec key k') as [->|_].
Qed.

Lemma keys_insert_index n key v props :
  Object_keys (insert_index n key v props) ≡ₚ key :: Object_keys props.
Proof.
  unfold Object_keys. induction props as [|[k w] props IH]; simpl; [done|].
  destruct (array_index k) as [m|]; [destruct (m <? n)|]; simpl; try done.
  rewrite IH. apply Permutation_swap.
Qed.

Lemma get_app_same key v props :
  get_property key props = None -> get_property key (props ++ [(key, v)]) = Some v.
Proof.
  induction props as [|[k w] props IH]; simpl.
  - by rewrite String.eqb_refl.
  - by destruct (String.eqb k key).
Qed.

Lemma get_app_other key k' v props :
  k' <> key -> get_property k' (props ++ [(key, v)]) = get_property k' props.
Proof.
  intros Hne. induction props as [|[k w] props IH]; simpl.
  - by destruct (String.eqb_spec key k') as [->|_].
  - by rewrite IH.
Qed.

Lemma set_property_get (key : string) (v : value) (props : list (string * value)) :
  get_property key (set_property key v props) = Some v
  /\ (forall k', k' <> key ->
        get_property k' (set_property key v props) = get_property k' props)
  /\ (has_property key props = true ->
        Object_keys (set_property key v props) = Object_keys props)
  /\ (has_property key props = false ->
        Object_keys (set_property key v props) ≡ₚ key :: Object_keys props).
Proof.
  unfold set_property.
  destruct (has_property key props) eqn:Hhas.
  - split_and!; try done.
    + by apply get_replace_same.
    + intros k' Hne. by apply get_replace_other.
    + intros _. apply keys_replace.
  - assert (Hnone : get_property key props = None).
    { unfold has_property in Hhas. by destruct (get_property key props). }
    destruct (array_index key) as [n|]; split_and!; try done.
    + by apply get_insert_index_same.
    + intros k' Hne. by apply get_insert_index_other.
    + intros _. apply keys_insert_index.
    + by apply get_app_same.
    + intros k' Hne. by apply get_app_other.
    + intros _. unfold Object_keys. rewrite map_app. simpl.
      by rewrite Permutation_app_comm.
Qed.
End properties.

(** ** What a commit stores *)

Lemma find_original_bound (doc : option doc) (j : nat) : forall ds k i,
  find_original ds k doc j = Ok (Some i) -> (k <= i < k + length ds)%nat.
Proof.
  induction ds as [|d ds IH]; intros k i Hfind; simpl in Hfind; [done|].
  destruct (oid (Some d)) as [a|e]; [|done].
  destruct (oid doc) as [b|e]; [|done].
  destruct (strict_equal (k =? j)%nat a b).
  - injection Hfind as <-. simpl. lia.
  - apply IH in Hfind. simpl. lia.
Qed.

Lemma saveEdit_success (h : host) (st : state) (rowIndex i : nat) (header : string)
  (newValue : value) (id : any) :
  editingCell st = Some (rowIndex, header) ->
  isSaving st = false ->
  originalDoc st rowIndex = Ok (Some i) ->
  coerce (editValue st) (reference st i header) = Ok newValue ->
  oid (row st rowIndex) = Ok id ->
  on_update_document h (collectionName st) id [(header, newValue)] = Resolve true ->
  documents (after (saveEdit h) st) =
    <[i := set_property header newValue (default [] (documents st !! i))]> (documents st).
Proof.
  intros Hcell Hidle Hfound Hcoerce Hid Hdone. unfold after.
  rewrite (saveEdit_commit h st rowIndex i header id) by done.
  rewrite Hcoerce. cbv zeta. by rewrite Hdone.
Qed.

(** X5: a commit that the host accepts changes one field of one record:
    the record found reads the new value at the edited field and its
    other fields as before, every other record is as it was, and no record
    is added or removed. *)
Theorem X5_commit_changes_one_field (h : host) (st : state) (rowIndex i : nat)
  (header : string) (newValue : value) (id : any)
  (Hcell : editingCell st = Some (rowIndex, header))
  (Hidle : isSaving st = false)
  (Hfound : originalDoc st rowIndex = Ok (Some i))
  (Hcoerce : coerce (editValue st) (reference st i header) = Ok newValue)
  (Hid : oid (row st rowIndex) = Ok id)
  (Hdone : on_update_document h (collectionName st) id [(header, newValue)] = Resolve true) :
  let st' := after (saveEdit h) st in
  length (documents st') = length (documents st)
  /\ (forall j, j <> i -> documents st' !! j = documents st !! j)
  /\ reference st' i header = Some newValue
  /\ (forall k, k <> header -> reference st' i k = reference st i k).
Proof.
  intros st'. unfold st', reference.
  rewrite (saveEdit_success h st rowIndex i header newValue id) by done.
  apply find_original_bound in Hfound. simpl in Hfound.
  split_and!.
  - apply length_insert.
  - intros j Hne. by apply list_lookup_insert_ne.
  - rewrite list_lookup_insert_eq by apply Hfound. simpl. apply set_property_get.
  - intros k Hne. rewrite list_lookup_insert_eq by apply Hfound. simpl.
    by apply set_property_get.
Qed.

Lemma X5_commit_changes_one_field_witness :
  let st := editing "name" "Rob" one_record in
  reference (after (saveEdit agreeable) st) 0 "name" = Some (VStr "Rob")
  /\ reference (after (saveEdit agreeable) st) 0 "age" = Some (VNum thirty).
Proof.
  intros st.
  pose proof (X5_commit_changes_one_field agreeable st 0 0 "name" (VStr "Rob")
                (Some (VStr "a1")) eq_refl eq_refl eq_refl eq_refl eq_refl eq_refl)
    as (_ & _ & H1 & H2).
  split; [exact H1|]. exact (H2 "age" ltac:(discriminate)).
Defined.

Lemma keys_insert_index_split (n : Z) (key : string) (v : value)
  (props : list (string * value)) :
  exists l1 l2,
    Object_keys props = l1 ++ l2
    /\ Object_keys (insert_index n key v props) = l1 ++ key :: l2
    /\ Forall (fun k => exists m, array_index k = Some m /\ m < n) l1
    /\ match l2 with
       | [] => True
       | k :: _ => forall m, array_index k = Some m -> n <= m
       end.
Proof.
  unfold Object_keys. induction props as [|[k w] props IH]; simpl.
  - by exists [], [].
  - destruct (array_index k) as [m|] eqn:Hk.
    + destruct (Z.ltb_spec m n) as [Hlt|Hge].
      * destruct IH as (l1 & l2 & H1 & H2 & H3 & H4).
        exists (k :: l1), l2. simpl. rewrite H1, H2.
        split_and!; try done. constructor; [by exists m | done].
      * exists [], (k :: map fst props). split_and!; try done.
        intros m' Hm'. rewrite Hk in Hm'. injection Hm' as <-. lia.
    + exists [], (k :: map fst props). split_and!; try done.
      intros m' Hm'. by rewrite Hk in Hm'.
Qed.

(** X4: where the key of an edited field goes.  After a commit that the
    host accepts, the keys of the record are as before when the record had
    the field; a new field whose name is no array index is added last; a
    new field whose name is an array index is placed after the leading
    keys that are smaller array indices and before all the others, which
    keep their order. *)
Theorem X4_commit_key_order (h : host) (st : state) (rowIndex i : nat)
  (header : string) (newValue : value) (id : any)
  (Hcell : editingCell st = Some (rowIndex, header))
  (Hidle : isSaving st = false)
  (Hfound : originalDoc st rowIndex = Ok (Some i))
  (Hcoerce : coerce (editValue st) (reference st i header) = Ok newValue)
  (Hid : oid (row st rowIndex) = Ok id)
  (Hdone : on_update_document h (collectionName st) id [(header, newValue)] = Resolve true) :
  let keys := Object_keys (default [] (documents st !! i)) in
  let keys' := Object_keys (default [] (documents (after (saveEdit h) st) !! i)) in
  (reference st i header <> None -> keys' = keys)
  /\ (reference st i header = None -> array_index header = None ->
      keys' = keys ++ [header])
  /\ (forall n, reference st i header = None -> array_index header = Some n ->
      exists l1 l2,
        keys = l1 ++ l2
        /\ keys' = l1 ++ header :: l2
        /\ Forall (fun k => exists m, array_index k = Some m /\ m < n) l1
        /\ match l2 with
           | [] => True
           | k :: _ => forall m, array_index k = Some m -> n <= m
           end).
Proof.
  intros keys keys'. unfold keys', keys, reference.
  rewrite (saveEdit_success h st rowIndex i header newValue id) by done.
  apply find_original_bound in Hfound. simpl in Hfound.
  rewrite list_lookup_insert_eq by apply Hfound. simpl.
  set (props := default [] (documents st !! i)).
  unfold set_property, has_property.
  destruct (get_property header props) as [w|]; [split_and!; try done|].
  - intros _. apply keys_replace.
  - split_and!; try done.
    + intros _ ->. unfold Object_keys. by rewrite map_app.
    + intros n _ ->. apply keys_insert_index_split.
Qed.

(** On the record [bob] the new field [city] goes last and the new field
    [7] goes first. *)
Lemma X4_commit_key_order_witness :
  Object_keys (default [] (documents (after (saveEdit agreeable)
                                        (editing "city" "Oslo" one_record)) !! 0%nat))
  = ["_id"; "name"; "age"; "tags"; "city"]
  /\ Object_keys (default [] (documents (after (saveEdit agreeable)
                                           (editing "7" "x" one_record)) !! 0%nat))
     = ["7"; "_id"; "name"; "age"; "tags"].
Proof.
  split; [|reflexivity].
  exact (proj1 (proj2 (X4_commit_key_order agreeable (editing "city" "Oslo" one_record)
                         0 0 "city" (VStr "Oslo") (Some (VStr "a1"))
                         eq_refl eq_refl eq_refl eq_refl eq_refl eq_refl))
           eq_refl eq_refl).
Defined.

Lemma has_property_key (key : string) (props : list (string * value)) :
  has_property key props = true <-> key ∈ Object_keys props.
Proof.
  unfold has_property, Object_keys.
  induction props as [|[k w] props IH]; simpl.
  - split; [done | intros H; by apply elem_of_nil in H].
  - rewrite elem_of_cons. destruct (String.eqb_spec k key) as [->|Hne].
    + split; [by left | done].
    + rewrite IH. split; [by right | by intros [?|?]].
Qed.

Lemma keys_set_property (key name : string) (v : value) (props : list (string * value)) :
  name ∈ Object_keys (set_property key v props) <->
  name = key \/ name ∈ Object_keys props.
Proof.
  destruct (set_property_get key v props) as (_ & _ & Hin & Hout).
  destruct (has_property key props) eqn:Hhas.
  - rewrite Hin by done. apply has_property_key in Hhas.
    split; [by right | by intros [->|?]].
  - rewrite Hout by done. apply elem_of_cons.
Qed.

(** X6: a commit that the host accepts loses no column and adds none: the
    headers afterwards are the headers before, in the same order when the
    record already had the edited field, and in a possibly different order
    when the field is new to the record. *)
Theorem X6_commit_keeps_columns (h : host) (st : state) (rowIndex i : nat)
  (header : string) (newValue : value) (id : any)
  (Hcell : editingCell st = Some (rowIndex, header))
  (Hidle : isSaving st = false)
  (Hfound : originalDoc st rowIndex = Ok (Some i))
  (Hcoerce : coerce (editValue st) (reference st i header) = Ok newValue)
  (Hid : oid (row st rowIndex) = Ok id)
  (Hdone : on_update_document h (collectionName st) id [(header, newValue)] = Resolve true)
  (Hcolumn : header ∈ tableHeaders st) :
  tableHeaders (after (saveEdit h) st) ≡ₚ tableHeaders st
  /\ (reference st i header <> None ->
      tableHeaders (after (saveEdit h) st) = tableHeaders st).
Proof.
  pose proof (saveEdit_success h st rowIndex i header newValue id
                Hcell Hidle Hfound Hcoerce Hid Hdone) as Hdocs.
  apply find_original_bound in Hfound. simpl in Hfound.
  destruct (lookup_lt_is_Some_2 (documents st) i (proj2 Hfound)) as [d Hd].
  unfold doc in *. rewrite Hd in Hdocs. simpl in Hdocs.
  rewrite !tableHeaders_first_seen. split.
  - apply NoDup_Permutation; [apply NoDup_first_seen | apply NoDup_first_seen |].
    intros name. rewrite !elem_of_first_seen, !elem_of_all_keys, Hdocs.
    rewrite tableHeaders_first_seen, elem_of_first_seen, elem_of_all_keys in Hcolumn.
    split; (intros [->|(d' & Hd' & Hname)]; [by left|]).
    + apply list_elem_of_lookup in Hd' as [j Hj].
      destruct (decide (i = j)) as [<-|Hne].
      * rewrite list_lookup_insert_eq in Hj by apply Hfound. injection Hj as <-.
        apply keys_set_property in Hname as [->|Hname]; [done|].
        right. exists d. split; [|done]. by apply list_elem_of_lookup_2 with i.
      * rewrite list_lookup_insert_ne in Hj by done.
        right. exists d'. split; [|done]. by apply list_elem_of_lookup_2 with j.
    + right. apply list_elem_of_lookup in Hd' as [j Hj].
      destruct (decide (i = j)) as [<-|Hne].
      * rewrite Hd in Hj. injection Hj as <-.
        exists (set_property header newValue d). split.
        -- apply list_elem_of_lookup_2 with i.
           by rewrite list_lookup_insert_eq by apply Hfound.
        -- apply keys_set_property. by right.
      * exists d'. split; [|done]. apply list_elem_of_lookup_2 with j.
        by rewrite list_lookup_insert_ne.
  - intros Hpresent. unfold all_keys. do 3 f_equal. rewrite Hdocs.
    unfold reference in Hpresent. unfold doc in *.
    rewrite Hd in Hpresent. simpl in Hpresent.
    assert (Hhas : has_property header d = true).
    { unfold has_property. by destruct (get_property header d). }
    destruct (set_property_get header newValue d) as (_ & _ & Hkeys & _).
    apply list_eq. intros j. rewrite !list_lookup_fmap.
    destruct (decide (i = j)) as [<-|Hne].
    + rewrite list_lookup_insert_eq by apply Hfound. rewrite Hd. simpl.
      by rewrite Hkeys.
    + by rewrite list_lookup_insert_ne.
Qed.

Lemma X6_commit_keeps_columns_witness :
  let st := editing "age" "7" users in
  tableHeaders st = ["_id"; "name"; "age"]
  /\ tableHeaders (after (saveEdit agreeable) st) ≡ₚ tableHeaders st
  /\ documents (after (saveEdit agreeable) st) !! 0%nat
     = Some [("_id", identifier "A"); ("name", VStr "Bob"); ("age", VStr "7")].
Proof.
  intros st. split; [reflexivity|]. split; [|reflexivity].
  apply (X6_commit_keeps_columns agreeable st 0 0 "age" (VStr "7") (Some (VStr "A"))
           eq_refl eq_refl eq_refl eq_refl eq_refl eq_refl).
  change (tableHeaders st) with ["_id"; "name"; "age"].
  right. right. left.
Defined.

(** The order of the columns can change: the field [age], new to the first
    record, moves before [zip]. *)
Example commit_moves_column :
  let st := editing "age" "7" mixed in
  tableHeaders st = ["_id"; "name"; "zip"; "age"]
  /\ tableHeaders (after (saveEdit agreeable) st) = ["_id"; "name"; "age"; "zip"].
Proof. by vm_compute. Qed.

(** ** Commits that do nothing *)

Lemma saveEdit_guard (h : host) (st : state) :
  editingCell st = None \/ isSaving st = true ->
  saveEdit h st = (Ok tt, st, []).
Proof.
  intros Hguard. unfold saveEdit, bind, get. simpl.
  destruct Hguard as [-> | Hsaving]; [done|].
  destruct (editingCell st) as [[rowIndex header]|]; [|done].
  by rewrite Hsaving.
Qed.

(** X7: while a commit is under way, or when no cell is being edited,
    [saveEdit] does nothing: it calls nothing and changes nothing. *)
Theorem X7_commit_guard (h : host) (st : state)
  (Hguard : editingCell st = None \/ isSaving st = true) :
  saveEdit h st = (Ok tt, st, []).
Proof. by apply saveEdit_guard. Qed.

Lemma X7_commit_guard_witness :
  saveEdit agreeable one_record = (Ok tt, one_record, [])
  /\ saveEdit agreeable (set_isSaving true (editing "name" "Rob" one_record))
     = (Ok tt, set_isSaving true (editing "name" "Rob" one_record), []).
Proof.
  split.
  - exact (X7_commit_guard agreeable one_record (or_introl eq_refl)).
  - exact (X7_commit_guard agreeable
             (set_isSaving true (editing "name" "Rob" one_record)) (or_intror eq_refl)).
Defined.

(** A handler that is not a commit under way leaves the saving flag. *)
Lemma fetchDocuments_isSaving (h : host) (st : state) :
  isSaving (after (fetchDocuments h) st) = isSaving st
  /\ existsb is_update (effects (fetchDocuments h) st) = false.
Proof.
  unfold after, effects, fetchDocuments, bind, get, modify, try_finally, try_catch,
    await, emit, ret, throw. simpl.
  destruct (JSON_parse (filterQuery st)) as [filter|e]; simpl; [|done].
  destruct (on_find_documents h (collectionName st) filter) as [found|e]; simpl; [done|].
  by destruct (includes (message_of e) sentinel).
Qed.

Lemma fetchCollections_isSaving (h : host) (st : state) :
  isSaving (after (fetchCollections h) st) = isSaving st
  /\ existsb is_update (effects (fetchCollections h) st) = false.
Proof.
  unfold after, effects, fetchCollections, bind, get, modify, try_catch,
    await, emit, ret, throw. simpl.
  destruct (on_list_collections h) as [names|e]; simpl.
  - by destruct (_ && _).
  - by destruct (includes (message_of e) sentinel).
Qed.

Lemma deleteDocument_isSaving (h : host) (id : string) (st : state) :
  isSaving (after (deleteDocument h id) st) = isSaving st
  /\ existsb is_update (effects (deleteDocument h id) st) = false.
Proof.
  pose proof (fetchDocuments_isSaving h st) as [Hflag Hcalls].
  unfold after, effects in *.
  unfold deleteDocument, bind, get, modify, try_catch, await, emit, ret, throw. simpl.
  destruct (on_confirm h _); simpl; [|done].
  destruct (on_delete_document h (collectionName st) id) as [[|]|e]; simpl; try done.
  destruct (fetchDocuments h st) as [[[u|e] st1] t1]; simpl in *;
    by rewrite ?app_nil_r.
Qed.

Lemma handle_while_saving (h : host) (e : event) (st : state) :
  isSaving st = true ->
  isSaving (after (handle h e) st) = true
  /\ existsb is_update (effects (handle h e) st) = false.
Proof.
  intros Hsaving. destruct e; simpl;
    try (by unfold after, effects, modify; simpl).
  - unfold after, effects, modify, handleCellClick. simpl.
    by destruct (String.eqb header "_id").
  - unfold after, effects. by rewrite saveEdit_guard by (by right).
  - destruct (deleteDocument_isSaving h id st) as [-> ->]. by rewrite Hsaving.
  - destruct (fetchDocuments_isSaving h st) as [-> ->]. by rewrite Hsaving.
  - destruct (fetchCollections_isSaving h st) as [-> ->]. by rewrite Hsaving.
Qed.

Lemma run_while_saving (events : list (host * event)) : forall st,
  isSaving st = true ->
  isSaving (fst (run events st)) = true
  /\ existsb is_update (snd (run events st)) = false.
Proof.
  induction events as [|[h e] events IH]; intros st Hsaving; [done|].
  destruct (handle_while_saving h e st Hsaving) as [Hflag Hcalls].
  unfold after, effects in Hflag, Hcalls. simpl.
  destruct (handle h e st) as [[r st1] t1]. simpl in Hflag, Hcalls.
  destruct (IH st1 Hflag) as [Hflag' Hcalls'].
  destruct (run events st1) as [st2 t2]. simpl in *.
  by rewrite existsb_app, Hcalls, Hcalls'.
Qed.

(** X8: a commit whose lookup finds no record returns with the saving flag
    still set, and nothing clears it: whatever the user and the host do
    afterwards, the flag stays set and no update is ever sent again. *)
Theorem X8_lookup_failure_blocks_commits (h : host) (st : state) (rowIndex : nat)
  (header : string) (events : list (host * event))
  (Hcell : editingCell st = Some (rowIndex, header))
  (Hidle : isSaving st = false)
  (Hnone : originalDoc st rowIndex = Ok None) :
  isSaving (after (saveEdit h) st) = true
  /\ isSaving (fst (run events (after (saveEdit h) st))) = true
  /\ existsb is_update (snd (run events (after (saveEdit h) st))) = false.
Proof.
  assert (Hrun : after (saveEdit h) st = set_isSaving true st).
  { unfold after, saveEdit, bind, get, modify, lift. rewrite Hcell, Hidle. simpl.
    by rewrite Hnone. }
  rewrite Hrun. split; [done|]. by apply run_while_saving.
Qed.

Lemma X8_lookup_failure_blocks_commits_witness :
  let st := editing "city" "Oslo" initial in
  let later := [(agreeable, Refresh); (agreeable, CellClick 0 "name" (Some (VStr "Bob")));
                (agreeable, EditInput "Rob"); (agreeable, Commit)] in
  documents (fst (run later (after (saveEdit agreeable) st))) = [bob]
  /\ isSaving (fst (run later (after (saveEdit agreeable) st))) = true
  /\ existsb is_update (snd (run later (after (saveEdit agreeable) st))) = false.
Proof.
  intros st later. split; [reflexivity|].
  exact (proj2 (X8_lookup_failure_blocks_commits agreeable st 0 "city" later
                  eq_refl eq_refl eq_refl)).
Defined.

(** ** The loaders *)

Lemma fetchDocuments_resolved (h : host) (st : state) (filter : value) (found : list doc) :
  JSON_parse (filterQuery st) = Ok filter ->
  on_find_documents h (collectionName st) filter = Resolve found ->
  fetchDocuments h st =
    (Ok tt,
     set_isLoading false
       (set_currentPage 1
          (set_documents found (set_errorMessage "" (set_isLoading true st)))),
     [invoke (find_documents (collectionName st) filter)]).
Proof.
  intros Hfilter Hfound.
  unfold fetchDocuments, bind, get, modify, try_finally, try_catch, await, emit. simpl.
  rewrite Hfilter. simpl. by rewrite Hfound.
Qed.

(** X9: a fetch that succeeds calls the host once with the parsed filter,
    replaces the records by the answer, clears the error, and shows the
    first page: the first [pageSize] records of the answer, whether
    [pageSize] holds a number or a text. *)
Theorem X9_fetch_shows_first_page (h : host) (st : state) (filter : value)
  (found : list doc)
  (Hsize : 0 < ToNumber_size (pageSize st))
  (Hfilter : JSON_parse (filterQuery st) = Ok filter)
  (Hfound : on_find_documents h (collectionName st) filter = Resolve found) :
  let st' := after (fetchDocuments h) st in
  effects (fetchDocuments h) st = [invoke (find_documents (collectionName st) filter)]
  /\ documents st' = found
  /\ errorMessage st' = ""
  /\ isLoading st' = false
  /\ paginatedDocuments st' = take (Z.to_nat (ToNumber_size (pageSize st))) found.
Proof.
  intros st'. unfold st', effects, after.
  rewrite (fetchDocuments_resolved h st filter found) by done.
  split_and!; try done.
  cbn [fst snd].
  set (st1 := set_isLoading false _).
  assert (Hpage : currentPage st1 = 1) by done.
  assert (Hstart : page_start st1 = 0) by (unfold page_start; rewrite Hpage; lia).
  rewrite paginatedDocuments_take_drop by (simpl; lia).
  rewrite (page_end_first st1 Hpage), Hstart. simpl. by rewrite drop_0, Z.sub_0_r.
Qed.

Lemma X9_fetch_shows_first_page_witness :
  let h := answering (Resolve (replicate 11 bob)) (Resolve []) (Resolve true)
                     (Resolve true) true in
  documents (after (fetchDocuments h) (onPageChange 4 one_record)) = replicate 11 bob
  /\ paginatedDocuments (after (fetchDocuments h) (onPageChange 4 one_record))
     = replicate 10 bob.
Proof.
  intros h.
  pose proof (X9_fetch_shows_first_page h (onPageChange 4 one_record) (VObj [])
                (replicate 11 bob) eq_refl eq_refl eq_refl) as (_ & H1 & _ & _ & H2).
  split; [exact H1 | exact H2].
Defined.

(** X10: a filter text that is not JSON stops the fetch before any call:
    the parse error is shown, and the records and the current page stay as
    they were. *)
Theorem X10_invalid_filter_calls_nothing (h : host) (st : state) (error : thrown)
  (Hfilter : JSON_parse (filterQuery st) = Throw error) :
  let st' := after (fetchDocuments h) st in
  effects (fetchDocuments h) st = []
  /\ errorMessage st' = ("Invalid filter JSON: " ++ ToString_thrown error)%string
  /\ documents st' = documents st
  /\ currentPage st' = currentPage st
  /\ isLoading st' = false.
Proof.
  intros st'. unfold st', effects, after.
  unfold fetchDocuments, bind, get, modify, try_finally, try_catch. simpl.
  by rewrite Hfilter.
Qed.

Lemma X10_invalid_filter_calls_nothing_witness :
  let st := set_filterQuery "{name:" one_record in
  effects (fetchDocuments agreeable) st = []
  /\ errorMessage (after (fetchDocuments agreeable) st)
     = "Invalid filter JSON: SyntaxError: JSON Parse error"
  /\ documents (after (fetchDocuments agreeable) st) = [bob].
Proof.
  intros st.
  pose proof (X10_invalid_filter_calls_nothing agreeable st syntax_error eq_refl)
    as (H1 & H2 & H3 & _).
  exact (conj H1 (conj H2 H3)).
Defined.

Lemma fetchDocuments_frame (h : host) (st : state) :
  let st' := after (fetchDocuments h) st in
  completion (fetchDocuments h) st = Ok tt
  /\ isLoading st' = false
  /\ (length (commands (effects (fetchDocuments h) st)) <= 1)%nat
  /\ editingCell st' = editingCell st
  /\ editValue st' = editValue st
  /\ isSaving st' = isSaving st
  /\ pageSize st' = pageSize st
  /\ filterQuery st' = filterQuery st
  /\ collectionName st' = collectionName st
  /\ collectionsList st' = collectionsList st.
Proof.
  intros st'. unfold st', completion, effects, after.
  unfold fetchDocuments, bind, get, modify, try_finally, try_catch, await, emit,
    ret, throw. simpl.
  destruct (JSON_parse (filterQuery st)) as [filter|e]; simpl;
    [|split_and!; simpl; (done || lia)].
  destruct (on_find_documents h (collectionName st) filter) as [found|e]; simpl;
    [split_and!; simpl; (done || lia)|].
  destruct (includes (message_of e) sentinel); simpl; split_and!; simpl; (done || lia).
Qed.

(** X11: however a fetch ends, it lets no exception escape, the loading
    flag is cleared, at most one command is sent to the host, and the edit
    session, the page size, the filter text, the collection name and the
    list of collections are as they were. *)
Theorem X11_fetch_frame (h : host) (st : state) :
  let st' := after (fetchDocuments h) st in
  completion (fetchDocuments h) st = Ok tt
  /\ isLoading st' = false
  /\ (length (commands (effects (fetchDocuments h) st)) <= 1)%nat
  /\ editingCell st' = editingCell st
  /\ editValue st' = editValue st
  /\ isSaving st' = isSaving st
  /\ pageSize st' = pageSize st
  /\ filterQuery st' = filterQuery st
  /\ collectionName st' = collectionName st
  /\ collectionsList st' = collectionsList st.
Proof. apply fetchDocuments_frame. Qed.

Lemma existsb_eqb_elem_of (x : string) (l : list string) :
  existsb (String.eqb x) l = true <-> x ∈ l.
Proof.
  rewrite existsb_exists, list_elem_of_In. split.
  - intros (y & Hy & Heq). apply String.eqb_eq in Heq. by subst.
  - intros Hx. exists x. split; [done | apply String.eqb_refl].
Qed.

(** X12: a load of the collection names that succeeds replaces the list;
    the selected collection is kept when it is in the list or the list is
    empty, and otherwise becomes the first name, which queues a fetch.
    Afterwards the selected collection is one of a non-empty list. *)
Theorem X12_collections_selection (h : host) (st : state) (names : list string)
  (Hnames : on_list_collections h = Resolve names) :
  let st' := after (fetchCollections h) st in
  collectionsList st' = names
  /\ (names = [] \/ collectionName st ∈ names ->
      collectionName st' = collectionName st
      /\ effects (fetchCollections h) st = [invoke list_collections])
  /\ (forall first rest, names = first :: rest -> collectionName st ∉ names ->
      collectionName st' = first
      /\ effects (fetchCollections h) st = [invoke list_collections; watcher FetchDocuments])
  /\ (names <> [] -> collectionName st' ∈ names)
  /\ documents st' = documents st
  /\ errorMessage st' = errorMessage st.
Proof.
  intros st'. unfold st', effects, after.
  unfold fetchCollections, bind, get, modify, try_catch, await, emit, ret. simpl.
  rewrite Hnames. simpl.
  destruct (existsb (String.eqb (collectionName st)) names) eqn:Hin.
  - apply existsb_eqb_elem_of in Hin. rewrite andb_false_r. simpl.
    split_and!; try done; intros; done.
  - assert (Hout : collectionName st ∉ names).
    { intros H%existsb_eqb_elem_of. by rewrite H in Hin. }
    destruct names as [|first rest]; simpl.
    + split_and!; try done.
    + split_and!; try done.
      * intros [?|?]; done.
      * intros first' rest' Heq _. by injection Heq as <- <-.
      * intros _. left.
Qed.

Lemma X12_collections_selection_witness :
  let h := answering (Resolve []) (Resolve ["orders"; "users2"]) (Resolve true)
                     (Resolve true) true in
  collectionName (after (fetchCollections h) initial) = "orders"
  /\ effects (fetchCollections h) initial = [invoke list_collections; watcher FetchDocuments]
  /\ collectionName (after (fetchCollections agreeable) initial) = "users".
Proof.
  intros h.
  pose proof (X12_collections_selection h initial ["orders"; "users2"] eq_refl)
    as (_ & _ & H & _).
  destruct (H "orders" ["users2"] eq_refl) as [H1 H2].
  { intros Hin. vm_compute in Hin.
    repeat (apply elem_of_cons in Hin as [Hin|Hin]; [discriminate Hin|]).
    by apply elem_of_nil in Hin. }
  pose proof (X12_collections_selection agreeable initial ["users"] eq_refl)
    as (_ & H3 & _).
  split; [exact H1|]. split; [exact H2|].
  apply H3. right. left.
Defined.

(** ** Deleting *)

(** X13: when the user declines the confirmation, nothing is sent to the
    host and nothing changes. *)
Theorem X13_delete_declined (h : host) (st : state) (id : string)
  (Hno : on_confirm h "Are you sure you want to delete this document?" = false) :
  deleteDocument h id st
  = (Ok tt, st, [confirm "Are you sure you want to delete this document?"]).
Proof.
  unfold deleteDocument, bind, emit. simpl. by rewrite Hno.
Qed.

Lemma X13_delete_declined_witness :
  deleteDocument refusing "a1" one_record
  = (Ok tt, one_record, [confirm "Are you sure you want to delete this document?"]).
Proof. exact (X13_delete_declined refusing one_record "a1" eq_refl). Defined.

(** X14: a delete that the host reports done removes no row locally: it
    runs the full fetch, and the grid ends as that fetch leaves it. *)
Theorem X14_delete_refetches (h : host) (st : state) (id : string)
  (Hyes : on_confirm h "Are you sure you want to delete this document?" = true)
  (Hdone : on_delete_document h (collectionName st) id = Resolve true) :
  after (deleteDocument h id) st = after (fetchDocuments h) st
  /\ effects (deleteDocument h id) st =
       confirm "Are you sure you want to delete this document?"
       :: invoke (delete_document (collectionName st) id)
       :: effects (fetchDocuments h) st.
Proof.
  pose proof (proj1 (fetchDocuments_frame h st)) as Hok.
  unfold after, effects, completion in *.
  unfold deleteDocument, bind, get, try_catch, await, emit. simpl.
  rewrite Hyes. simpl. rewrite Hdone. simpl.
  destruct (fetchDocuments h st) as [[r st1] t1]. simpl in *. by rewrite Hok.
Qed.

Lemma X14_delete_refetches_witness :
  let h := answering (Resolve []) (Resolve []) (Resolve true) (Resolve true) true in
  documents (after (deleteDocument h "a1") one_record) = []
  /\ effects (deleteDocument h "a1") one_record =
       [confirm "Are you sure you want to delete this document?";
        invoke (delete_document "users" "a1");
        invoke (find_documents "users" (VObj []))].
Proof.
  intros h.
  destruct (X14_delete_refetches h one_record "a1" eq_refl eq_refl) as [H1 H2].
  split; [by rewrite H1 | exact H2].
Defined.

(** X15: a delete that the host rejects shows the error and fetches
    nothing: the records stay as they were. *)
Theorem X15_delete_rejected (h : host) (st : state) (id : string) (error : thrown)
  (Hyes : on_confirm h "Are you sure you want to delete this document?" = true)
  (Hfail : on_delete_document h (collectionName st) id = Reject error) :
  errorMessage (after (deleteDocument h id) st)
    = ("Error deleting document: " ++ ToString_thrown error)%string
  /\ documents (after (deleteDocument h id) st) = documents st
  /\ effects (deleteDocument h id) st =
       [confirm "Are you sure you want to delete this document?";
        invoke (delete_document (collectionName st) id)].
Proof.
  unfold after, effects.
  unfold deleteDocument, bind, get, modify, try_catch, await, emit, throw. simpl.
  rewrite Hyes. simpl. by rewrite Hfail.
Qed.

Lemma X15_delete_rejected_witness :
  let h := answering (Resolve []) (Resolve []) (Resolve true) (Reject refused) true in
  errorMessage (after (deleteDocument h "a1") one_record)
    = "Error deleting document: connection refused"
  /\ documents (after (deleteDocument h "a1") one_record) = [bob].
Proof.
  intros h.
  destruct (X15_delete_rejected h one_record "a1" refused eq_refl eq_refl)
    as (H1 & H2 & _).
  split; [exact H1 | exact H2].
Defined.

Section quoting.

Lemma parse_map_compose {A B C : Type} (f : A -> B) (g : B -> C) (p : parse A) :
  parse_map g (parse_map f p) = parse_map (fun a => g (f a)) p.
Proof. by destruct p. Qed.

Lemma parse_map_ext {A B : Type} (f g : A -> B) (p : parse A) :
  (forall a, f a = g a) -> parse_map f p = parse_map g p.
Proof. intros H. destruct p; simpl; by rewrite ?H. Qed.

Lemma read_string_plain (c : ascii) (s : string) :
  (32 <=? code c)%N = true -> (code c =? 34)%N = false -> (code c =? 92)%N = false ->
  read_string (String c s) = parse_map (String c) (read_string s).
Proof.
  intros H1 H2 H3. cbn [read_string]. cbv zeta. rewrite H2, H3.
  apply N.leb_le in H1. destruct (N.ltb_spec (code c) 32); [lia|done].
Qed.

Lemma read_string_simple_escape (e : ascii) (t s : string) :
  (code e =? 117)%N = false -> simple_escape e = Some t ->
  read_string (String (ascii_of_N 92) (String e s)) = parse_map (append t) (read_string s).
Proof.
  intros H1 H2. cbn [read_string]. cbv zeta.
  change (code (ascii_of_N 92)) with 92%N. simpl N.eqb. simpl N.ltb. cbv iota.
  by rewrite H1, H2.
Qed.

Lemma read_string_unicode (h1 h2 h3 h4 : ascii) (u : N) (s : string) :
  code_unit h1 h2 h3 h4 = Some u -> is_high_surrogate u = false ->
  read_string (String (ascii_of_N 92) (String (ascii_of_N 117)
                 (String h1 (String h2 (String h3 (String h4 s))))))
  = parse_map (append (utf8 u)) (read_string s).
Proof.
  intros Hu Hhigh. cbn [read_string]. cbv zeta.
  change (code (ascii_of_N 92)) with 92%N. change (code (ascii_of_N 117)) with 117%N.
  simpl N.eqb. simpl N.ltb. cbv iota. rewrite Hu, Hhigh.
  repeat match goal with
  | |- context [match ?x with _ => _ end] =>
      match type of x with
      | string => destruct x
      | option _ => destruct x
      end
  end; rewrite ?andb_false_r; reflexivity.
Qed.

Lemma read_string_quote_chars (s : string) : forall tail,
  read_string (quote_chars s ++ tail) = parse_map (append s) (read_string tail).
Proof.
  induction s as [|c s IH]; intros tail.
  - change (read_string tail = parse_map (append EmptyString) (read_string tail)).
    destruct (read_string tail); reflexivity.
  - cbn [quote_chars]. rewrite append_assoc.
    transitivity (parse_map (String c) (read_string (quote_chars s ++ tail)%string)).
    + generalize (quote_chars s ++ tail)%string. intros rest.
      destruct c as [[] [] [] [] [] [] [] []];
        match goal with
        | |- read_string (quote_char ?C ++ _) = _ =>
            let q := eval vm_compute in (quote_char C) in
            change (quote_char C) with q
        end;
        rewrite ?append_cons, ?append_nil_l;
        first [ by apply read_string_plain
              | match goal with
                | |- read_string (String _ (String ?e _)) = _ =>
                    let t := eval vm_compute in (simple_escape e) in
                    match t with
                    | Some ?t' =>
                        transitivity (parse_map (append t') (read_string rest));
                        [by apply read_string_simple_escape | reflexivity]
                    end
                end
              | match goal with
                | |- read_string (String _ (String _ (String ?h1 (String ?h2
                                    (String ?h3 (String ?h4 _)))))) = _ =>
                    let u := eval vm_compute in (code_unit h1 h2 h3 h4) in
                    match u with
                    | Some ?n =>
                        transitivity (parse_map (append (utf8 n)) (read_string rest));
                        [by apply read_string_unicode | reflexivity]
                    end
                end ].
    + rewrite IH, parse_map_compose. by apply parse_map_ext.
Qed.

Lemma read_string_quoted (s rest : string) :
  read_string (quote_chars s ++ double_quote ++ rest) = Parsed s rest.
Proof.
  rewrite read_string_quote_chars.
  change (read_string (double_quote ++ rest)) with (@Parsed string EmptyString rest).
  simpl. by rewrite append_nil_r.
Qed.
End quoting.


Section digit_strings.
Implicit Types (d s r : string) (k : nat).

Lemma all_digits_app d s : all_digits (d ++ s) = all_digits d && all_digits s.
Proof.
  induction d as [|c d IH]; [done|]. rewrite append_cons. simpl.
  by rewrite IH, andb_assoc.
Qed.

Lemma all_digits_zeros k : all_digits (repeat_char "0" k) = true.
Proof. induction k; simpl; done. Qed.

Lemma length_repeat_char (c : ascii) k : String.length (repeat_char c k) = k.
Proof. induction k; simpl; by f_equal. Qed.

Lemma take_drop_chars k d : (take_chars k d ++ drop_chars k d)%string = d.
Proof.
  revert d. induction k as [|k IH]; intros [|c d]; simpl; try done.
  by rewrite append_cons, IH.
Qed.

Lemma length_take_chars k d :
  (k <= String.length d)%nat -> String.length (take_chars k d) = k.
Proof.
  revert d. induction k as [|k IH]; intros [|c d]; simpl; try done; try lia.
  intros H. f_equal. apply IH. lia.
Qed.

Lemma span_digits_app d r :
  all_digits d = true -> head_digit r = false -> span_digits (d ++ r) = (d, r).
Proof.
  intros Hd Hr. induction d as [|c d IH].
  - rewrite append_nil_l. destruct r as [|c r]; [done|]. simpl in *. by rewrite Hr.
  - rewrite append_cons. simpl in *. apply andb_prop in Hd as [-> Hd].
    by rewrite IH.
Qed.

Lemma length_strip_leading_zeros s :
  (String.length (strip_leading_zeros s) <= String.length s)%nat.
Proof.
  induction s as [|c s IH]; [done|].
  destruct c as [[] [] [] [] [] [] [] []]; simpl; lia.
Qed.

Lemma strip_leading_zeros_app d s :
  d <> EmptyString -> strip_leading_zeros d = d ->
  strip_leading_zeros (d ++ s) = (d ++ s)%string.
Proof.
  intros Hne Hd. destruct d as [|c d]; [done|]. rewrite append_cons.
  destruct c as [[] [] [] [] [] [] [] []]; try done.
  simpl in Hd. pose proof (length_strip_leading_zeros d) as Hlen.
  rewrite Hd in Hlen. simpl in Hlen. lia.
Qed.

Lemma strip_leading_zeros_zeros k s :
  strip_leading_zeros (repeat_char "0" k ++ s) = strip_leading_zeros s.
Proof.
  induction k as [|k IH]; [done|].
  change (repeat_char "0" (S k)) with (String "0" (repeat_char "0" k)).
  by rewrite append_cons.
Qed.

Lemma string_rev_app s r : string_rev (s ++ r) = (string_rev r ++ string_rev s)%string.
Proof.
  induction s as [|c s IH].
  - by rewrite append_nil_l, append_nil_r.
  - rewrite append_cons. simpl. by rewrite IH, append_assoc.
Qed.

Lemma string_rev_zeros k : string_rev (repeat_char "0" k) = repeat_char "0" k.
Proof.
  induction k as [|k IH]; [done|]. simpl. rewrite IH.
  clear IH. induction k as [|k IH]; [done|]. simpl. by rewrite append_cons, IH.
Qed.

Lemma strip_trailing_zeros_zeros d k :
  strip_trailing_zeros (d ++ repeat_char "0" k) = strip_trailing_zeros d.
Proof.
  unfold strip_trailing_zeros.
  by rewrite string_rev_app, string_rev_zeros, strip_leading_zeros_zeros.
Qed.

(** The number that a literal denotes, when its digits are the canonical
    digits [d] between zeros. *)
Lemma read_decimal_canonical (neg : bool) (int frac d : string) (e : Z) (j t : nat) :
  d <> EmptyString ->
  strip_leading_zeros d = d -> strip_trailing_zeros d = d ->
  (int ++ frac)%string = (repeat_char "0" j ++ d ++ repeat_char "0" t)%string ->
  read_decimal neg int frac e
  = Finite neg d (Z.of_nat (String.length int) - Z.of_nat j + e).
Proof.
  intros Hne Hlead Htrail Hall. unfold read_decimal. rewrite Hall.
  rewrite strip_leading_zeros_zeros, strip_leading_zeros_app by done.
  rewrite strip_trailing_zeros_zeros, Htrail.
  rewrite !length_append, length_repeat_char.
  destruct d as [|c d]; [done|]. do 2 f_equal. lia.
Qed.
End digit_strings.

Section literals.
Implicit Types (int frac expo d rest : string) (e : Z) (neg : bool).

Lemma exponent_head expo e rest :
  exponent_of expo e -> continues rest = false ->
  head_digit (expo ++ rest) = false
  /\ (forall (A : Type) (x : string -> A) (y : A),
        match (expo ++ rest)%string with
        | String "." r => x r
        | _ => y
        end = y).
Proof.
  intros [[-> _] | (m & [[-> _] | [-> _]])] Hrest.
  - rewrite append_nil_l. destruct rest as [|c rest]; [done|].
    unfold continues in Hrest. split.
    + simpl. by destruct (is_digit c).
    + intros A x y.
      destruct c as [[] [] [] [] [] [] [] []]; try done.
  - done.
  - done.
Qed.

Lemma read_exponent_of expo e rest :
  exponent_of expo e -> continues rest = false ->
  read_exponent (expo ++ rest) = (e, rest).
Proof.
  intros [[-> ->] | (m & [[-> ->] | [-> ->]])] Hrest.
  - rewrite append_nil_l. destruct rest as [|c rest]; [done|].
    unfold read_exponent. unfold continues in Hrest.
    destruct (code c =? 101)%N; [by rewrite !orb_true_r in Hrest|].
    destruct (code c =? 69)%N; [by rewrite !orb_true_r in Hrest|]. done.
  - destruct (decimal_of_N_digits m) as (Hd & Hne & Hv).
    assert (Hhead : head_digit rest = false).
    { destruct rest as [|c rest]; [done|]. simpl in *. by destruct (is_digit c). }
    rewrite append_assoc. unfold read_exponent.
    change ("e+" ++ decimal_of_N m ++ rest)%string
      with (String "e" (String "+" (decimal_of_N m ++ rest))).
    cbv iota beta. change (code "e") with 101%N. simpl orb. cbv iota.
    rewrite span_digits_app by done.
    destruct (decimal_of_N m); [done|]. by rewrite Hv.
  - destruct (decimal_of_N_digits m) as (Hd & Hne & Hv).
    assert (Hhead : head_digit rest = false).
    { destruct rest as [|c rest]; [done|]. simpl in *. by destruct (is_digit c). }
    rewrite append_assoc. unfold read_exponent.
    change ("e-" ++ decimal_of_N m ++ rest)%string
      with (String "e" (String "-" (decimal_of_N m ++ rest))).
    cbv iota beta. change (code "e") with 101%N. simpl orb. cbv iota.
    rewrite span_digits_app by done.
    destruct (decimal_of_N m); [done|]. by rewrite Hv.
Qed.
End literals.

Section parse_float.
Implicit Types (int frac expo d rest : string) (e : Z) (neg : bool).

Lemma parseFloat_unfold (input : string) :
  parseFloat input =
    let trimmed := trim_start input in
    let '(neg, unsigned) :=
      match trimmed with
      | String "-" r => (true, r)
      | String "+" r => (false, r)
      | _ => (false, trimmed)
      end in
    parse_unsigned neg unsigned.
Proof.
  unfold parseFloat, parse_unsigned.
  destruct (trim_start input) as [|[[] [] [] [] [] [] [] []] r]; reflexivity.
Qed.

Lemma trim_start_ascii (c : ascii) (s : string) :
  (code c <? 128)%N = true ->
  ((9 <=? code c) && (code c <=? 13) || (code c =? 32))%N = false ->
  trim_start (String c s) = String c s.
Proof.
  intros Hascii Hws. unfold trim_start. cbn [String.length trim_start_fuel].
  assert (Hnone : strip_white_space_char (String c s) = None); [|by rewrite Hnone].
  unfold strip_white_space_char. rewrite Hws.
  apply N.ltb_lt in Hascii.
  destruct (N.eqb_spec (code c) 194); [lia|].
  destruct (N.eqb_spec (code c) 225); [lia|].
  destruct (N.eqb_spec (code c) 226); [lia|].
  destruct (N.eqb_spec (code c) 227); [lia|].
  destruct (N.eqb_spec (code c) 239); [lia|].
  by destruct s as [|c1 [|c2 r2]].
Qed.

Lemma digit_head (c : ascii) :
  is_digit c = true ->
  (code c <? 128)%N = true
  /\ ((9 <=? code c) && (code c <=? 13) || (code c =? 32))%N = false
  /\ (code c =? 46)%N = false.
Proof.
  unfold is_digit. intros [H1 H2]%andb_prop.
  apply N.leb_le in H1, H2.
  split; [apply N.ltb_lt; lia|]. split.
  - destruct (N.leb_spec (code c) 13); [lia|].
    destruct (N.eqb_spec (code c) 32); [lia|]. by rewrite andb_false_r.
  - apply N.eqb_neq. lia.
Qed.

Lemma parse_unsigned_literal neg int frac expo e :
  all_digits int = true -> int <> EmptyString -> all_digits frac = true ->
  exponent_of expo e ->
  parse_unsigned neg (literal int frac expo) = read_decimal neg int frac e.
Proof.
  intros Hint Hne Hfrac Hexpo.
  destruct (exponent_head expo e EmptyString Hexpo eq_refl) as [Hhead Hdot].
  pose proof (read_exponent_of expo e EmptyString Hexpo eq_refl) as Hread.
  rewrite append_nil_r in Hhead, Hdot, Hread.
  unfold parse_unsigned, literal.
  assert (Hinf : String.prefix "Infinity" (int ++ match frac with
                                                  | EmptyString => EmptyString
                                                  | _ => "." ++ frac
                                                  end ++ expo) = false).
  { destruct int as [|c int]; [done|]. simpl in Hint. apply andb_prop in Hint as [Hc _].
    rewrite append_cons. simpl.
    destruct c as [[] [] [] [] [] [] [] []]; done. }
  rewrite Hinf. destruct frac as [|f frac].
  - rewrite append_nil_l, span_digits_app by done.
    rewrite Hdot. destruct int; [done|]. by rewrite Hread.
  - rewrite span_digits_app by done.
    change ("." ++ String f frac)%string with (String "." (String f frac)).
    rewrite append_cons. cbv iota beta.
    rewrite span_digits_app by done.
    destruct int; [done|]. by rewrite Hread.
Qed.

Lemma parseFloat_literal neg int frac expo e :
  all_digits int = true -> int <> EmptyString -> all_digits frac = true ->
  exponent_of expo e ->
  parseFloat ((if neg then "-" else "") ++ literal int frac expo)
  = read_decimal neg int frac e.
Proof.
  intros Hint Hne Hfrac Hexpo. rewrite parseFloat_unfold.
  destruct neg.
  - change ("-" ++ literal int frac expo)%string with (String "-" (literal int frac expo)).
    rewrite trim_start_ascii by done. cbv zeta iota beta.
    by apply parse_unsigned_literal.
  - rewrite append_nil_l.
    rewrite <- (parse_unsigned_literal false int frac expo e) by done.
    unfold literal. destruct int as [|c int]; [done|]. rewrite append_cons.
    simpl in Hint. apply andb_prop in Hint as [Hc _].
    destruct (digit_head c Hc) as (H1 & H2 & _).
    rewrite trim_start_ascii by done. cbv zeta.
    destruct c as [[] [] [] [] [] [] [] []]; done.
Qed.
End parse_float.

Section to_string.
Implicit Types (int frac expo d rest : string) (e p : Z) (neg : bool).

Lemma strip_leading_zeros_head (c : ascii) (s s' : string) :
  strip_leading_zeros (String c s) = String c s ->
  strip_leading_zeros (String c s') = String c s'.
Proof.
  intros H. destruct c as [[] [] [] [] [] [] [] []]; try done.
  simpl in H. pose proof (length_strip_leading_zeros s) as Hlen.
  rewrite H in Hlen. simpl in Hlen. lia.
Qed.

Lemma drop_chars_nonempty (k : nat) (d : string) :
  (k < String.length d)%nat -> drop_chars k d <> EmptyString.
Proof.
  intros Hk Hnil. pose proof (take_drop_chars k d) as Hd.
  apply (f_equal String.length) in Hd.
  rewrite length_append, Hnil, length_take_chars in Hd by lia. simpl in Hd. lia.
Qed.

(** The text of a finite number is a decimal literal that denotes it. *)
Lemma toString_literal neg d p :
  d <> EmptyString -> all_digits d = true ->
  strip_leading_zeros d = d -> strip_trailing_zeros d = d ->
  exists int frac expo e,
    Number_toString (Finite neg d p)
    = ((if neg then "-" else "") ++ literal int frac expo)%string
    /\ all_digits int = true /\ int <> EmptyString /\ all_digits frac = true
    /\ (int = "0"%string \/ strip_leading_zeros int = int)
    /\ exponent_of expo e
    /\ read_decimal neg int frac e = Finite neg d p.
Proof.
  intros Hne Hdigits Hlead Htrail.
  set (k := Z.of_nat (String.length d)).
  assert (Hk : 0 < k) by (destruct d; [done | unfold k; simpl; lia]).
  assert (Hshape : Number_toString (Finite neg d p)
    = ((if neg then "-" else "") ++
       (if ((k <=? p) && (p <=? 21))%Z
        then d ++ repeat_char "0" (Z.to_nat (p - k))
        else if ((0 <? p) && (p <=? 21))%Z then
          take_chars (Z.to_nat p) d ++ "." ++ drop_chars (Z.to_nat p) d
        else if ((-6 <? p) && (p <=? 0))%Z then
          "0." ++ repeat_char "0" (Z.to_nat (- p)) ++ d
        else
          let e := (p - 1)%Z in
          let exponent :=
            "e" ++ (if (e <? 0)%Z then "-" else "+")
                ++ decimal_of_N (Z.to_N (Z.abs e)) in
          if (k =? 1)%Z then d ++ exponent
          else take_chars 1 d ++ "." ++ drop_chars 1 d ++ exponent))%string).
  { destruct d; [done|]. reflexivity. }
  rewrite Hshape. clear Hshape.
  destruct ((k <=? p) && (p <=? 21)) eqn:HA.
  { (* digits and zeros *)
    apply andb_prop in HA as [H1%Z.leb_le H2%Z.leb_le].
    exists (d ++ repeat_char "0" (Z.to_nat (p - k)))%string, EmptyString, EmptyString, 0.
    split_and!.
    - unfold literal. by rewrite !append_nil_r.
    - by rewrite all_digits_app, Hdigits, all_digits_zeros.
    - destruct d; [done|]. by rewrite append_cons.
    - done.
    - right. by apply strip_leading_zeros_app.
    - by left.
    - rewrite (read_decimal_canonical neg _ _ d 0 0 (Z.to_nat (p - k))); try done.
      + f_equal. rewrite length_append, length_repeat_char. lia.
      + by rewrite append_nil_r. }
  destruct ((0 <? p) && (p <=? 21)) eqn:HB.
  { (* a point inside the digits *)
    apply andb_prop in HB as [H1%Z.ltb_lt H2%Z.leb_le].
    apply andb_false_iff in HA as [HA%Z.leb_gt | HA%Z.leb_gt]; [|lia].
    pose proof (take_drop_chars (Z.to_nat p) d) as Hsplit.
    assert (Hparts : all_digits (take_chars (Z.to_nat p) d) = true
                     /\ all_digits (drop_chars (Z.to_nat p) d) = true).
    { rewrite <- Hsplit, all_digits_app in Hdigits. by apply andb_prop in Hdigits. }
    exists (take_chars (Z.to_nat p) d), (drop_chars (Z.to_nat p) d), EmptyString, 0.
    assert (Hdrop : drop_chars (Z.to_nat p) d <> EmptyString)
      by (apply drop_chars_nonempty; lia).
    assert (Htake : take_chars (Z.to_nat p) d <> EmptyString).
    { intros Hnil. apply (f_equal String.length) in Hnil.
      rewrite length_take_chars in Hnil by lia. simpl in Hnil. lia. }
    split_and!; try tauto.
    - unfold literal. rewrite append_nil_r.
      by destruct (drop_chars (Z.to_nat p) d).
    - right. destruct d as [|c d]; [done|].
      destruct (Z.to_nat p) as [|n] eqn:Hn; [lia|]. simpl.
      by apply strip_leading_zeros_head with d.
    - by left.
    - rewrite (read_decimal_canonical neg _ _ d 0 0 0); try done.
      + f_equal. rewrite length_take_chars by lia. lia.
      + by rewrite Hsplit, append_nil_r. }
  destruct ((-6 <? p) && (p <=? 0)) eqn:HC.
  { (* zeros after the point *)
    apply andb_prop in HC as [H1%Z.ltb_lt H2%Z.leb_le].
    exists "0"%string, (repeat_char "0" (Z.to_nat (- p)) ++ d)%string, EmptyString, 0.
    split_and!; try done.
    - unfold literal. rewrite append_nil_r.
      destruct d as [|c d]; [done|].
      by destruct (repeat_char "0" (Z.to_nat (- p))).
    - by rewrite all_digits_app, all_digits_zeros.
    - by left.
    - by left.
    - rewrite (read_decimal_canonical neg _ _ d 0 (S (Z.to_nat (- p))) 0); try done.
      + f_equal. simpl String.length. lia.
      + by rewrite append_nil_r. }
  (* an exponent *)
  cbv zeta.
  set (expo := ("e" ++ (if (p - 1 <? 0)%Z then "-" else "+")
                    ++ decimal_of_N (Z.to_N (Z.abs (p - 1))))%string).
  assert (Hexpo : exponent_of expo (p - 1)).
  { right. exists (Z.to_N (Z.abs (p - 1))).
    destruct (Z.ltb_spec (p - 1) 0); [right | left]; (split; [done | lia]). }
  destruct (Z.eqb_spec k 1) as [Hone|Hmore].
  - exists d, EmptyString, expo, (p - 1).
    assert (Hall : (d ++ EmptyString)%string
                   = (repeat_char "0" 0 ++ d ++ repeat_char "0" 0)%string)
      by (by rewrite !append_nil_r).
    split_and!; try done.
    + by right.
    + rewrite (read_decimal_canonical neg d EmptyString d (p - 1) 0 0
                 Hne Hlead Htrail Hall).
      f_equal. fold k. lia.
  - pose proof (take_drop_chars 1 d) as Hsplit.
    assert (Hparts : all_digits (take_chars 1 d) = true
                     /\ all_digits (drop_chars 1 d) = true).
    { rewrite <- Hsplit, all_digits_app in Hdigits. by apply andb_prop in Hdigits. }
    assert (Hdrop : drop_chars 1 d <> EmptyString)
      by (apply drop_chars_nonempty; lia).
    assert (Hall : (take_chars 1 d ++ drop_chars 1 d)%string
                   = (repeat_char "0" 0 ++ d ++ repeat_char "0" 0)%string)
      by (by rewrite Hsplit, append_nil_r).
    exists (take_chars 1 d), (drop_chars 1 d), expo, (p - 1).
    split_and!; try tauto.
    + unfold literal. f_equal. by destruct (drop_chars 1 d).
    + by destruct d.
    + right. destruct d as [|c d]; [done|]. simpl.
      by apply strip_leading_zeros_head with d.
    + rewrite (read_decimal_canonical neg _ _ d (p - 1) 0 0 Hne Hlead Htrail Hall).
      f_equal. rewrite length_take_chars by lia. lia.
Qed.
End to_string.

Lemma canonical_finite (neg : bool) (c : ascii) (d : string) (p : Z) :
  canonical (Finite neg (String c d) p) = true ->
  all_digits (String c d) = true
  /\ strip_leading_zeros (String c d) = String c d
  /\ strip_trailing_zeros (String c d) = String c d.
Proof.
  unfold canonical. intros [[H1 H2]%andb_prop H3]%andb_prop.
  by apply String.eqb_eq in H2, H3.
Qed.

Lemma parseFloat_toString (n : number) :
  canonical n = true -> parseFloat (Number_toString n) = n.
Proof.
  intros Hcanonical.
  destruct n as [|[]|neg [|c d] p]; try reflexivity.
  - simpl in Hcanonical. apply andb_prop in Hcanonical as [Hneg Hp%Z.eqb_eq].
    destruct neg; [done|]. by subst.
  - destruct (canonical_finite neg c d p Hcanonical) as (Hdigits & Hlead & Htrail).
    destruct (toString_literal neg (String c d) p) as (int & frac & expo & e & Hs & H);
      try done.
    destruct H as (Hint & Hne & Hfrac & _ & Hexpo & Hvalue).
    rewrite Hs, <- Hvalue. by apply parseFloat_literal.
Qed.

(** X16: the text of a number reads back as that number: [parseFloat]
    undoes [String] on every canonical number ([NaN] and the infinities
    included; the negative zero, whose text is [0], is not canonical). *)
Theorem X16_number_text_round_trip (n : number) (Hcanonical : canonical n = true) :
  parseFloat (Number_toString n) = n.
Proof. by apply parseFloat_toString. Qed.

Lemma X16_number_text_round_trip_witness :
  Number_toString (Finite true "125" (-9)) = "-1.25e-10"
  /\ parseFloat "-1.25e-10" = Finite true "125" (-9)
  /\ parseFloat (Number_toString thirty) = thirty.
Proof.
  split; [reflexivity|]. split.
  - exact (X16_number_text_round_trip (Finite true "125" (-9)) eq_refl).
  - exact (X16_number_text_round_trip thirty eq_refl).
Defined.

Section read_number.
Implicit Types (int frac expo d rest : string) (e : Z) (neg : bool).

Lemma read_number_unfold (s : string) :
  read_number s =
    let '(neg, s1) :=
      match s with
      | String "-" r => (true, r)
      | _ => (false, s)
      end in
    read_unsigned neg s1.
Proof.
  unfold read_number, read_unsigned.
  destruct s as [|[[] [] [] [] [] [] [] []] r]; reflexivity.
Qed.

Lemma read_unsigned_literal neg int frac expo e rest :
  all_digits int = true -> int <> EmptyString -> all_digits frac = true ->
  int = "0"%string \/ strip_leading_zeros int = int ->
  exponent_of expo e -> continues rest = false ->
  read_unsigned neg (literal int frac expo ++ rest)
  = Parsed (read_decimal neg int frac e) rest.
Proof.
  intros Hint Hne Hfrac Hzero Hexpo Hrest.
  destruct (exponent_head expo e rest Hexpo Hrest) as [Hhead Hdot].
  pose proof (read_exponent_of expo e rest Hexpo Hrest) as Hread.
  unfold literal. rewrite !append_assoc.
  set (dotfrac := match frac with
                  | EmptyString => EmptyString
                  | _ => ("." ++ frac)%string
                  end).
  assert (Hdotfrac : head_digit (dotfrac ++ expo ++ rest) = false).
  { unfold dotfrac. destruct frac; [by rewrite append_nil_l | done]. }
  assert (Hfirst : match (int ++ dotfrac ++ expo ++ rest)%string with
                   | String "0" r => ("0"%string, r)
                   | _ => span_digits (int ++ dotfrac ++ expo ++ rest)
                   end = (int, (dotfrac ++ expo ++ rest)%string)).
  { destruct Hzero as [-> | Hlead]; [done|].
    rewrite <- (span_digits_app int (dotfrac ++ expo ++ rest)) by done.
    destruct int as [|c int]; [done|]. rewrite append_cons.
    destruct c as [[] [] [] [] [] [] [] []]; try reflexivity.
    simpl in Hlead. pose proof (length_strip_leading_zeros int) as Hlen.
    rewrite Hlead in Hlen. simpl in Hlen. lia. }
  unfold read_unsigned. rewrite Hfirst. clear Hfirst.
  destruct int as [|i0 int]; [done|].
  assert (Hfraction :
    match (dotfrac ++ expo ++ rest)%string with
    | String "." r =>
        let (f, r') := span_digits r in
        match f with
        | EmptyString => None
        | _ => Some (f, r')
        end
    | _ => Some (EmptyString, (dotfrac ++ expo ++ rest)%string)
    end = Some (frac, (expo ++ rest)%string)).
  { unfold dotfrac. destruct frac as [|f frac].
    - rewrite append_nil_l. apply Hdot.
    - change (("." ++ String f frac) ++ expo ++ rest)%string
        with (String "." (String f frac ++ expo ++ rest)).
      cbv iota beta. by rewrite span_digits_app. }
  rewrite Hfraction. clear Hfraction. cbv zeta iota beta.
  destruct Hexpo as [[-> ->] | (m & Hm)].
  - rewrite append_nil_l. destruct rest as [|c rest]; [done|].
    unfold continues in Hrest.
    destruct (code c =? 101)%N; [by rewrite !orb_true_r in Hrest|].
    destruct (code c =? 69)%N; [by rewrite !orb_true_r in Hrest|]. done.
  - rewrite Hread.
    assert (Hlen : (String.length rest <? String.length (expo ++ rest))%nat = true).
    { apply Nat.ltb_lt. rewrite length_append.
      destruct Hm as [[-> _] | [-> _]]; simpl; lia. }
    rewrite Hlen.
    by destruct Hm as [[-> _] | [-> _]].
Qed.

(** The text of a finite canonical number, read as a JSON number. *)
Lemma read_number_toString neg d p rest :
  d <> EmptyString -> canonical (Finite neg d p) = true -> continues rest = false ->
  read_number (Number_toString (Finite neg d p) ++ rest) = Parsed (Finite neg d p) rest.
Proof.
  intros Hne Hcanonical Hrest. destruct d as [|c d]; [done|].
  destruct (canonical_finite neg c d p Hcanonical) as (Hdigits & Hlead & Htrail).
  destruct (toString_literal neg (String c d) p) as (int & frac & expo & e & Hs & H);
    try done.
  destruct H as (Hint & Hne' & Hfrac & Hzero & Hexpo & Hvalue).
  rewrite Hs, <- Hvalue, read_number_unfold, append_assoc.
  rewrite <- (read_unsigned_literal neg int frac expo e rest) by done.
  destruct neg.
  - done.
  - rewrite append_nil_l. unfold literal.
    destruct int as [|i0 int]; [done|]. rewrite !append_cons.
    simpl in Hint. apply andb_prop in Hint as [Hi0 _].
    destruct i0 as [[] [] [] [] [] [] [] []]; done.
Qed.
End read_number.

Section serialize.

Lemma serialize_array (gap indent : string) (l : list value) :
  SerializeJSONProperty gap indent (VArr l)
  = wrap gap indent "[" "]" (map (SerializeJSONProperty gap (indent ++ gap)) l).
Proof. reflexivity. Qed.

Lemma serialize_object (gap indent : string) (props : list (string * value)) :
  SerializeJSONProperty gap indent (VObj props)
  = wrap gap indent "{" "}" (map (member_text gap (indent ++ gap)) props).
Proof. reflexivity. Qed.

Lemma value_induction (P : value -> Prop) :
  P VNull -> (forall b, P (VBool b)) -> (forall n, P (VNum n)) -> (forall s, P (VStr s)) ->
  (forall l, Forall P l -> P (VArr l)) ->
  (forall props, Forall (fun kv => P (snd kv)) props -> P (VObj props)) ->
  forall v, P v.
Proof.
  intros Hnull Hbool Hnum Hstr Harr Hobj.
  fix IH 1. intros [| b | n | s | l | props].
  - apply Hnull.
  - apply Hbool.
  - apply Hnum.
  - apply Hstr.
  - apply Harr. induction l as [|e l IHl]; constructor; [apply IH | apply IHl].
  - apply Hobj. induction props as [|[k v] props IHp]; constructor;
      [apply IH | apply IHp].
Qed.
End serialize.

Section parse_text.
Implicit Types (s r rest w : string) (fuel : nat).

Lemma skip_ws_blank w s : blank w = true -> skip_ws (w ++ s) = skip_ws s.
Proof.
  induction w as [|c w IH]; [done|]. intros [Hc Hw]%andb_prop.
  rewrite append_cons. cbn [skip_ws]. unfold blank_char in Hc. rewrite Hc. auto.
Qed.

Lemma skip_ws_value s : starts_value s = true -> skip_ws s = s.
Proof.
  destruct s as [|c s]; [done|]. simpl.
  intros [[Hc _]%andb_prop _]%andb_prop. unfold blank_char in Hc.
  by destruct (_ || _)%bool.
Qed.

Lemma follows_not_continues s : follows_value s = true -> continues s = false.
Proof.
  destruct s as [|c s]; [done|]. unfold follows_value, continues, blank_char, is_digit.
  intros H.
  destruct (N.eqb_spec (code c) 32), (N.eqb_spec (code c) 9), (N.eqb_spec (code c) 10),
    (N.eqb_spec (code c) 13), (N.eqb_spec (code c) 44), (N.eqb_spec (code c) 93),
    (N.eqb_spec (code c) 125); try done;
    destruct (N.leb_spec 48 (code c)), (N.leb_spec (code c) 57),
      (N.eqb_spec (code c) 46), (N.eqb_spec (code c) 101), (N.eqb_spec (code c) 69);
    simpl; try done; lia.
Qed.

Lemma parse_value_blank fuel w s :
  blank w = true -> parse_value fuel (w ++ s) = parse_value fuel s.
Proof.
  intros Hw. destruct fuel as [|fuel]; [done|].
  cbn [parse_value]. by rewrite skip_ws_blank.
Qed.

Lemma parse_elements_unfold fuel s acc :
  parse_elements (S fuel) s acc =
    match parse_value fuel s with
    | Parsed v r =>
        match skip_ws r with
        | String c r' =>
            if (code c =? 44)%N then parse_elements fuel r' (v :: acc)
            else if (code c =? 93)%N then Parsed (VArr (rev (v :: acc))) r'
            else Malformed
        | EmptyString => Malformed
        end
    | Malformed => Malformed
    | OutOfFuel => OutOfFuel
    end.
Proof. reflexivity. Qed.

Lemma parse_elements_blank fuel w s acc :
  blank w = true -> parse_elements fuel (w ++ s) acc = parse_elements fuel s acc.
Proof.
  intros Hw. destruct fuel as [|fuel]; [done|].
  by rewrite !parse_elements_unfold, parse_value_blank.
Qed.

Lemma parse_members_unfold fuel s acc :
  parse_members (S fuel) s acc =
    match skip_ws s with
    | String c r =>
        if (code c =? 34)%N then
          match read_string r with
          | Parsed key r1 =>
              match skip_ws r1 with
              | String c1 r2 =>
                  if (code c1 =? 58)%N then
                    match parse_value fuel r2 with
                    | Parsed v r3 =>
                        match skip_ws r3 with
                        | String c3 r4 =>
                            if (code c3 =? 44)%N
                            then parse_members fuel r4 (set_property key v acc)
                            else if (code c3 =? 125)%N
                            then Parsed (VObj (set_property key v acc)) r4
                            else Malformed
                        | EmptyString => Malformed
                        end
                    | Malformed => Malformed
                    | OutOfFuel => OutOfFuel
                    end
                  else Malformed
              | EmptyString => Malformed
              end
          | Malformed => Malformed
          | OutOfFuel => OutOfFuel
          end
        else Malformed
    | EmptyString => Malformed
    end.
Proof. reflexivity. Qed.

Lemma parse_members_blank fuel w s acc :
  blank w = true -> parse_members fuel (w ++ s) acc = parse_members fuel s acc.
Proof.
  intros Hw. destruct fuel as [|fuel]; [done|].
  by rewrite !parse_members_unfold, skip_ws_blank.
Qed.

Lemma parse_value_bracket fuel r :
  parse_value (S fuel) (String "[" r) =
    match skip_ws r with
    | String c' r' =>
        if (code c' =? 93)%N then Parsed (VArr []) r' else parse_elements fuel r []
    | EmptyString => Malformed
    end.
Proof. reflexivity. Qed.

Lemma parse_value_brace fuel r :
  parse_value (S fuel) (String "{" r) =
    match skip_ws r with
    | String c' r' =>
        if (code c' =? 125)%N then Parsed (VObj []) r' else parse_members fuel r []
    | EmptyString => Malformed
    end.
Proof. reflexivity. Qed.

Lemma parse_value_quote fuel r :
  parse_value (S fuel) (double_quote ++ r) = parse_map VStr (read_string r).
Proof. reflexivity. Qed.

Lemma parse_value_number fuel (c : ascii) s :
  code c = 45%N \/ is_digit c = true ->
  parse_value (S fuel) (String c s) = parse_map VNum (read_number (String c s)).
Proof.
  intros Hc.
  destruct c as [[] [] [] [] [] [] [] []];
    try reflexivity; by destruct Hc.
Qed.
End parse_text.

Section round_trip.
Implicit Types (s r rest w post gap indent : string) (fuel : nat) (v : value).

Lemma spaces_blank s : spaces s = true -> blank s = true.
Proof.
  induction s as [|c s IH]; [done|]. simpl. intros [Hc Hs]%andb_prop.
  unfold blank_char. rewrite Hc. simpl. auto.
Qed.

Lemma spaces_app s r : spaces s = true -> spaces r = true -> spaces (s ++ r) = true.
Proof.
  induction s as [|c s IH]; [done|]. intros [Hc Hs]%andb_prop Hr.
  rewrite append_cons. simpl. rewrite Hc. simpl. auto.
Qed.

Lemma blank_app s r : blank s = true -> blank r = true -> blank (s ++ r) = true.
Proof.
  induction s as [|c s IH]; [done|]. intros [Hc Hs]%andb_prop Hr.
  rewrite append_cons. simpl. rewrite Hc. simpl. auto.
Qed.

Lemma follows_blank post s :
  blank post = true -> follows_value s = true -> follows_value (post ++ s) = true.
Proof.
  destruct post as [|c post]; [done|]. intros [Hc _]%andb_prop _.
  rewrite append_cons. simpl. by rewrite Hc.
Qed.

Lemma set_property_appends key v (acc : list (string * value)) :
  appends key (map fst acc) = true -> set_property key v acc = acc ++ [(key, v)].
Proof.
  unfold appends, set_property. intros [Hnew Hindex]%andb_prop.
  apply negb_true_iff in Hnew.
  assert (Hhas : has_property key acc = false).
  { unfold has_property. clear Hindex.
    induction acc as [|[k x] acc IH]; [done|]. simpl in *.
    apply orb_false_elim in Hnew as [Hk Hacc].
    rewrite String.eqb_sym, Hk. auto. }
  rewrite Hhas. destruct (array_index key) as [n|]; [|done].
  clear Hnew Hhas. induction acc as [|[k x] acc IH]; [done|]. simpl in *.
  apply andb_prop in Hindex as [Hk Hacc].
  destruct (array_index k) as [m|]; [|done]. rewrite Hk. by rewrite IH.
Qed.

Lemma number_head neg d p :
  canonical (Finite neg d p) = true ->
  exists c s, Number_toString (Finite neg d p) = String c s
              /\ (code c = 45%N \/ is_digit c = true).
Proof.
  intros Hcanonical. destruct d as [|c d].
  - simpl in Hcanonical. apply andb_prop in Hcanonical as [Hneg Hp].
    destruct neg; [done|]. apply Z.eqb_eq in Hp as ->.
    exists "0"%char, EmptyString. split; [reflexivity | by right].
  - destruct (canonical_finite neg c d p Hcanonical) as (Hdigits & Hlead & Htrail).
    destruct (toString_literal neg (String c d) p) as (int & frac & expo & e & Hs & H);
      try done.
    destruct H as (Hint & Hne' & _). rewrite Hs. destruct neg.
    + eexists _, _. split; [reflexivity | by left].
    + rewrite append_nil_l. unfold literal. destruct int as [|i0 int]; [done|].
      rewrite append_cons. simpl in Hint. apply andb_prop in Hint as [Hi0 _].
      eexists _, _. split; [reflexivity | by right].
Qed.

Lemma parse_number_text fuel neg d p rest :
  canonical (Finite neg d p) = true -> follows_value rest = true ->
  parse_value (S fuel) (Number_toString (Finite neg d p) ++ rest)
  = Parsed (VNum (Finite neg d p)) rest.
Proof.
  intros Hcanonical Hrest. apply follows_not_continues in Hrest.
  destruct (number_head neg d p Hcanonical) as (c & s & Hs & Hc).
  transitivity (parse_map VNum (read_number (Number_toString (Finite neg d p) ++ rest))).
  { rewrite Hs, append_cons. by apply parse_value_number. }
  destruct d as [|c0 d].
  - simpl in Hcanonical. apply andb_prop in Hcanonical as [Hneg Hp].
    destruct neg; [done|]. apply Z.eqb_eq in Hp as ->.
    change (Number_toString (Finite false EmptyString 0)) with "0"%string.
    rewrite read_number_unfold.
    transitivity (parse_map VNum (read_unsigned false (literal "0" "" "" ++ rest)));
      [reflexivity|].
    rewrite (read_unsigned_literal false "0" "" "" 0 rest); try done.
    + by left.
    + by left.
  - by rewrite read_number_toString.
Qed.
End round_trip.

Section read_back.
Implicit Types (s r rest w post gap indent : string) (fuel : nat) (v : value).

Lemma serialize_starts gap indent v rest :
  well_formed v = true ->
  starts_value (SerializeJSONProperty gap indent v ++ rest) = true.
Proof.
  intros Hv. destruct v as [| b | n | s | l | props].
  - reflexivity.
  - by destruct b.
  - destruct n as [| neg | neg d p]; [done..|].
    destruct (number_head neg d p Hv) as (c & s & Hs & Hc).
    change (SerializeJSONProperty gap indent (VNum (Finite neg d p)))
      with (Number_toString (Finite neg d p)).
    rewrite Hs, append_cons.
    destruct c as [[] [] [] [] [] [] [] []]; try reflexivity; by destruct Hc.
  - reflexivity.
  - rewrite serialize_array. unfold wrap.
    by destruct (map _ l), gap.
  - rewrite serialize_object. unfold wrap.
    by destruct (map _ props), gap.
Qed.

Lemma parse_elements_join gap indent (l : list value) :
  Forall (fun e => well_formed e = true -> reads_back gap e) l ->
  forallb well_formed l = true -> spaces indent = true -> l <> [] ->
  forall acc fuel rest w post,
    blank w = true -> blank post = true ->
    (list_sum (map (fun e => S (need e)) l) <= fuel)%nat ->
    parse_elements fuel
      (join ("," ++ w) (map (SerializeJSONProperty gap indent) l)
         ++ post ++ "]" ++ rest)%string acc
    = Parsed (VArr (rev acc ++ l)) rest.
Proof.
  intros Hall Hwf Hindent. induction Hall as [|e l He Hall IH]; [done|].
  intros _ acc fuel rest w post Hw Hpost Hfuel.
  cbn [forallb] in Hwf. apply andb_prop in Hwf as [Hwfe Hwfl].
  cbn [map list_sum] in Hfuel.
  destruct fuel as [|fuel]; [simpl in Hfuel; lia|].
  rewrite parse_elements_unfold.
  destruct l as [|e2 l].
  - cbn [map join].
    rewrite (He Hwfe indent (post ++ "]" ++ rest)%string fuel); [|done| |simpl in *; lia].
    + rewrite skip_ws_blank by done.
      change (skip_ws ("]" ++ rest)) with (String "]" rest).
      reflexivity.
    + by apply follows_blank.
  - change (join ("," ++ w) (map (SerializeJSONProperty gap indent) (e :: e2 :: l)))
      with (SerializeJSONProperty gap indent e
            ++ ("," ++ w)
            ++ join ("," ++ w) (map (SerializeJSONProperty gap indent) (e2 :: l)))%string.
    rewrite !append_assoc.
    rewrite (He Hwfe indent _ fuel); [|done|done|simpl in *; lia].
    change (skip_ws ("," ++ ?x)) with (String "," x).
    cbn beta iota.
    change (code "," =? 44)%N with true. cbn beta iota.
    rewrite parse_elements_blank by done.
    rewrite (IH Hwfl ltac:(done) (e :: acc) fuel rest w post); [|done|done|simpl in *; lia].
    simpl. by rewrite <- app_assoc.
Qed.
End read_back.

Section read_back_members.
Implicit Types (s r rest w post gap indent : string) (fuel : nat) (v : value).

Lemma parse_members_member fuel (key : string) r acc :
  parse_members (S fuel) (QuoteJSONString key ++ ":" ++ r)%string acc =
    match parse_value fuel r with
    | Parsed v r3 =>
        match skip_ws r3 with
        | String c3 r4 =>
            if (code c3 =? 44)%N
            then parse_members fuel r4 (set_property key v acc)
            else if (code c3 =? 125)%N
            then Parsed (VObj (set_property key v acc)) r4
            else Malformed
        | EmptyString => Malformed
        end
    | Malformed => Malformed
    | OutOfFuel => OutOfFuel
    end.
Proof.
  rewrite parse_members_unfold. unfold QuoteJSONString. rewrite !append_assoc.
  change (skip_ws (double_quote ++ ?x)) with (double_quote ++ x)%string.
  change (double_quote ++ ?x)%string with (String (ascii_of_N 34) x).
  cbn beta iota. change (code (ascii_of_N 34) =? 34)%N with true. cbn beta iota.
  change (String (ascii_of_N 34) ?x) with (double_quote ++ x)%string.
  rewrite read_string_quoted.
  reflexivity.
Qed.

Lemma parse_members_join gap indent (props : list (string * value)) :
  Forall (fun kv => well_formed (snd kv) = true -> reads_back gap (snd kv)) props ->
  forallb (fun kv => well_formed (snd kv)) props = true ->
  spaces indent = true -> props <> [] ->
  forall acc fuel rest w post,
    blank w = true -> blank post = true ->
    enumerable_from (map fst acc) (map fst props) = true ->
    (list_sum (map (fun kv => S (need (snd kv))) props) <= fuel)%nat ->
    parse_members fuel
      (join ("," ++ w) (map (member_text gap indent) props)
         ++ post ++ "}" ++ rest)%string acc
    = Parsed (VObj (acc ++ props)) rest.
Proof.
  intros Hall Hwf Hindent. induction Hall as [|[k e] props He Hall IH]; [done|].
  intros _ acc fuel rest w post Hw Hpost Hkeys Hfuel.
  cbn [forallb snd] in Hwf. apply andb_prop in Hwf as [Hwfe Hwfl].
  cbn [map list_sum snd] in Hfuel. cbn [snd] in He.
  cbn [map fst enumerable_from] in Hkeys. apply andb_prop in Hkeys as [Hk Hkeys].
  assert (Hsp : blank match gap with EmptyString => "" | _ => " " end = true)
    by by destruct gap.
  destruct fuel as [|fuel]; [simpl in Hfuel; lia|].
  destruct props as [|kv2 props].
  - cbn [map join]. unfold member_text. cbn [fst snd]. rewrite !append_assoc.
    rewrite parse_members_member, parse_value_blank by done.
    rewrite (He Hwfe indent (post ++ "}" ++ rest)%string fuel); [|done| |simpl in *; lia].
    + rewrite skip_ws_blank by done.
      change (skip_ws ("}" ++ rest)) with (String "}" rest).
      cbn beta iota. change (code "}" =? 44)%N with false.
      change (code "}" =? 125)%N with true. cbn beta iota.
      by rewrite set_property_appends.
    + by apply follows_blank.
  - change (join ("," ++ w) (map (member_text gap indent) ((k, e) :: kv2 :: props)))
      with (member_text gap indent (k, e)
            ++ ("," ++ w)
            ++ join ("," ++ w) (map (member_text gap indent) (kv2 :: props)))%string.
    unfold member_text at 1. cbn [fst snd]. rewrite !append_assoc.
    rewrite parse_members_member, parse_value_blank by done.
    rewrite (He Hwfe indent _ fuel); [|done|done|simpl in *; lia].
    change (skip_ws ("," ++ ?x)) with (String "," x).
    cbn beta iota.
    change (code "," =? 44)%N with true. cbn beta iota.
    rewrite parse_members_blank by done.
    rewrite set_property_appends by done.
    rewrite (IH Hwfl ltac:(done) (acc ++ [(k, e)]) fuel rest w post);
      [|done|done| |simpl in *; lia].
    + by rewrite <- app_assoc.
    + by rewrite map_app.
Qed.
End read_back_members.

Section json_round_trip.
Implicit Types (s r rest w post gap indent : string) (fuel : nat) (v : value).

Lemma wrap_nonempty gap stepback opening closing (t : string) (ts : list string) :
  spaces gap = true -> spaces stepback = true ->
  exists w post,
    blank w = true /\ blank post = true
    /\ wrap gap stepback opening closing (t :: ts)
       = (opening ++ w ++ join ("," ++ w) (t :: ts) ++ post ++ closing)%string.
Proof.
  intros Hgap Hstep. unfold wrap. destruct gap as [|g gap].
  - by exists EmptyString, EmptyString.
  - exists (line_feed ++ stepback ++ String g gap)%string, (line_feed ++ stepback)%string.
    split_and!.
    + apply (blank_app line_feed); [done|]. by apply spaces_blank, spaces_app.
    + apply (blank_app line_feed); [done|]. by apply spaces_blank.
    + by rewrite !append_assoc.
Qed.

Lemma parse_value_elements fuel w r :
  blank w = true -> starts_value r = true ->
  parse_value (S fuel) ("[" ++ w ++ r) = parse_elements fuel r [].
Proof.
  intros Hw Hr. change ("[" ++ w ++ r)%string with (String "[" (w ++ r)).
  rewrite parse_value_bracket, skip_ws_blank, skip_ws_value, parse_elements_blank by done.
  destruct r as [|c r]; [done|]. simpl in Hr.
  apply andb_prop in Hr as [[_ Hc]%andb_prop _]. apply negb_true_iff in Hc.
  by rewrite Hc.
Qed.

Lemma parse_value_members fuel w r :
  blank w = true -> starts_value r = true ->
  parse_value (S fuel) ("{" ++ w ++ r) = parse_members fuel r [].
Proof.
  intros Hw Hr. change ("{" ++ w ++ r)%string with (String "{" (w ++ r)).
  rewrite parse_value_brace, skip_ws_blank, skip_ws_value, parse_members_blank by done.
  destruct r as [|c r]; [done|]. simpl in Hr.
  apply andb_prop in Hr as [_ Hc]. apply negb_true_iff in Hc.
  by rewrite Hc.
Qed.

Lemma join_starts (separator t rest : string) (ts : list string) :
  (forall r, starts_value (t ++ r) = true) ->
  starts_value (join separator (t :: ts) ++ rest) = true.
Proof.
  intros Ht. destruct ts as [|t2 ts]; [apply Ht|].
  change (join separator (t :: t2 :: ts))
    with (t ++ separator ++ join separator (t2 :: ts))%string.
  rewrite append_assoc. apply Ht.
Qed.

(** The text of a well-formed value, compact or indented, reads back as
    the value, whatever follows it. *)
Lemma serialize_reads_back gap :
  spaces gap = true -> forall v, well_formed v = true -> reads_back gap v.
Proof.
  intros Hgap.
  apply (value_induction (fun v => well_formed v = true -> reads_back gap v)).
  - intros _ indent rest [|fuel] _ _ Hfuel; [simpl in Hfuel; lia|]. reflexivity.
  - intros b _ indent rest [|fuel] _ _ Hfuel; [simpl in Hfuel; lia|].
    by destruct b.
  - intros [| neg | neg d p] Hv indent rest [|fuel] _ Hrest Hfuel;
      try done; [simpl in Hfuel; lia|].
    by apply parse_number_text.
  - intros s _ indent rest [|fuel] _ _ Hfuel; [simpl in Hfuel; lia|].
    change (SerializeJSONProperty gap indent (VStr s)) with (QuoteJSONString s).
    unfold QuoteJSONString. rewrite !append_assoc.
    by rewrite parse_value_quote, read_string_quoted.
  - intros l IH Hv indent rest [|fuel] Hindent Hrest Hfuel; [simpl in Hfuel; lia|].
    rewrite serialize_array. destruct l as [|e l]; [reflexivity|].
    cbn [map].
    destruct (wrap_nonempty gap indent "[" "]"
                (SerializeJSONProperty gap (indent ++ gap) e)
                (map (SerializeJSONProperty gap (indent ++ gap)) l) Hgap Hindent)
      as (w & post & Hw & Hpost & ->).
    rewrite !append_assoc.
    rewrite parse_value_elements; [|done|].
    + apply (parse_elements_join gap (indent ++ gap) (e :: l) IH Hv); try done.
      * by apply spaces_app.
      * cbn [need] in Hfuel. lia.
    + apply join_starts. intros r. apply serialize_starts.
      simpl in Hv. by apply andb_prop in Hv as [? _].
  - intros props IH Hv indent rest [|fuel] Hindent Hrest Hfuel; [simpl in Hfuel; lia|].
    rewrite serialize_object. destruct props as [|[k e] props]; [reflexivity|].
    cbn [map]. cbn [well_formed] in Hv. apply andb_prop in Hv as [Hkeys Hv].
    destruct (wrap_nonempty gap indent "{" "}"
                (member_text gap (indent ++ gap) (k, e))
                (map (member_text gap (indent ++ gap)) props) Hgap Hindent)
      as (w & post & Hw & Hpost & ->).
    rewrite !append_assoc.
    rewrite parse_value_members; [|done|].
    + apply (parse_members_join gap (indent ++ gap) ((k, e) :: props) IH Hv); try done.
      * by apply spaces_app.
      * cbn [need] in Hfuel. lia.
    + apply join_starts. intros r. reflexivity.
Qed.
End json_round_trip.

Lemma JSON_parse_serialized (gap : string) (v : value) :
  spaces gap = true -> well_formed v = true ->
  JSON_parse (SerializeJSONProperty gap "" v) = Ok v.
Proof.
  intros Hgap Hv. unfold JSON_parse.
  set (text := SerializeJSONProperty gap "" v).
  assert (Hread : parse_value (need v) text = Parsed v "").
  { rewrite <- (append_nil_r text).
    by apply (serialize_reads_back gap Hgap v Hv "" "" (need v)). }
  assert (Hsame : parse_value (2 * String.length text + 1) text = Parsed v "").
  { rewrite <- (parse_value_any_fuel text (need v)), Nat.add_comm.
    destruct (parse_more_fuel (need v) (2 * String.length text + 1)) as [Hmore _].
    rewrite Hmore; [done|]. by rewrite Hread. }
  by rewrite Hsame.
Qed.

(** X17: [JSON.parse] undoes [JSON.stringify], in the compact form that
    [formatValue] shows and in the indented form that an edit session
    starts with, on every well-formed value: finite canonical numbers,
    object keys in enumeration order. *)
Theorem X17_json_round_trip (v : value) (Hv : well_formed v = true) :
  JSON_parse (JSON_stringify v) = Ok v
  /\ JSON_parse (JSON_stringify_indent2 v) = Ok v.
Proof. split; by apply JSON_parse_serialized. Qed.

Lemma X17_json_round_trip_witness :
  JSON_stringify_indent2 (VArr [VStr "x"; VObj [("a", VNum thirty)]])
  = ("[" ++ line_feed ++ "  " ++ double_quote ++ "x" ++ double_quote ++ ","
         ++ line_feed ++ "  {"
         ++ line_feed ++ "    " ++ double_quote ++ "a" ++ double_quote ++ ": 30"
         ++ line_feed ++ "  }"
         ++ line_feed ++ "]")%string
  /\ JSON_parse (JSON_stringify (VObj bob)) = Ok (VObj bob)
  /\ JSON_parse (JSON_stringify_indent2 (VObj bob)) = Ok (VObj bob).
Proof.
  split; [reflexivity|].
  exact (X17_json_round_trip (VObj bob) eq_refl).
Defined.

(** X18: an edit session that is committed unchanged gives the stored
    value back.  The text that [handleCellClick] seeds for a cell, coerced
    by [saveEdit] with the type of the stored value, is that value for a
    number, a string, [null], an array and an object; a boolean comes back
    as the string of its name. *)
Theorem X18_edit_round_trip (rowIndex : nat) (header : string) (v : value) (st : state)
  (Hheader : String.eqb header "_id" = false) (Hv : stored_form v = true) :
  coerce (seed rowIndex header (Some v) st) (Some v)
  = Ok match v with
       | VBool b => VStr (if b then "true" else "false")
       | _ => v
       end.
Proof.
  unfold seed, handleCellClick. rewrite Hheader.
  destruct v as [| b | n | s | l | props].
  - reflexivity.
  - by destruct b.
  - change (Ok (VNum (parseFloat (Number_toString n))) = Ok (VNum n)).
    by rewrite parseFloat_toString.
  - reflexivity.
  - change (JSON_parse (SerializeJSONProperty "  " "" (VArr l)) = Ok (VArr l)).
    by apply JSON_parse_serialized.
  - change (JSON_parse (SerializeJSONProperty "  " "" (VObj props)) = Ok (VObj props)).
    by apply JSON_parse_serialized.
Qed.

Lemma X18_edit_round_trip_witness :
  coerce (seed 0 "age" (Some (VNum thirty)) initial) (Some (VNum thirty))
  = Ok (VNum thirty)
  /\ coerce (seed 0 "tags" (Some (VArr [VStr "x"])) initial) (Some (VArr [VStr "x"]))
     = Ok (VArr [VStr "x"])
  /\ coerce (seed 0 "active" (Some (VBool true)) initial) (Some (VBool true))
     = Ok (VStr "true").
Proof.
  split_and!.
  - exact (X18_edit_round_trip 0 "age" (VNum thirty) initial eq_refl eq_refl).
  - exact (X18_edit_round_trip 0 "tags" (VArr [VStr "x"]) initial eq_refl eq_refl).
  - exact (X18_edit_round_trip 0 "active" (VBool true) initial eq_refl eq_refl).
Defined.

(** ** The operations panel *)

Section operations.
#[local] Set Warnings "-notation-overridden".
Import Operations.
Implicit Types (h : Operations.host) (st : Operations.state) (b : button).

Ltac run_handler :=
  unfold click, insertDocument, updateDocument, deleteDocument, parseJsonSafely,
    effects, after, completion, try_finally, try_catch, bind, await, get, modify,
    emit, lift, ret, throw, ready, payload in *.

(** X19: a JSON text that does not parse stops [insertDocument] and
    [updateDocument] before the host is called: [parseJsonSafely] sets the
    error flag and the message [Invalid JSON: ...], the handler returns,
    and its [finally] releases [isLoading]. *)
Theorem X19_invalid_json_calls_nothing h b st (text : string) (e : thrown)
  (Hready : ready b st = true) (Hpayload : payload b st = Some text)
  (Hparse : JSON_parse text = Throw e) :
  effects (click h b) st = []
  /\ completion (click h b) st = Ok tt
  /\ isError (after (click h b) st) = true
  /\ resultMessage (after (click h b) st) = ("Invalid JSON: " ++ ToString_thrown e)%string
  /\ isLoading (after (click h b) st) = false
  /\ documentId (after (click h b) st) = documentId st.
Proof.
  destruct b; run_handler; try done.
  - injection Hpayload as <-. cbn. rewrite Hparse. by cbn.
  - injection Hpayload as <-. cbn. apply negb_true_iff in Hready. rewrite Hready.
    cbn. rewrite Hparse. by cbn.
Qed.

Lemma X19_invalid_json_calls_nothing_witness :
  let st := set_documentId "a1" {| collectionName := "users"; documentId := "";
              documentData := "{"; updateData := "{name}"; resultMessage := "";
              isLoading := false; isError := false |} in
  effects (click (accepting "a2") Update) st = []
  /\ resultMessage (after (click (accepting "a2") Update) st)
     = "Invalid JSON: SyntaxError: JSON Parse error"%string.
Proof.
  intros st.
  destruct (X19_invalid_json_calls_nothing (accepting "a2") Update st "{name}"
              syntax_error eq_refl eq_refl eq_refl) as (H1 & _ & _ & H2 & _).
  exact (conj H1 H2).
Defined.

(** X20: without a document identifier [updateDocument] and
    [deleteDocument] call nothing: they set the error flag and the message
    that the identifier is required, and leave [isLoading] as it was. *)
Theorem X20_identifier_required h b st (Hready : ready b st = false) :
  effects (click h b) st = []
  /\ completion (click h b) st = Ok tt
  /\ isError (after (click h b) st) = true
  /\ isLoading (after (click h b) st) = isLoading st
  /\ resultMessage (after (click h b) st)
     = ("Document ID is required for "
        ++ match b with Delete => "deletion" | _ => "update" end)%string.
Proof.
  destruct b; run_handler; try done;
    apply negb_false_iff in Hready; rewrite Hready; by cbn.
Qed.

Lemma X20_identifier_required_witness :
  effects (click (accepting "a2") Delete) initial = []
  /\ resultMessage (after (click (accepting "a2") Delete) initial)
     = "Document ID is required for deletion"%string.
Proof.
  destruct (X20_identifier_required (accepting "a2") Delete initial eq_refl)
    as (H1 & _ & _ & _ & H2).
  exact (conj H1 H2).
Defined.

(** X21: when the host answers that no document matched, the panel says
    so: [deleteDocument] and [updateDocument] set the message
    [No document was ... (ID might not exist)], raise no error flag, emit
    no event and keep the identifier. *)
Theorem X21_no_match_reported h st (Hid : documentId st <> ""%string) :
  (on_delete_document h (collectionName st) (documentId st) = Resolve false ->
   effects (deleteDocument h) st
   = [invoke (delete_document (collectionName st) (documentId st))]
   /\ resultMessage (after (deleteDocument h) st)
      = "No document was deleted (ID might not exist)"%string
   /\ isError (after (deleteDocument h) st) = false
   /\ documentId (after (deleteDocument h) st) = documentId st)
  /\ (forall update,
        JSON_parse (updateData st) = Ok update ->
        on_update_document h (collectionName st) (documentId st) update
        = Resolve false ->
        effects (updateDocument h) st
        = [invoke (update_document (collectionName st) (documentId st) update)]
        /\ resultMessage (after (updateDocument h) st)
           = "No document was updated (ID might not exist)"%string
        /\ isError (after (updateDocument h) st) = false
        /\ documentId (after (updateDocument h) st) = documentId st).
Proof.
  apply String.eqb_neq in Hid. split.
  - intros Hanswer. run_handler. rewrite Hid. cbn. rewrite Hanswer. by cbn.
  - intros update Hparse Hanswer. run_handler. rewrite Hid. cbn.
    rewrite Hparse. cbn. rewrite Hanswer. by cbn.
Qed.

Lemma X21_no_match_reported_witness :
  let st := set_documentId "a1" initial in
  effects (deleteDocument missing) st = [invoke (delete_document "users" "a1")]
  /\ resultMessage (after (deleteDocument missing) st)
     = "No document was deleted (ID might not exist)"%string.
Proof.
  intros st.
  destruct (X21_no_match_reported missing st ltac:(discriminate)) as [Hdelete _].
  destruct (Hdelete eq_refl) as (H1 & H2 & _).
  exact (conj H1 H2).
Defined.

(** X22: the [documentAction] event is emitted only after the host was
    called and accepted the command: when a click emits an event, its
    effects are exactly one call of the host followed by the event of the
    button's type for the current collection, and no error is flagged. *)
Theorem X22_event_only_after_success h b st
  (Hevent : existsb is_emits (effects (click h b) st) = true) :
  isError (after (click h b) st) = false
  /\ exists c, effects (click h b) st
               = [invoke c; emits (type_of b) (collectionName st)].
Proof.
  destruct b; run_handler; cbn in *.
  - destruct (JSON_parse (documentData st)) as [d|e]; cbn in *; [|done].
    destruct (on_insert_document h (collectionName st) d); cbn in *; [|done].
    split; [done|]. by eexists.
  - destruct (String.eqb (documentId st) ""); cbn in *; [done|].
    destruct (JSON_parse (updateData st)) as [d|e]; cbn in *; [|done].
    destruct (on_update_document h (collectionName st) (documentId st) d) as [[]|];
      cbn in *; try done.
    split; [done|]. by eexists.
  - destruct (String.eqb (documentId st) ""); cbn in *; [done|].
    destruct (on_delete_document h (collectionName st) (documentId st)) as [[]|];
      cbn in *; try done.
    split; [done|]. by eexists.
Qed.

Lemma X22_event_only_after_success_witness :
  JSON_parse (documentData initial)
  = Ok (VObj [("name", VStr "John Doe"); ("email", VStr "john@example.com");
              ("age", VNum thirty)])
  /\ isError (after (click (accepting "a2") Insert) initial) = false
  /\ exists c, effects (click (accepting "a2") Insert) initial
               = [invoke c; emits "insert" "users"].
Proof.
  split; [reflexivity|].
  exact (X22_event_only_after_success (accepting "a2") Insert initial eq_refl).
Defined.

(** X23: a click that passed the test of the identifier always ends with
    [isLoading] released, and no handler lets an exception escape: a
    rejected command is caught and reported with the error flag. *)
Theorem X23_loading_released h b st (Hready : ready b st = true) :
  isLoading (after (click h b) st) = false
  /\ completion (click h b) st = Ok tt
  /\ (length (effects (click h b) st) <= 2)%nat.
Proof.
  destruct b; run_handler; cbn in *.
  - destruct (JSON_parse (documentData st)) as [d|e]; cbn in *; [|by auto].
    destruct (on_insert_document h (collectionName st) d); cbn in *; by auto.
  - apply negb_true_iff in Hready. rewrite Hready. cbn.
    destruct (JSON_parse (updateData st)) as [d|e]; cbn in *; [|by auto].
    destruct (on_update_document h (collectionName st) (documentId st) d) as [[]|];
      cbn in *; by auto.
  - apply negb_true_iff in Hready. rewrite Hready. cbn.
    destruct (on_delete_document h (collectionName st) (documentId st)) as [[]|];
      cbn in *; by auto.
Qed.

Lemma X23_loading_released_witness :
  isLoading (after (click missing Insert) initial) = false
  /\ completion (click missing Insert) initial = Ok tt
  /\ (length (effects (click missing Insert) initial) <= 2)%nat.
Proof. exact (X23_loading_released missing Insert initial eq_refl). Defined.

(** X24: the identifier that an insertion returns is the one that the
    next deletion sends, and a deletion that succeeded clears it, so that
    a second [Delete] click calls nothing. *)
Theorem X24_inserted_identifier_used h1 h2 h3 st (document : value) (id : string)
  (Hparse : JSON_parse (documentData st) = Ok document)
  (Hinsert : on_insert_document h1 (collectionName st) document = Resolve id)
  (Hid : id <> ""%string)
  (Hdelete : on_delete_document h2 (collectionName st) id = Resolve true) :
  let st1 := after (insertDocument h1) st in
  let st2 := after (deleteDocument h2) st1 in
  documentId st1 = id
  /\ effects (deleteDocument h2) st1
     = [invoke (delete_document (collectionName st) id);
        emits "delete" (collectionName st)]
  /\ documentId st2 = ""%string
  /\ effects (deleteDocument h3) st2 = [].
Proof.
  apply String.eqb_neq in Hid. run_handler. cbn.
  rewrite Hparse. cbn. rewrite Hinsert. cbn. rewrite Hid. cbn.
  rewrite Hdelete. by cbn.
Qed.

Lemma X24_inserted_identifier_used_witness :
  let st1 := after (insertDocument (accepting "a2")) initial in
  let st2 := after (deleteDocument (accepting "a2")) st1 in
  documentId st1 = "a2"%string
  /\ effects (deleteDocument (accepting "a2")) st1
     = [invoke (delete_document "users" "a2"); emits "delete" "users"]
  /\ documentId st2 = ""%string
  /\ effects (deleteDocument missing) st2 = [].
Proof.
  exact (X24_inserted_identifier_used (accepting "a2") (accepting "a2") missing initial
           (VObj [("name", VStr "John Doe"); ("email", VStr "john@example.com");
                  ("age", VNum thirty)])
           "a2" eq_refl eq_refl ltac:(discriminate) eq_refl).
Defined.
End operations.
